(** * Image transform-and-search pipeline: sequential reference and OpenMP variants

    A shallow embedding of [rawimage.h], of the sequential reference
    [process-b.c], of its variants [process-b_tc1.c] to [process-b_tc4.c]
    and of the row-parallel programs [process-a_tc2.c] to
    [process-a_tc4.c].

    Conventions.
    - A C [int] is a [Z]; every arithmetic result is brought back into
      the 32-bit two's complement range by [wrap32] (the behaviour of the
      target machines; ISO C leaves signed overflow undefined).
    - An [unsigned long] match counter is a [Z] reduced modulo [2^64].
    - An [unsigned long] used as an array index or loop bound is a [nat]:
      it ranges over positions of an object in memory and cannot wrap.
    - An array is a [list], read with a default outside its bounds and
      written with stdpp's insert (no effect outside the bounds); the
      loops of the programs stay inside the bounds of a well-formed image.
    - OpenMP regions are run against an explicit [Runtime]: the choices of
      the OpenMP runtime (which thread executes a [single], which thread
      executes which iteration of a worksharing loop and in which order)
      and the indeterminate contents of storage that is read before it is
      written. *)

From Stdlib Require Import ZArith Lia Bool String DecimalString.
From stdpp Require Import base tactics option list.

Local Open Scope Z_scope.

(** ** Machine integers *)

Definition wrap32 (z : Z) : Z := (z + 2 ^ 31) mod 2 ^ 32 - 2 ^ 31.
Definition wrap64 (z : Z) : Z := z mod 2 ^ 64.

Definition int_add (a b : Z) : Z := wrap32 (a + b).
Definition int_sub (a b : Z) : Z := wrap32 (a - b).
(** C99 division truncates toward zero. *)
Definition int_div (a b : Z) : Z := wrap32 (Z.quot a b).
Definition int_xor (a b : Z) : Z := wrap32 (Z.lxor a b).

(** [counter[i]++] and [counter[i] += v] on [unsigned long]. *)
Definition ulong_incr (c : Z) : Z := wrap64 (c + 1).
Definition ulong_add (c v : Z) : Z := wrap64 (c + v).

(** ** rawimage.h: data *)

Record Pixel := mkPixel { red : Z; green : Z; blue : Z }.

Definition zero_pixel : Pixel := mkPixel 0 0 0.

#[global] Instance Pixel_inhabited : Inhabited Pixel := populate zero_pixel.

#[global] Instance Pixel_eq_dec : EqDecision Pixel.
Proof. solve_decision. Defined.

Module Image.
Record t := mk {
  length : nat;
  lines : nat;
  linesize : nat;
  pixels : list (list Pixel)
}.
End Image.

(** [img->pixels[l][p]] *)
Definition get_pixel (im : Image.t) (l p : nat) : Pixel :=
  (Image.pixels im !!! l) !!! p.

(** [img->pixels[l][p] = px] *)
Definition set_pixel (im : Image.t) (l p : nat) (px : Pixel) : Image.t :=
  Image.mk (Image.length im) (Image.lines im) (Image.linesize im)
    (<[l := <[p := px]> (Image.pixels im !!! l)]> (Image.pixels im)).

(** The image owns [lines] rows of [linesize] pixels each. *)
Definition wf_image (im : Image.t) : Prop :=
  List.length (Image.pixels im) = Image.lines im /\
  Forall (fun row => List.length row = Image.linesize im) (Image.pixels im).

(** ** Loops *)

(** [for (i = lo; i < lo + n; ++i) s = body i s] *)
Fixpoint for_loop {St : Type} (n lo : nat) (body : nat -> St -> St) (s : St) : St :=
  match n with
  | O => s
  | S n' => for_loop n' (S lo) body (body lo s)
  end.

(** [for (i = lo; i < hi; ++i) s = body i s] *)
Definition for_range {St : Type} (lo hi : nat) (body : nat -> St -> St) (s : St) : St :=
  for_loop (hi - lo) lo body s.

(** ** rawimage.h: Greyscale and XOR *)

Definition Greyscale (p : Pixel) : Pixel :=
  let avg := int_div (int_add (int_add (red p) (green p)) (blue p)) 3 in
  mkPixel avg avg avg.

Definition XOR (p : Pixel) (val : Z) : Pixel :=
  mkPixel (int_xor (red p) val) (int_xor (green p) val) (int_xor (blue p) val).

(** ** The per-pixel steps shared by all programs *)

(** The three-way channel comparison of the search loops. *)
Definition pixel_match (a b : Pixel) : bool :=
  (red a =? red b) && (green a =? green b) && (blue a =? blue b).

(** [counter[i]++] *)
Definition bump (i : nat) (counter : list Z) : list Z :=
  <[i := ulong_incr (counter !!! i)]> counter.

(** The accumulators [rav], [gav], [bav] of the bleed loop. *)
Definition sum_step (im : Image.t) (l i : nat) (acc : Z * Z * Z) : Z * Z * Z :=
  let '(rav, gav, bav) := acc in
  (int_add rav (red (get_pixel im l i)),
   int_add gav (green (get_pixel im l i)),
   int_add bav (blue (get_pixel im l i))).

(** The new value of pixel [cur] given the averages and [pixlen]. *)
Definition blend (acc : Z * Z * Z) (pixlen : Z) (cur : Pixel) : Pixel :=
  let '(rav, gav, bav) := acc in
  let rav := int_div rav pixlen in
  let gav := int_div gav pixlen in
  let bav := int_div bav pixlen in
  mkPixel (int_add (red cur) (int_div (int_sub rav (red cur)) 3))
          (int_add (green cur) (int_div (int_sub gav (green cur)) 3))
          (int_add (blue cur) (int_div (int_sub bav (blue cur)) 3)).

(** [startpix] and [pixlen] as process-b.c lines 64-70 set them. *)
Definition bleed_window (p : nat) : nat * nat :=
  if (10 <? p)%nat then ((p - 10)%nat, 10%nat) else (0%nat, p).

(** process-b.c lines 62-89: the bleed of pixel [p] of row [l]. *)
Definition bleed (l p : nat) (im : Image.t) : Image.t :=
  if (0 <? p)%nat then
    let '(startpix, pixlen) := bleed_window p in
    let acc := for_range startpix p (sum_step im l) (0, 0, 0) in
    set_pixel im l p (blend acc (Z.of_nat pixlen) (get_pixel im l p))
  else im.

(** The bleed of the OpenMP variants, which guard the division with
    [if (pixlen > 0)]. *)
Definition bleed_guarded (l p : nat) (im : Image.t) : Image.t :=
  if (0 <? p)%nat then
    let '(startpix, pixlen) := bleed_window p in
    let acc := for_range startpix p (sum_step im l) (0, 0, 0) in
    if (0 <? pixlen)%nat
    then set_pixel im l p (blend acc (Z.of_nat pixlen) (get_pixel im l p))
    else im
  else im.

(** Bleed, [Greyscale(&img.pixels[l][p])], [XOR(&img.pixels[l][p], 13)]. *)
Definition transform (l p : nat) (im : Image.t) : Image.t :=
  let im := bleed l p im in
  let im := set_pixel im l p (Greyscale (get_pixel im l p)) in
  set_pixel im l p (XOR (get_pixel im l p) 13).

Definition transform_guarded (l p : nat) (im : Image.t) : Image.t :=
  let im := bleed_guarded l p im in
  let im := set_pixel im l p (Greyscale (get_pixel im l p)) in
  set_pixel im l p (XOR (get_pixel im l p) 13).

(** ** process-b.c: the sequential reference *)

Record State := mkState {
  img : Image.t;
  search : Image.t;
  counter : list Z
}.

(** One iteration of a search loop of process-b.c (lines 53-58). *)
Definition search_body (l p i : nat) (st : State) : State :=
  if pixel_match (get_pixel (img st) l p) (get_pixel (search st) 0 i)
  then mkState (img st) (search st) (bump i (counter st))
  else st.

Definition search_loop (l p : nat) (st : State) : State :=
  for_range 0 (Image.length (search st)) (search_body l p) st.

Definition transform_state (l p : nat) (st : State) : State :=
  mkState (transform l p (img st)) (search st) (counter st).

(** The body of the loop over [p] (lines 49-107). *)
Definition pixel_body (p : nat) (st : State) : State :=
  search_loop 0 p (transform_state 0 p (search_loop 0 p st)).

(** Lines 48-107. *)
Definition process_b (st : State) : State :=
  for_range 0 (Image.linesize (img st)) pixel_body st.

(** ** Outcomes of a run *)

(** What a program does to its environment, in order.  Standard output is
    not part of the model, except for the search report, which [main]
    returns as data. *)
Inductive Event :=
| FopenRead (name : option string)
| FopenWrite (name : option string)
| Stderr (msg : string).

Inductive Result (A : Type) :=
| Ok (a : A)
| Fatal (err : string)      (* [FatalError]: the message on stderr, then [exit(1)] *)
| Undefined (what : string). (* behaviour ISO C does not define *)
Arguments Ok {A} a.
Arguments Fatal {A} err.
Arguments Undefined {A} what.

Definition Run (A : Type) : Type := list Event * Result A.

Definition ret {A : Type} (a : A) : Run A := ([], Ok a).

Definition bind {A B : Type} (m : Run A) (k : A -> Run B) : Run B :=
  match m with
  | (tr, Ok a) => let '(tr', r) := k a in (tr ++ tr', r)
  | (tr, Fatal e) => (tr, Fatal e)
  | (tr, Undefined w) => (tr, Undefined w)
  end.

#[global] Instance Run_ret : MRet Run := @ret.
#[global] Instance Run_bind : MBind Run := fun A B k m => bind m k.

Definition emit (e : Event) : Run unit := ([e], Ok tt).

(** rawimage.h lines 30-34. *)
Definition FatalError {A : Type} (err : string) : Run A := ([Stderr err], Fatal err).

Definition exit_status {A : Type} (r : Result A) : option Z :=
  match r with
  | Ok _ => Some 0
  | Fatal _ => Some 1
  | Undefined _ => None
  end.

(** ** The environment of a run *)

Inductive ImageId := GridImage | SearchImage.

Inductive AllocSite :=
| LinePointers (which : ImageId)
| Line (which : ImageId) (l : nat)
| Counters
| LocalCounters (t : nat)   (* [local] of thread [t] of a team *)
| TaskCounters (l : nat).   (* [local] of the task of row [l] *)

Record Env := mkEnv {
  (** the readable files, as streams of whole pixels *)
  file : string -> option (list Pixel);
  (** the files [fopen(.., "wb")] can create *)
  writable : string -> bool;
  (** whether the allocation made at a site returns [NULL] *)
  malloc_null : AllocSite -> bool;
  (** what the memory handed out at a site holds before it is written *)
  heap_junk : AllocSite -> nat -> Pixel;
  (** the successive results of [rand()] *)
  rand : nat -> Z
}.

(** ** rawimage.h: ImageData, LoadFile, WriteFile *)

Inductive InitialisationType := NONE | ZERO | RANDOM.

(** Lines 50-71: [lines], [length] and [linesize] of the image. *)
Definition image_shape (length linesize : nat) : nat * nat * nat :=
  if (linesize =? 0)%nat then (1, length, length)%nat
  else
    let tlines := (length / linesize)%nat in
    let remainder := (length - tlines * linesize)%nat in
    if (0 <? remainder)%nat
    then (S tlines, length + (linesize - remainder), linesize)%nat
    else (tlines, length, linesize).

(** Lines 87-104: the pixel a fresh line holds at position [p]. *)
Definition initial_pixel (env : Env) (which : ImageId) (linesize : nat)
    (initialisation : InitialisationType) (l p : nat) : Pixel :=
  match initialisation with
  | NONE => heap_junk env (Line which l) p
  | RANDOM =>
      let k := (3 * (l * linesize + p))%nat in
      mkPixel (Z.rem (rand env k) 255) (Z.rem (rand env (k + 1)) 255)
              (Z.rem (rand env (k + 2)) 255)
  | ZERO => zero_pixel
  end.

(** Lines 81-105: allocate the lines one after the other. *)
Fixpoint alloc_lines (env : Env) (which : ImageId) (linesize : nat)
    (initialisation : InitialisationType) (n l : nat) : Run (list (list Pixel)) :=
  match n with
  | O => mret []
  | S n' =>
      if malloc_null env (Line which l)
      then FatalError "Cannot allocate Pixel memory for a line"
      else
        let row := map (initial_pixel env which linesize initialisation l)
                       (seq 0 linesize) in
        rest ← alloc_lines env which linesize initialisation n' (S l);
        mret (row :: rest)
  end.

Definition ImageData (env : Env) (which : ImageId) (length linesize : nat)
    (initialisation : InitialisationType) : Run Image.t :=
  let '(lines, length, linesize) := image_shape length linesize in
  if malloc_null env (LinePointers which)
  then FatalError "Cannot allocate memory for line data"
  else
    rows ← alloc_lines env which linesize initialisation lines 0;
    mret (Image.mk length lines linesize rows).

(** The state of the read loop of [LoadFile]: the image, the unread rest
    of the stream, and the local [counter]. *)
Definition Loading : Type := Image.t * list Pixel * nat.

(** Lines 181-190.  [fread] at the end of the stream stores nothing. *)
Definition load_pixel (length l p : nat) (s : Loading) : Loading :=
  let '(im, stream, counter) := s in
  if (counter <? length)%nat then
    match stream with
    | x :: rest => (set_pixel im l p x, rest, counter)
    | [] => (im, [], counter)
    end
  else (set_pixel im l p zero_pixel, stream, counter).

Definition LoadFile (env : Env) (which : ImageId) (filename : option string)
    (linesize : nat) : Run Image.t :=
  _ ← emit (FopenRead filename);
  match filename ≫= file env with
  | None => FatalError "Cannot open file for reading"
  | Some data =>
      let length := List.length data in
      im ← ImageData env which length linesize NONE;
      let '(im', _, _) :=
        for_range 0 (Image.lines im)
          (fun l => for_range 0 (Image.linesize im) (load_pixel length l))
          (im, data, 0%nat) in
      mret im'
  end.

(** Lines 147-153: the pixels in the order [fwrite] emits them. *)
Definition file_contents (im : Image.t) : list Pixel :=
  for_range 0 (Image.lines im)
    (fun l => for_range 0 (Image.linesize im)
                (fun p out => out ++ [get_pixel im l p]))
    [].

Definition WriteFile (env : Env) (filename : option string) (im : Image.t)
    : Run (list Pixel) :=
  _ ← emit (FopenWrite filename);
  match filename with
  | Some name =>
      if writable env name then mret (file_contents im)
      else FatalError "Cannot open file for writing"
  | None => FatalError "Cannot open file for writing"
  end.

(** ** process-b.c: main *)

Record Output := mkOutput {
  out_file : list Pixel;          (* what [WriteFile] stored *)
  report : list (Pixel * Z)       (* the "Search Results" lines *)
}.

(** Lines 116-126. *)
Definition search_report (st : State) : list (Pixel * Z) :=
  map (fun i => (get_pixel (search st) 0 i, counter st !!! i))
      (seq 0 (Image.length (search st))).

Definition usage : string := "Usage: create in_filename out_filename search_filename".

(** Lines 39-41 of process-b.c: [malloc], then the zeroing loop, with no
    test of the pointer in between. *)
Definition alloc_counter_unchecked (env : Env) (n : nat) : Run (list Z) :=
  if malloc_null env Counters then
    if (0 <? n)%nat then ([], Undefined "store through a null pointer")
    else mret []
  else mret (replicate n 0).

(** The same allocation in the OpenMP variants:
    [if (!counter) FatalError("malloc failed for counter");]. *)
Definition alloc_counter_checked (env : Env) (n : nat) : Run (list Z) :=
  if malloc_null env Counters then FatalError "malloc failed for counter"
  else mret (replicate n 0).

(** [av] is the argument vector, [av[0]] the program name and
    [ac = length av]; [av[ac]] is the null pointer. *)
Definition main_b (env : Env) (av : list string) : Run Output :=
  let ac := List.length av in
  if (ac <? 3)%nat then FatalError usage
  else
    let infilename := av !! 1%nat in
    let outfilename := av !! 2%nat in
    let searchfilename := av !! 3%nat in
    im ← LoadFile env GridImage infilename 0;
    srch ← LoadFile env SearchImage searchfilename 0;
    cnt ← alloc_counter_unchecked env (Image.length srch);
    let st := process_b (mkState im srch cnt) in
    written ← WriteFile env outfilename (img st);
    mret (mkOutput written (search_report st)).

(** The argument test and the allocation as process-b_tc3.c has them
    (lines 24-26 and 47-48). *)
Definition setup_b_tc3 (env : Env) (av : list string) : Run State :=
  let ac := List.length av in
  if (ac <? 4)%nat then FatalError usage
  else
    im ← LoadFile env GridImage (av !! 1%nat) 0;
    srch ← LoadFile env SearchImage (av !! 3%nat) 0;
    cnt ← alloc_counter_checked env (Image.length srch);
    mret (mkState im srch cnt).

(** ** OpenMP: teams, worksharing loops and single constructs *)

(** A linearised execution of a worksharing loop: the iterations in the
    order they are carried out, each with the thread that carries it out.
    Iterations of the loops below touch pairwise distinct cells (or cells
    updated atomically by commuting additions), so every interleaving a
    runtime may produce has the effect of such a linear order. *)
Definition Schedule : Type := list (nat * nat).

Record Runtime := mkRuntime {
  (** size of the team *)
  nthreads : nat;
  (** the thread that executes the [k]-th [single] region met by the team *)
  single_thread : nat -> nat;
  (** the schedule of the [k]-th worksharing loop, of [n] iterations *)
  for_schedule : nat -> nat -> Schedule;
  (** the order in which the threads enter the [critical] region *)
  critical_order : list nat;
  (** the indeterminate value thread [t] finds in the scalars of the
      [k]-th declaration executed without an initialiser *)
  indeterminate : nat -> nat -> Pixel
}.

(** Every iteration of [0 .. n-1] exactly once, on a thread of the team. *)
Definition valid_schedule (T n : nat) (sched : Schedule) : Prop :=
  Permutation (sched.*1) (seq 0 n) /\ Forall (fun it => (it.2 < T)%nat) sched.

Definition valid_runtime (rt : Runtime) : Prop :=
  (0 < nthreads rt)%nat /\
  (forall k, (single_thread rt k < nthreads rt)%nat) /\
  (forall k n, valid_schedule (nthreads rt) n (for_schedule rt k n)) /\
  Permutation (critical_order rt) (seq 0 (nthreads rt)).

(** [#pragma omp for]: [body t i] is iteration [i] run by thread [t]. *)
Definition omp_for {St : Type} (sched : Schedule) (body : nat -> nat -> St -> St)
    (s : St) : St :=
  foldl (fun s it => body it.2 it.1 s) s sched.

(** [schedule(static)] without a chunk size: contiguous blocks of
    [ceil(n/T)] iterations, block [t] on thread [t]. *)
Definition static_schedule (T n : nat) : Schedule :=
  map (fun i => (i, i / ((n + T - 1) / T))%nat) (seq 0 n).

(** Scalars declared inside the parallel region are private: one copy per
    thread.  A [single] region without [copyprivate] assigns the copy of
    the executing thread only. *)
Definition Private : Type := nat -> Pixel.

Definition single_assign (s : nat) (v : Pixel) (priv : Private) : Private :=
  fun t => if (t =? s)%nat then v else priv t.

(** ** process-b_tc2.c: phased cycle, atomic increments *)

(** Lines 73-79 and 137-143: iteration [i] on thread [t], which tests its
    own copy of the scalars. *)
Definition tc2_search_body (priv : Private) (t i : nat) (st : State) : State :=
  if pixel_match (priv t) (get_pixel (search st) 0 i)
  then mkState (img st) (search st) (bump i (counter st))
  else st.

(** Lines 57-148: the cycle of column [p], phases separated by barriers. *)
Definition tc2_pixel_cycle (rt : Runtime) (p : nat) (st : State) : State :=
  let n := Image.length (search st) in
  (* int r0, g0, b0;  single { r0 = ...; }  barrier *)
  let s0 := single_assign (single_thread rt (3 * p)) (get_pixel (img st) 0 p)
              (indeterminate rt (2 * p)) in
  let st := omp_for (for_schedule rt (2 * p) n) (tc2_search_body s0) st in
  (* single { bleed; Greyscale; XOR }  barrier *)
  let st := mkState (transform_guarded 0 p (img st)) (search st) (counter st) in
  (* int r1, g1, b1;  single { r1 = ...; }  barrier *)
  let s1 := single_assign (single_thread rt (3 * p + 2)) (get_pixel (img st) 0 p)
              (indeterminate rt (2 * p + 1)) in
  omp_for (for_schedule rt (2 * p + 1) n) (tc2_search_body s1) st.

Definition process_b_tc2 (rt : Runtime) (st : State) : State :=
  for_range 0 (Image.linesize (img st)) (tc2_pixel_cycle rt) st.

(** ** Thread-local counters *)

Record TeamState := mkTeam {
  shared : State;
  locals : list (list Z)     (* [local] of each thread *)
}.

(** [local = calloc(search.length, sizeof(unsigned long))] in every thread. *)
Definition calloc_locals (T n : nat) : list (list Z) := replicate T (replicate n 0).

(** [local[i]++] on thread [t]. *)
Definition bump_local (t i : nat) (ls : list (list Z)) : list (list Z) :=
  <[t := bump i (ls !!! t)]> ls.

(** [counter[i] += local[i]] on thread [t]. *)
Definition merge_cell (t i : nat) (ts : TeamState) : TeamState :=
  let st := shared ts in
  mkTeam (mkState (img st) (search st)
            (<[i := ulong_add (counter st !!! i) ((locals ts !!! t) !!! i)]> (counter st)))
         (locals ts).

(** [for (i = 0; i < search.length; ++i) counter[i] += local[i];] run by
    thread [t] from start to end. *)
Definition merge_all (t : nat) (ts : TeamState) : TeamState :=
  for_range 0 (Image.length (search (shared ts))) (merge_cell t) ts.

(** ** process-b_tc4.c: tiled searches, thread-local counters *)

(** Lines 83-95 and 148-160: tile [tb] on thread [t]. *)
Definition tile_body (TILE_I : nat) (priv : Private) (t tb : nat) (ts : TeamState)
    : TeamState :=
  let len := Image.length (search (shared ts)) in
  let start := (tb * TILE_I)%nat in
  let end_ := (start + TILE_I)%nat in
  let end_ := if (len <? end_)%nat then len else end_ in
  for_range start end_
    (fun i ts =>
       if pixel_match (priv t) (get_pixel (search (shared ts)) 0 i)
       then mkTeam (shared ts) (bump_local t i (locals ts))
       else ts)
    ts.

(** Lines 67-165. *)
Definition tc4_pixel_cycle (TILE_I : nat) (rt : Runtime) (p : nat) (ts : TeamState)
    : TeamState :=
  let len := Image.length (search (shared ts)) in
  let s0 := single_assign (single_thread rt (3 * p)) (get_pixel (img (shared ts)) 0 p)
              (indeterminate rt (2 * p)) in
  let tiles1 := ((len + TILE_I - 1) / TILE_I)%nat in
  let ts := omp_for (for_schedule rt (2 * p) tiles1) (tile_body TILE_I s0) ts in
  let st := shared ts in
  let ts := mkTeam (mkState (transform_guarded 0 p (img st)) (search st) (counter st))
                   (locals ts) in
  let s1 := single_assign (single_thread rt (3 * p + 2)) (get_pixel (img (shared ts)) 0 p)
              (indeterminate rt (2 * p + 1)) in
  let tiles2 := ((len + TILE_I - 1) / TILE_I)%nat in
  omp_for (for_schedule rt (2 * p + 1) tiles2) (tile_body TILE_I s1) ts.

(** Lines 58-174: the parallel region, ending with one [critical] merge
    per thread, in a team whose threads all received their zeroed [local]
    from [calloc] (line 61).  The test of the pointer (lines 62-65) is in
    [region_b_tc4] below. *)
Definition process_b_tc4 (TILE_I : nat) (rt : Runtime) (st : State) : State :=
  let ts := mkTeam st (calloc_locals (nthreads rt) (Image.length (search st))) in
  let ts := for_range 0 (Image.linesize (img st)) (tc4_pixel_cycle TILE_I rt) ts in
  shared (foldl (fun ts t => merge_all t ts) ts (critical_order rt)).

(** ** process-a_tc3.c (row-parallel, atomic increment at each match) *)

Definition transform_guarded_state (l p : nat) (st : State) : State :=
  mkState (transform_guarded l p (img st)) (search st) (counter st).

(** Lines 59-120: column [p] of row [l]. *)
Definition tc3_column (l p : nat) (st : State) : State :=
  search_loop l p (transform_guarded_state l p (search_loop l p st)).

(** Lines 57-121: row [l], left to right. *)
Definition tc3_row_body (l : nat) (st : State) : State :=
  for_range 0 (Image.linesize (img st)) (tc3_column l) st.

(** Lines 51-123. *)
Definition process_a_tc3 (rt : Runtime) (st : State) : State :=
  omp_for (for_schedule rt 0 (Image.lines (img st))) (fun _ l st => tc3_row_body l st) st.

(** ** process-a_tc2.c (row-parallel, thread-local counters) *)

(** Lines 53-61 and 90-98: the counts go to [local] of thread [t]. *)
Definition local_search_body (t l p i : nat) (ts : TeamState) : TeamState :=
  let st := shared ts in
  if pixel_match (get_pixel (img st) l p) (get_pixel (search st) 0 i)
  then mkTeam st (bump_local t i (locals ts))
  else ts.

Definition local_search_loop (t l p : nat) (ts : TeamState) : TeamState :=
  for_range 0 (Image.length (search (shared ts))) (local_search_body t l p) ts.

Definition transform_guarded_team (l p : nat) (ts : TeamState) : TeamState :=
  mkTeam (transform_guarded_state l p (shared ts)) (locals ts).

(** Lines 52-98: column [p] of row [l] on thread [t]. *)
Definition tc2_column (t l p : nat) (ts : TeamState) : TeamState :=
  local_search_loop t l p (transform_guarded_team l p (local_search_loop t l p ts)).

(** Lines 50-99: row [l] on thread [t]. *)
Definition tc2_row_body (t l : nat) (ts : TeamState) : TeamState :=
  for_range 0 (Image.linesize (img (shared ts))) (tc2_column t l) ts.

(** Lines 47-100: the row loop under [schedule(runtime)]. *)
Definition tc2_rows (sched : Schedule) (ts : TeamState) : TeamState :=
  omp_for sched tc2_row_body ts.

(** Lines 103-107: the merge is itself a worksharing loop,
    [#pragma omp for schedule(static)], so index [i] is merged by the one
    thread that the schedule gives it to. *)
Definition tc2_merge (sched : Schedule) (ts : TeamState) : TeamState :=
  omp_for sched merge_cell ts.

(** Lines 41-110, in a team whose threads all received their zeroed
    [local] from [calloc] (line 43).  The test of the pointer (line 44)
    is in [region_a_tc2] below. *)
Definition process_a_tc2 (rt : Runtime) (st : State) : State :=
  let ts := mkTeam st (calloc_locals (nthreads rt) (Image.length (search st))) in
  let ts := tc2_rows (for_schedule rt 0 (Image.lines (img st))) ts in
  shared (tc2_merge (for_schedule rt 1 (Image.length (search st))) ts).

(** The merge as process-b_tc3.c (lines 149-153) and process-a_tc4.c
    (lines 105-108) write it, put after the row loop of process-a_tc2.c:
    a plain loop over all of [local], run once by every thread. *)
Definition process_a_merge_each (rt : Runtime) (st : State) : State :=
  let ts := mkTeam st (calloc_locals (nthreads rt) (Image.length (search st))) in
  let ts := tc2_rows (for_schedule rt 0 (Image.lines (img st))) ts in
  shared (foldl (fun ts t => merge_all t ts) ts (critical_order rt)).

(** ** Allocation of the thread-local counters *)

(** The threads of a team of [T] whose [calloc] of [local] returns
    [NULL]. *)
Definition failing_threads (env : Env) (T : nat) : list nat :=
  List.filter (fun t => malloc_null env (LocalCounters t)) (seq 0 T).

(** [if (!local) FatalError(msg);] reached by the threads (or tasks)
    [callers] with no critical region around it.  One caller prints the
    message and ends the run.  Two callers may be inside [exit] at the
    same time, and ISO C does not define a program that calls [exit] more
    than once (C11 7.22.4.4). *)
Definition unguarded_abort {A : Type} (callers : list nat) (msg : string) : Run A :=
  match callers with
  | [_] => FatalError msg
  | _ => ([], Undefined "exit called by more than one thread")
  end.

(** Lines 41-110 of process-a_tc2.c, from the allocation of [local] in
    every thread (lines 43-44). *)
Definition region_a_tc2 (env : Env) (rt : Runtime) (st : State) : Run State :=
  match failing_threads env (nthreads rt) with
  | [] => mret (process_a_tc2 rt st)
  | callers => unguarded_abort callers "calloc failed for local counter"
  end.

(** [main] of the row-parallel programs, rows of 1000 pixels, around a
    processing that returns: the region of process-a_tc3.c, which
    allocates nothing, and the regions of process-a_tc2.c and
    process-a_tc4.c in the runs in which every [calloc] of [local]
    succeeds.  [main_a_region] below is the same [main] around a region
    that can end the run. *)
Definition main_a (process : State -> State) (env : Env) (av : list string)
    : Run Output :=
  let ac := List.length av in
  if (ac <? 4)%nat then FatalError usage
  else
    im ← LoadFile env GridImage (av !! 1%nat) 1000;
    srch ← LoadFile env SearchImage (av !! 3%nat) 0;
    cnt ← alloc_counter_checked env (Image.length srch);
    let st := process (mkState im srch cnt) in
    written ← WriteFile env (av !! 2%nat) (img st);
    mret (mkOutput written (search_report st)).

(** [main] of process-a_tc2.c and process-a_tc4.c, whose parallel region
    ends the run when a [calloc] of [local] fails. *)
Definition main_a_region (region : State -> Run State) (env : Env) (av : list string)
    : Run Output :=
  let ac := List.length av in
  if (ac <? 4)%nat then FatalError usage
  else
    im ← LoadFile env GridImage (av !! 1%nat) 1000;
    srch ← LoadFile env SearchImage (av !! 3%nat) 0;
    cnt ← alloc_counter_checked env (Image.length srch);
    st ← region (mkState im srch cnt);
    written ← WriteFile env (av !! 2%nat) (img st);
    mret (mkOutput written (search_report st)).


Definition main_a_tc3 (rt : Runtime) : Env -> list string -> Run Output :=
  main_a (process_a_tc3 rt).

(** ** Concrete inputs *)

(** An image as [LoadFile] with line size 0 builds it from a stream. *)
Definition one_line (row : list Pixel) : Image.t :=
  Image.mk (List.length row) 1 (List.length row) [row].

(** An image of full rows. *)
Definition of_rows (linesize : nat) (rows : list (list Pixel)) : Image.t :=
  Image.mk (List.length rows * linesize) (List.length rows) linesize rows.

Definition scenario_grid : Image.t :=
  one_line [mkPixel 10 20 30; mkPixel 40 50 60; mkPixel 70 80 90].

Definition scenario_search : Image.t := one_line [mkPixel 10 20 30].

Definition scenario : State := mkState scenario_grid scenario_search [0].

(** A team of [T] threads under [schedule(static)] in which thread 0 is
    the one to execute every [single] region, threads enter the critical
    region in the order of their numbers, and uninitialised scalars hold
    [junk]. *)
Definition static_runtime (T : nat) (junk : Pixel) : Runtime :=
  mkRuntime T (fun _ => 0%nat) (fun _ n => static_schedule T n) (seq 0 T)
            (fun _ _ => junk).

(** An environment with a grid file ["in"] and a search file ["search"],
    in which every file can be written, only the counter allocation may
    fail, and recycled heap memory holds [junk]. *)
Definition simple_env (grid srch : list Pixel) (counter_null : bool) (junk : Pixel)
    : Env :=
  mkEnv (fun name => if String.eqb name "in" then Some grid
                     else if String.eqb name "search" then Some srch
                     else None)
        (fun _ => true)
        (fun site => match site with Counters => counter_null | _ => false end)
        (fun _ _ => junk)
        (fun _ => 0).

(** ** The bleed in the words of the specification *)

(** The [min(10, p)] pixels at columns [p-n .. p-1] of [row]. *)
Definition window (p : nat) (row : list Pixel) : list Pixel :=
  let n := Nat.min 10 p in
  take n (drop (p - n) row).

Definition channel_sum (ch : Pixel -> Z) (w : list Pixel) : Z :=
  foldr (fun x acc => ch x + acc) 0 w.

(** One channel: the window's sum divided by [n], then a third of the
    difference to the current value added to it; [int] arithmetic. *)
Definition bleed_channel (ch : Pixel -> Z) (n : nat) (w : list Pixel) (cur : Pixel) : Z :=
  let average := Z.quot (wrap32 (channel_sum ch w)) (Z.of_nat n) in
  wrap32 (ch cur + Z.quot (wrap32 (average - ch cur)) 3).

Definition bleed_spec (p : nat) (row : list Pixel) (cur : Pixel) : Pixel :=
  if (p =? 0)%nat then cur
  else
    let n := Nat.min 10 p in
    let w := window p row in
    mkPixel (bleed_channel red n w cur) (bleed_channel green n w cur)
            (bleed_channel blue n w cur).

(** The same with the arithmetic of the integers, for values that stay
    inside the range of [int]. *)
Definition bleed_channel_exact (ch : Pixel -> Z) (n : nat) (w : list Pixel) (cur : Pixel) : Z :=
  ch cur + Z.quot (Z.quot (channel_sum ch w) (Z.of_nat n) - ch cur) 3.

(** ** Frames *)

(** Two images of the same dimensions. *)
Definition same_shape (a b : Image.t) : Prop :=
  Image.length a = Image.length b /\
  Image.lines a = Image.lines b /\
  Image.linesize a = Image.linesize b /\
  map List.length (Image.pixels a) = map List.length (Image.pixels b).


(** The frame of a whole run of the reference. *)
Definition frame (st st' : State) : Prop :=
  same_shape (img st') (img st) /\ search st' = search st.

(** ** The transform of one column, on a row *)

(** What [transform l p] does to row [l], seen as a list: column [p] gets
    the bleed (in the words of the specification), then [Greyscale], then
    [XOR] with 13. *)
Definition row_step (p : nat) (row : list Pixel) : list Pixel :=
  <[p := XOR (Greyscale (bleed_spec p row (row !!! p))) 13]> row.

(** A row transformed from left to right. *)
Definition transform_row (row : list Pixel) : list Pixel :=
  for_loop (List.length row) 0 row_step row.

(** ** Row independence *)

(** The part of a schedule carried out before the iteration of row [r]. *)
Fixpoint before_row (r : nat) (sched : Schedule) : Schedule :=
  match sched with
  | [] => []
  | it :: rest => if (it.1 =? r)%nat then [] else it :: before_row r rest
  end.

(** The counts the iteration of row [l] finds on grid [im]: the [local]
    array it leaves behind when it starts from a zeroed one. *)
Definition row_counts (srch im : Image.t) (l : nat) : list Z :=
  locals (tc2_row_body 0 l
            (mkTeam (mkState im srch []) (calloc_locals 1 (Image.length srch))))
    !!! 0%nat.

(** The contribution of row [r] to the counters in a run of the row loop:
    what its iteration finds on the grid as it is when the iteration
    starts. *)
Definition row_contribution (sched : Schedule) (ts : TeamState) (r : nat) : list Z :=
  let at_start := tc2_rows (before_row r sched) ts in
  row_counts (search (shared ts)) (img (shared at_start)) r.

(** The effect of a search loop for pixel value [v] on the [local] arrays. *)
Definition local_hits (t : nat) (v : Pixel) (srch : Image.t) (ls : list (list Z))
    : list (list Z) :=
  for_range 0 (Image.length srch)
    (fun i ls => if pixel_match v (get_pixel srch 0 i) then bump_local t i ls else ls)
    ls.

(** One column of a row on thread [t], as a function of the row and of
    the [local] arrays alone. *)
Definition column_pass (t : nat) (srch : Image.t) (p : nat)
    (s : list Pixel * list (list Z)) : list Pixel * list (list Z) :=
  let ls := local_hits t (s.1 !!! p) srch s.2 in
  let row := row_step p s.1 in
  (row, local_hits t (row !!! p) srch ls).

Definition row_pass (t : nat) (srch : Image.t) (row : list Pixel) (ls : list (list Z))
    : list Pixel * list (list Z) :=
  for_loop (List.length row) 0 (column_pass t srch) (row, ls).

(** What an iteration of the row loop for row [l] leaves alone. *)
Definition row_frame (l : nat) (ts ts' : TeamState) : Prop :=
  same_shape (img (shared ts')) (img (shared ts)) /\
  search (shared ts') = search (shared ts) /\
  counter (shared ts') = counter (shared ts) /\
  forall l', l <> l' ->
    Image.pixels (img (shared ts')) !! l' = Image.pixels (img (shared ts)) !! l'.

(** Two grids of two rows of two pixels that share their second row. *)
Definition two_rows_a : Image.t :=
  of_rows 2 [[mkPixel 1 1 1; mkPixel 2 2 2]; [mkPixel 10 20 30; mkPixel 40 50 60]].

Definition two_rows_b : Image.t :=
  of_rows 2 [[mkPixel 9 9 9; mkPixel 25 25 25]; [mkPixel 10 20 30; mkPixel 40 50 60]].

(** A one-pixel grid and a search list that holds its pixel twice. *)
Definition twin_search : State :=
  mkState (one_line [mkPixel 10 20 30])
          (one_line [mkPixel 10 20 30; mkPixel 10 20 30]) [0; 0].

(** Two rows of [w] pixels [v]. *)
Definition uniform_rows (w : nat) (v : Pixel) : Image.t :=
  of_rows w [replicate w v; replicate w v].

(** Two rows of 1000 equal pixels and a search list that holds that pixel
    twice: the shape process-a gives to a stream of 2000 pixels. *)
Definition two_full_rows : State :=
  mkState (uniform_rows 1000 (mkPixel 1 2 3))
          (one_line [mkPixel 1 2 3; mkPixel 1 2 3]) [0; 0].

(** The shared counters after a worksharing merge of the arrays [ls]. *)
Definition merged_counter (ls : list (list Z)) (sched : Schedule) (c : list Z) : list Z :=
  foldl (fun c it => <[it.1 := ulong_add (c !!! it.1) ((ls !!! it.2) !!! it.1)]> c) c sched.

(** ** Counts of a search loop, as a function of the pixel tested *)

(** The effect on a counter array of a search loop that tests [v]. *)
Definition hits (v : Pixel) (srch : Image.t) (c : list Z) : list Z :=
  for_range 0 (Image.length srch)
    (fun i c => if pixel_match v (get_pixel srch 0 i) then bump i c else c)
    c.

(** One column of a row: pre-search, transform, post-search, as a
    function of the row and of the counter array alone. *)
Definition column_counts (srch : Image.t) (p : nat) (s : list Pixel * list Z)
    : list Pixel * list Z :=
  let c := hits (s.1 !!! p) srch s.2 in
  let row := row_step p s.1 in
  (row, hits (row !!! p) srch c).

Definition row_counts_from (srch : Image.t) (row : list Pixel) (c : list Z)
    : list Pixel * list Z :=
  for_loop (List.length row) 0 (column_counts srch) (row, c).

(** A search list none of whose entries can equal a grey pixel. *)
Definition no_grey_entry (srch : Image.t) : Prop :=
  forall (i : nat) (g : Z),
    (i < Image.length srch)%nat ->
    pixel_match (mkPixel g g g) (get_pixel srch 0 i) = false.

(** What an iteration of the row loop of process-a_tc3 for row [l] leaves
    alone. *)
Definition state_row_frame (l : nat) (st st' : State) : Prop :=
  same_shape (img st') (img st) /\
  search st' = search st /\
  forall l', l <> l' -> Image.pixels (img st') !! l' = Image.pixels (img st) !! l'.

(** ** Tiles *)


(** The indices the inner loop of tile [tb] scans, in order. *)
Definition tile_range (TILE_I len tb : nat) : list nat :=
  let start := (tb * TILE_I)%nat in
  let end_ := (start + TILE_I)%nat in
  let end_ := if (len <? end_)%nat then len else end_ in
  seq start (end_ - start).

(** A counter array as [calloc] and [counter[i]++] leave it. *)
Definition counters_ok (n : nat) (c : list Z) : Prop :=
  List.length c = n /\ Forall (fun x => 0 <= x < 2 ^ 64) c.

(** A team of one thread that mirrors a state of the reference: the
    shared counters still zero, the counts in the [local] of thread 0. *)
Definition mirrors (n : nat) (ts : TeamState) (st : State) : Prop :=
  img (shared ts) = img st /\ search (shared ts) = search st /\
  counter (shared ts) = replicate n 0 /\ locals ts = [counter st].

(** ** Thread-local counts that add up *)

(** The sum over the threads of cell [j] of their [local] arrays. *)
Definition cell_total (ls : list (list Z)) (j : nat) : Z :=
  foldr (fun l acc => l !!! j + acc) 0 ls.

(** The same sum over the threads listed in [order]. *)
Definition order_total (ls : list (list Z)) (order : list nat) (j : nat) : Z :=
  foldr (fun t acc => (ls !!! t) !!! j + acc) 0 order.

(** A team whose [local] arrays, added to the initial counters [c0], give
    the counters of a state of the atomic variant. *)
Definition adds_up (n T : nat) (c0 : list Z) (ts : TeamState) (st : State) : Prop :=
  img (shared ts) = img st /\ search (shared ts) = search st /\
  counter (shared ts) = c0 /\
  List.length (locals ts) = T /\
  Forall (fun l => List.length l = n) (locals ts) /\
  List.length (counter st) = n /\
  Image.length (search st) = n /\
  forall j, (j < n)%nat ->
    counter st !!! j = wrap64 (c0 !!! j + cell_total (locals ts) j).

(** ** What [LoadFile] leaves in the image *)

(** All allocations for image [which] succeed. *)
Definition allocations_succeed (env : Env) (which : ImageId) : Prop :=
  malloc_null env (LinePointers which) = false /\
  forall l, malloc_null env (Line which l) = false.

(** The pixel at line [l], position [p] after loading the stream [data]
    with lines of [w] pixels: the pixel of the stream in row-major order
    and, past its end, what the heap held. *)
Definition loaded_pixel (env : Env) (which : ImageId) (data : list Pixel) (w l p : nat)
    : Pixel :=
  match data !! (l * w + p)%nat with
  | Some x => x
  | None => heap_junk env (Line which l) p
  end.

(** A row whose positions from [lo] on are overwritten by the stream [s],
    as far as the stream goes. *)
Definition fill (s : list Pixel) (lo : nat) (row : list Pixel) : list Pixel :=
  imap (fun p old => if (lo <=? p)%nat then default old (s !! (p - lo)%nat) else old) row.

(** ** process-b_tc1.c: a parallel loop for each search *)

(** The loop over [p] of process-b_tc1.c.  Each search is a
    [#pragma omp parallel for schedule(runtime)] of its own; the iterations
    read the shared pixel [img.pixels[0][p]], which no iteration writes,
    and increment the counters atomically.  The transform between the two
    searches runs on the initial thread. *)
Definition tc1_pixel_body (rt : Runtime) (p : nat) (st : State) : State :=
  let n := Image.length (search st) in
  let st := omp_for (for_schedule rt (2 * p) n) (fun _ i st => search_body 0 p i st) st in
  let st := transform_guarded_state 0 p st in
  omp_for (for_schedule rt (2 * p + 1) n) (fun _ i st => search_body 0 p i st) st.

Definition process_b_tc1 (rt : Runtime) (st : State) : State :=
  for_range 0 (Image.linesize (img st)) (tc1_pixel_body rt) st.

(** ** process-b_tc3.c: phased cycle, thread-local counters *)

(** Lines 75-84 and 133-142: iteration [i] on thread [t], which tests its
    own copy of the scalars and counts in its own [local]. *)
Definition tc3_search_body (priv : Private) (t i : nat) (ts : TeamState) : TeamState :=
  if pixel_match (priv t) (get_pixel (search (shared ts)) 0 i)
  then mkTeam (shared ts) (bump_local t i (locals ts))
  else ts.

(** Lines 62-146. *)
Definition tc3_pixel_cycle (rt : Runtime) (p : nat) (ts : TeamState) : TeamState :=
  let n := Image.length (search (shared ts)) in
  let s0 := single_assign (single_thread rt (3 * p)) (get_pixel (img (shared ts)) 0 p)
              (indeterminate rt (2 * p)) in
  let ts := omp_for (for_schedule rt (2 * p) n) (tc3_search_body s0) ts in
  let st := shared ts in
  let ts := mkTeam (mkState (transform_guarded 0 p (img st)) (search st) (counter st))
                   (locals ts) in
  let s1 := single_assign (single_thread rt (3 * p + 2)) (get_pixel (img (shared ts)) 0 p)
              (indeterminate rt (2 * p + 1)) in
  omp_for (for_schedule rt (2 * p + 1) n) (tc3_search_body s1) ts.

(** Lines 54-156, in a team whose threads all received their zeroed
    [local] from [calloc] (line 56).  The test of the pointer (lines
    57-60) is in [region_b_tc3] below. *)
Definition process_b_tc3 (rt : Runtime) (st : State) : State :=
  let ts := mkTeam st (calloc_locals (nthreads rt) (Image.length (search st))) in
  let ts := for_range 0 (Image.linesize (img st)) (tc3_pixel_cycle rt) ts in
  shared (foldl (fun ts t => merge_all t ts) ts (critical_order rt)).

(** Lines 54-156 of process-b_tc3.c, from the allocation of [local] in
    every thread (lines 56-60):
    [if (!local) { #pragma omp critical { FatalError(msg); } }].  The
    first failing thread to enter the critical region prints the message
    and ends the run; no other thread can enter the region after it, and
    the threads that hold a [local] wait for it at the next barrier. *)
Definition region_b_tc3 (env : Env) (rt : Runtime) (st : State) : Run State :=
  match failing_threads env (nthreads rt) with
  | [] => mret (process_b_tc3 rt st)
  | _ => FatalError "calloc failed for local counters"
  end.

(** Lines 58-174 of process-b_tc4.c, from the allocation of [local] in
    every thread (lines 61-65), with the same test inside a critical
    region. *)
Definition region_b_tc4 (TILE_I : nat) (env : Env) (rt : Runtime) (st : State)
    : Run State :=
  match failing_threads env (nthreads rt) with
  | [] => mret (process_b_tc4 TILE_I rt st)
  | _ => FatalError "calloc failed for local counters"
  end.

(** ** process-a_tc4.c: one task for each row *)

(** Lines 48-110: the task of row [l], once [calloc] has given it a
    zeroed [local] of its own (line 50).  It processes the row left to
    right with the counts going to [local], and adds every cell of
    [local] to the shared counters with an atomic update.  The test of
    the pointer (line 51) is in [region_a_tc4] below. *)
Definition tc4_task (l : nat) (st : State) : State :=
  let ts := mkTeam st (calloc_locals 1 (Image.length (search st))) in
  shared (merge_all 0 (tc2_row_body 0 l ts)).

(** Lines 42-114, when every task received its [local].  The tasks are
    created in the order of the rows and carried out by the threads of
    the team in an order of the runtime's choosing: [for_schedule rt 0]
    lists the rows in that order.  Tasks of different rows touch
    different rows of the grid, and their updates of the counters are
    atomic additions. *)
Definition process_a_tc4 (rt : Runtime) (st : State) : State :=
  omp_for (for_schedule rt 0 (Image.lines (img st))) (fun _ l st => tc4_task l st) st.

(** The rows of a grid of [lines] rows whose task is refused its [local]
    by [calloc]. *)
Definition failing_tasks (env : Env) (lines : nat) : list nat :=
  List.filter (fun l => malloc_null env (TaskCounters l)) (seq 0 lines).

(** Lines 42-114 of process-a_tc4.c, with the test of line 51 in every
    task.  A team of one thread carries out the tasks one after the
    other, so the first task without [local] ends the run; in a larger
    team two failing tasks may be carried out at the same time. *)
Definition region_a_tc4 (env : Env) (rt : Runtime) (st : State) : Run State :=
  match failing_tasks env (Image.lines (img st)) with
  | [] => mret (process_a_tc4 rt st)
  | callers =>
      if (nthreads rt <=? 1)%nat then FatalError "calloc failed for local counter"
      else unguarded_abort callers "calloc failed for local counter"
  end.

(** ** The increments of a run, as a list *)

(** The search indices a search loop for pixel [v] increments, in order. *)
Definition hit_indices (v : Pixel) (srch : Image.t) : list nat :=
  List.filter (fun i => pixel_match v (get_pixel srch 0 i)) (seq 0 (Image.length srch)).

(** The increments of one row: for each column the pre-search of the
    original pixel and the post-search of the transformed one. *)
Definition row_trace (srch : Image.t) (row : list Pixel) : list nat :=
  seq 0 (List.length row) ≫=
    (fun p => hit_indices (row !!! p) srch ++ hit_indices (transform_row row !!! p) srch).

(** [counter[i]++] for every [i] of a list. *)
Definition bump_all (c : list Z) (l : list nat) : list Z :=
  foldl (fun c i => bump i c) c l.

(** The number of pixels of [l] that equal the search pixel [s]. *)
Definition matches (s : Pixel) (l : list Pixel) : nat :=
  List.length (List.filter (fun x => pixel_match x s) l).

(** The count the reference reports for search pixel [s] on a grid of one
    row: the matches before and after the transform. *)
Definition expected_count (s : Pixel) (row : list Pixel) : Z :=
  wrap64 (Z.of_nat (matches s row + matches s (transform_row row))).

(** The grid and the counters after a row-parallel run, whatever the
    schedule. *)
Definition rows_result (st : State) : State :=
  mkState (Image.mk (Image.length (img st)) (Image.lines (img st)) (Image.linesize (img st))
             (map transform_row (Image.pixels (img st))))
          (search st)
          (bump_all (counter st) (Image.pixels (img st) ≫= row_trace (search st))).

(** The count a row-parallel run reports for search pixel [s]: the pixels
    of the whole grid that equal [s] before the transform and after it. *)
Definition grid_count (s : Pixel) (rows : list (list Pixel)) : Z :=
  wrap64 (Z.of_nat (matches s (concat rows) + matches s (concat (map transform_row rows)))).

(** Two rows of two pixels and a search list of two pixels. *)
Definition two_rows_state : State :=
  mkState two_rows_a (one_line [mkPixel 10 20 30; mkPixel 1 1 1]) [0; 0].

(** [main] of process-a_tc4.c: the same frame as process-a_tc2.c around
    the task-per-row region. *)
Definition main_a_tc4 (rt : Runtime) (env : Env) (av : list string) : Run Output :=
  main_a_region (region_a_tc4 env rt) env av.

(** ** Pixels of an 8-bit image *)

(** Every channel is a value of one byte. *)
Definition byte_pixel (x : Pixel) : Prop :=
  0 <= red x <= 255 /\ 0 <= green x <= 255 /\ 0 <= blue x <= 255.

(** The three channels are equal. *)
Definition grey_pixel (x : Pixel) : Prop := red x = green x /\ green x = blue x.

(** ** rawimage.h: PrintRGBValue *)

(** Lines 111-116: what [PrintRGBValue] sends to standard output, [%d]
    being the decimal numeral with a minus sign for a negative value. *)
Definition PrintRGBValue (value : Z) : string :=
  String.append (if value <? 100 then " "%string else EmptyString)
    (String.append (if value <? 10 then " "%string else EmptyString)
       (NilZero.string_of_int (Z.to_int value))).

(** Lines 127-133 of [PrintImage], and the report lines of the [main]
    functions up to the count: a pixel between parentheses. *)
Definition print_pixel (x : Pixel) : string :=
  String.append "("
    (String.append (PrintRGBValue (red x))
       (String.append ","
          (String.append (PrintRGBValue (green x))
             (String.append ","
                (String.append (PrintRGBValue (blue x)) ")"))))).

(** ** The [main] functions of the variants of process-b *)

(** [main] of process-b_tc1.c to process-b_tc4.c: the four files share
    the argument test, the loading, the checked allocation of the
    counters, the saving and the report, around their own processing.
    The processing of process-b_tc1.c and process-b_tc2.c allocates
    nothing and cannot end the run. *)
Definition main_b_variant (process : State -> State) (env : Env) (av : list string)
    : Run Output :=
  st0 ← setup_b_tc3 env av;
  let st := process st0 in
  written ← WriteFile env (av !! 2%nat) (img st);
  mret (mkOutput written (search_report st)).

Definition main_b_tc1 (rt : Runtime) : Env -> list string -> Run Output :=
  main_b_variant (process_b_tc1 rt).


(** [main] of process-b_tc3.c and process-b_tc4.c, whose parallel region
    ends the run when a [calloc] of [local] fails. *)
Definition main_b_region (region : State -> Run State) (env : Env) (av : list string)
    : Run Output :=
  st0 ← setup_b_tc3 env av;
  st ← region st0;
  written ← WriteFile env (av !! 2%nat) (img st);
  mret (mkOutput written (search_report st)).

Definition main_b_tc3 (rt : Runtime) (env : Env) (av : list string) : Run Output :=
  main_b_region (region_b_tc3 env rt) env av.

Definition main_b_tc4 (TILE_I : nat) (rt : Runtime) (env : Env) (av : list string)
    : Run Output :=
  main_b_region (region_b_tc4 TILE_I env rt) env av.

(** ** Two grids that share a row *)



(** ** An environment with failing allocations *)

(** [simple_env] with the allocations that return [NULL] given by
    [null]; recycled heap memory holds zeros. *)
Definition failing_env (grid srch : list Pixel) (null : AllocSite -> bool) : Env :=
  mkEnv (fun name => if String.eqb name "in" then Some grid
                     else if String.eqb name "search" then Some srch
                     else None)
        (fun _ => true)
        null
        (fun _ _ => zero_pixel)
        (fun _ => 0).

(** The [calloc] of [local] fails in thread 1 and in the task of row 0. *)
Definition one_local_null (site : AllocSite) : bool :=
  match site with
  | LocalCounters 1 => true
  | TaskCounters 0 => true
  | _ => false
  end.

(** * Properties *)

(** ** Loops *)

Lemma for_loop_foldl {St : Type} (n lo : nat) (body : nat -> St -> St) (s : St) :
  for_loop n lo body s = foldl (fun s i => body i s) s (seq lo n).
Proof.
  revert lo s. induction n as [|n IH]; intros lo s; simpl; [reflexivity|].
  apply IH.
Qed.

Lemma for_loop_snoc {St : Type} (n lo : nat) (body : nat -> St -> St) (s : St) :
  for_loop (S n) lo body s = body (lo + n)%nat (for_loop n lo body s).
Proof.
  revert lo s. induction n as [|n IH]; intros lo s.
  - simpl. by rewrite Nat.add_0_r.
  - change (for_loop (S (S n)) lo body s) with (for_loop (S n) (S lo) body (body lo s)).
    rewrite IH. simpl. do 2 f_equal. lia.
Qed.

Lemma for_loop_inv {St : Type} (P : St -> Prop) (n lo : nat) (body : nat -> St -> St)
    (s : St) :
  P s ->
  (forall i s', (lo <= i < lo + n)%nat -> P s' -> P (body i s')) ->
  P (for_loop n lo body s).
Proof.
  revert lo s. induction n as [|n IH]; intros lo s Hs Hbody; simpl; [done|].
  apply IH.
  - apply Hbody; [lia | done].
  - intros i s' Hi. apply Hbody. lia.
Qed.

Lemma for_loop_ext {St : Type} (n lo : nat) (f g : nat -> St -> St) (s : St) :
  (forall i s', (lo <= i < lo + n)%nat -> f i s' = g i s') ->
  for_loop n lo f s = for_loop n lo g s.
Proof.
  revert lo s. induction n as [|n IH]; intros lo s H; simpl; [done|].
  rewrite H by lia. apply IH. intros i s' Hi. apply H. lia.
Qed.

Lemma for_range_inv {St : Type} (P : St -> Prop) (lo hi : nat) (body : nat -> St -> St)
    (s : St) :
  P s ->
  (forall i s', (lo <= i < hi)%nat -> P s' -> P (body i s')) ->
  P (for_range lo hi body s).
Proof.
  intros Hs Hbody. unfold for_range. apply for_loop_inv; [done|].
  intros i s' Hi. apply Hbody. lia.
Qed.

(** ** Pixels of an image *)

Lemma same_shape_refl (a : Image.t) : same_shape a a.
Proof. by repeat split. Qed.

Lemma same_shape_trans (a b c : Image.t) :
  same_shape a b -> same_shape b c -> same_shape a c.
Proof.
  intros (? & ? & ? & ?) (? & ? & ? & ?). repeat split; congruence.
Qed.

Lemma set_pixel_same_shape (im : Image.t) (l p : nat) (x : Pixel) :
  same_shape (set_pixel im l p x) im.
Proof.
  repeat split; simpl.
  destruct (decide (l < List.length (Image.pixels im))%nat) as [Hl|Hl].
  - destruct (lookup_lt_is_Some_2 _ _ Hl) as [row Hrow].
    rewrite list_fmap_insert, length_insert.
    rewrite (list_lookup_total_correct _ _ _ Hrow).
    apply list_insert_id. by rewrite list_lookup_fmap, Hrow.
  - by rewrite list_insert_ge by lia.
Qed.

Lemma bleed_same_shape (l p : nat) (im : Image.t) : same_shape (bleed l p im) im.
Proof.
  unfold bleed. destruct (0 <? p)%nat; [|apply same_shape_refl].
  destruct (bleed_window p). apply set_pixel_same_shape.
Qed.

Lemma transform_same_shape (l p : nat) (im : Image.t) :
  same_shape (transform l p im) im.
Proof.
  unfold transform.
  eapply same_shape_trans; [apply set_pixel_same_shape|].
  eapply same_shape_trans; [apply set_pixel_same_shape|].
  apply bleed_same_shape.
Qed.

(** ** The search loops leave the images alone *)

Lemma search_body_frame (l p i : nat) (st : State) :
  img (search_body l p i st) = img st /\ search (search_body l p i st) = search st.
Proof. unfold search_body. by destruct (pixel_match _ _). Qed.

Lemma search_loop_frame (l p : nat) (st : State) :
  img (search_loop l p st) = img st /\ search (search_loop l p st) = search st.
Proof.
  unfold search_loop. generalize (Image.length (search st)) as n. intros n.
  apply (for_range_inv (fun s => img s = img st /\ search s = search st)); [done|].
  intros i s' _ [Hi Hs]. destruct (search_body_frame l p i s') as [-> ->]. done.
Qed.

Lemma pixel_body_frame (p : nat) (st : State) : frame st (pixel_body p st).
Proof.
  unfold pixel_body, frame.
  destruct (search_loop_frame 0 p (transform_state 0 p (search_loop 0 p st))) as [-> ->].
  simpl. destruct (search_loop_frame 0 p st) as [-> ->].
  split; [apply transform_same_shape | done].
Qed.

Lemma process_b_frame (st : State) : frame st (process_b st).
Proof.
  unfold process_b. apply for_range_inv.
  - split; [apply same_shape_refl | done].
  - intros p s' _ [Hs Hq]. destruct (pixel_body_frame p s') as [Hs' Hq'].
    split; [eapply same_shape_trans; eassumption | congruence].
Qed.

(** C9: the transform/search pass of process-b changes pixel values only:
    the fields [length], [lines] and [linesize] of the grid and the number
    and the lengths of its rows are those of the loaded grid, and the
    search image is the loaded search image, with every pixel as it was. *)
Theorem process_b_preserves_shape_and_search (st : State) :
  Image.length (img (process_b st)) = Image.length (img st) /\
  Image.lines (img (process_b st)) = Image.lines (img st) /\
  Image.linesize (img (process_b st)) = Image.linesize (img st) /\
  map List.length (Image.pixels (img (process_b st)))
    = map List.length (Image.pixels (img st)) /\
  search (process_b st) = search st.
Proof.
  destruct (process_b_frame st) as [(? & ? & ? & ?) ?]. done.
Qed.

(** ** The scenario of the specification *)

(** C3: the first column of the three-pixel scenario.  The pre-search
    raises the one counter to 1, the bleed leaves the grid as it is,
    [Greyscale] gives (20,20,20), [XOR] with 13 gives (25,25,25), and the
    post-search finds no match, so the counter is 1 after [p = 0]; the
    rest of the run continues from that state. *)
Theorem scenario_first_column :
  let st1 := search_loop 0 0 scenario in
  let st2 := transform_state 0 0 st1 in
  let st3 := search_loop 0 0 st2 in
  counter st1 = [1] /\
  bleed 0 0 (img st1) = img st1 /\
  Greyscale (get_pixel (bleed 0 0 (img st1)) 0 0) = mkPixel 20 20 20 /\
  XOR (mkPixel 20 20 20) 13 = mkPixel 25 25 25 /\
  get_pixel (img st2) 0 0 = mkPixel 25 25 25 /\
  counter st3 = [1] /\
  pixel_body 0 scenario = st3 /\
  process_b scenario = for_range 1 3 pixel_body st3.
Proof. vm_compute. repeat split. Qed.

(** ** Command line and allocation of process-b *)

Lemma main_b_usage (env : Env) (av : list string) :
  (List.length av < 3)%nat -> main_b env av = ([Stderr usage], Fatal usage).
Proof.
  intros H. unfold main_b. apply Nat.ltb_lt in H. by rewrite H.
Qed.

Lemma bind_emit {A : Type} (e : Event) (k : unit -> Run A) :
  (emit e ≫= k) = (e :: (k tt).1, (k tt).2).
Proof.
  unfold mbind, Run_bind, bind, emit. by destruct (k tt).
Qed.

Lemma bind_first_event {A B : Type} (m : Run A) (k : A -> Run B) (e : Event)
    (tr : list Event) (r : Result A) :
  m = (e :: tr, r) -> exists tr' r', (m ≫= k) = (e :: tr', r').
Proof.
  intros ->. unfold mbind, Run_bind, bind. destruct r; eauto.
  destruct (k a). simpl. eauto.
Qed.

Lemma LoadFile_first_event (env : Env) (which : ImageId) (name : option string)
    (linesize : nat) :
  exists tr r, LoadFile env which name linesize = (FopenRead name :: tr, r).
Proof. unfold LoadFile. rewrite bind_emit. eauto. Qed.

(** With exactly two user arguments the usage test of process-b.c lets
    the run through: the first thing it does is to open the input file. *)
Lemma main_b_two_arguments (env : Env) (av : list string) :
  List.length av = 3%nat ->
  exists tr r, main_b env av = (FopenRead (av !! 1%nat) :: tr, r).
Proof.
  intros H. unfold main_b. rewrite H. simpl.
  destruct (LoadFile_first_event env GridImage (av !! 1%nat) 0) as (tr & r & E).
  eapply bind_first_event. exact E.
Qed.

(** C7 (the code departs from the claim): process-b.c tests [ac < 3], so a
    command line with two file names passes the test; the run opens and
    loads the input file and only fails when it opens the missing third
    name, with the message of [LoadFile] and not the usage message. *)
Theorem main_b_accepts_two_arguments :
  main_b (simple_env [mkPixel 1 2 3] [mkPixel 1 2 3] false zero_pixel)
         ["process-b"; "in"; "out"]%string
  = ([FopenRead (Some "in"%string); FopenRead None;
      Stderr "Cannot open file for reading"],
     Fatal "Cannot open file for reading").
Proof. vm_compute. reflexivity. Qed.

Lemma alloc_counter_unchecked_null (env : Env) (n : nat) :
  malloc_null env Counters = true -> (0 < n)%nat ->
  alloc_counter_unchecked env n = ([], Undefined "store through a null pointer").
Proof.
  intros H Hn. unfold alloc_counter_unchecked. rewrite H.
  apply Nat.ltb_lt in Hn. by rewrite Hn.
Qed.

Lemma alloc_counter_checked_null (env : Env) (n : nat) :
  malloc_null env Counters = true ->
  alloc_counter_checked env n = FatalError "malloc failed for counter".
Proof. intros H. unfold alloc_counter_checked. by rewrite H. Qed.

(** C8 (the code departs from the claim): when the allocation of the
    counters returns [NULL], process-b.c goes on to the zeroing loop and
    stores through the null pointer, with no diagnostic; the same failure
    in process-b_tc3.c ends in [FatalError]. *)
Theorem main_b_null_counter_unchecked :
  let env := simple_env [mkPixel 1 2 3] [mkPixel 1 2 3] true zero_pixel in
  let av := ["process-b"; "in"; "out"; "search"]%string in
  main_b env av
  = ([FopenRead (Some "in"%string); FopenRead (Some "search"%string)],
     Undefined "store through a null pointer") /\
  setup_b_tc3 env av
  = ([FopenRead (Some "in"%string); FopenRead (Some "search"%string);
      Stderr "malloc failed for counter"],
     Fatal "malloc failed for counter").
Proof. vm_compute. split; reflexivity. Qed.

(** ** Loading with padding *)

Lemma image_shape_padded (length linesize : nat) :
  (0 < linesize)%nat ->
  let '(lines, padded, width) := image_shape length linesize in
  width = linesize /\ padded = (lines * linesize)%nat /\
  (length <= padded < length + linesize)%nat.
Proof.
  intros H. unfold image_shape.
  destruct (Nat.eqb_spec linesize 0) as [->|_]; [lia|].
  pose proof (Nat.div_mod_eq length linesize) as E.
  pose proof (Nat.mod_upper_bound length linesize ltac:(lia)) as B.
  destruct (Nat.ltb_spec 0 (length - length / linesize * linesize)); nia.
Qed.

Lemma file_contents_length (im : Image.t) :
  List.length (file_contents im) = (Image.lines im * Image.linesize im)%nat.
Proof.
  unfold file_contents, for_range. rewrite !Nat.sub_0_r.
  generalize (Image.linesize im) as w. intros w.
  cut (forall n lo (out : list Pixel),
         List.length (for_loop n lo
           (fun l => for_loop w 0 (fun p out => out ++ [get_pixel im l p])) out)
         = (List.length out + n * w)%nat).
  { intros H. rewrite H. simpl. lia. }
  assert (Hrow : forall l n lo (out : list Pixel),
            List.length (for_loop n lo (fun p out => out ++ [get_pixel im l p]) out)
            = (List.length out + n)%nat).
  { intros l n. induction n as [|n IH]; intros lo out; simpl; [lia|].
    rewrite IH, length_app. simpl. lia. }
  intros n. induction n as [|n IH]; intros lo out; simpl; [lia|].
  rewrite IH, Hrow. lia.
Qed.

(** C10 (the code departs from the claim): the local [counter] of
    [LoadFile] is never advanced, so the zero-filling branch is not taken
    for the padding pixels; they keep what [malloc] handed out.  A stream
    of one pixel loaded with line size 1000 gives one line of 1000 pixels
    whose last 999 hold the junk of the heap and not (0,0,0); the
    pre-search of process-a_tc2 at such a pixel finds no match with the
    search entry (0,0,0).  The line is written out in full. *)
Theorem padding_keeps_heap_junk :
  let env := simple_env [mkPixel 5 5 5] [zero_pixel] false (mkPixel 7 7 7) in
  let im := Image.mk 1000 1 1000 [mkPixel 5 5 5 :: replicate 999 (mkPixel 7 7 7)] in
  LoadFile env GridImage (Some "in"%string) 1000
  = ([FopenRead (Some "in"%string)], Ok im) /\
  get_pixel im 0 999 = mkPixel 7 7 7 /\
  locals (local_search_loop 0 0 999
            (mkTeam (mkState im (one_line [zero_pixel]) [0]) (calloc_locals 1 1)))
  = [[0]] /\
  List.length (file_contents im) = 1000%nat.
Proof.
  split; [vm_compute; reflexivity|].
  split; [vm_compute; reflexivity|].
  split; [vm_compute; reflexivity|].
  apply file_contents_length.
Qed.

(** ** Machine arithmetic *)

Lemma wrap32_add_l (x y : Z) : wrap32 (wrap32 x + y) = wrap32 (x + y).
Proof.
  unfold wrap32. f_equal.
  replace ((x + 2 ^ 31) mod 2 ^ 32 - 2 ^ 31 + y + 2 ^ 31)
    with ((x + 2 ^ 31) mod 2 ^ 32 + y) by lia.
  rewrite Zplus_mod_idemp_l. f_equal. lia.
Qed.

Lemma wrap32_id (z : Z) : - 2 ^ 31 <= z < 2 ^ 31 -> wrap32 z = z.
Proof.
  intros H. unfold wrap32. rewrite Z.mod_small; lia.
Qed.

Lemma wrap32_range (z : Z) : - 2 ^ 31 <= wrap32 z < 2 ^ 31.
Proof.
  unfold wrap32. pose proof (Z.mod_pos_bound (z + 2 ^ 31) (2 ^ 32) ltac:(lia)). lia.
Qed.

Lemma wrap32_idem (z : Z) : wrap32 (wrap32 z) = wrap32 z.
Proof. apply wrap32_id, wrap32_range. Qed.

(** ** Rows of an image *)

Lemma get_pixel_row (im : Image.t) (l i : nat) (row : list Pixel) :
  Image.pixels im !! l = Some row -> get_pixel im l i = row !!! i.
Proof.
  intros H. unfold get_pixel. by rewrite (list_lookup_total_correct _ _ _ H).
Qed.

Lemma set_pixel_row (im : Image.t) (l p : nat) (x : Pixel) (row : list Pixel) :
  Image.pixels im !! l = Some row ->
  Image.pixels (set_pixel im l p x) !! l = Some (<[p := x]> row).
Proof.
  intros H. simpl. rewrite (list_lookup_total_correct _ _ _ H).
  apply list_lookup_insert_eq. by eapply lookup_lt_Some.
Qed.

Lemma set_pixel_other_row (im : Image.t) (l l' p : nat) (x : Pixel) :
  l <> l' -> Image.pixels (set_pixel im l p x) !! l' = Image.pixels im !! l'.
Proof. intros H. simpl. by apply list_lookup_insert_ne. Qed.

(** ** The averaging loop *)

Lemma sum_loop (im : Image.t) (l : nat) (row : list Pixel) (n lo : nat) (a b c : Z) :
  Image.pixels im !! l = Some row ->
  (lo + n <= List.length row)%nat ->
  wrap32 a = a -> wrap32 b = b -> wrap32 c = c ->
  for_loop n lo (sum_step im l) (a, b, c)
  = (wrap32 (a + channel_sum red (take n (drop lo row))),
     wrap32 (b + channel_sum green (take n (drop lo row))),
     wrap32 (c + channel_sum blue (take n (drop lo row)))).
Proof.
  intros Hrow. revert lo a b c.
  induction n as [|n IH]; intros lo a b c Hlen Ha Hb Hc.
  - simpl. rewrite !Z.add_0_r. congruence.
  - destruct (lookup_lt_is_Some_2 row lo ltac:(lia)) as [x Hx].
    rewrite (drop_S _ _ _ Hx). simpl.
    rewrite (get_pixel_row _ _ _ _ Hrow), (list_lookup_total_correct _ _ _ Hx).
    unfold int_add. rewrite IH by (apply wrap32_idem || lia).
    rewrite !wrap32_add_l. f_equal; [f_equal|]; f_equal; lia.
Qed.

Lemma bleed_window_min (p : nat) :
  bleed_window p = ((p - Nat.min 10 p)%nat, Nat.min 10 p).
Proof.
  unfold bleed_window. destruct (Nat.ltb_spec 10 p).
  - by rewrite Nat.min_l by lia.
  - rewrite Nat.min_r by lia. f_equal. lia.
Qed.

(** The pixel the code's bleed computes is the one the specification
    describes. *)
Lemma wrap32_add_r (x y : Z) : wrap32 (x + wrap32 y) = wrap32 (x + y).
Proof. rewrite Z.add_comm, wrap32_add_l. f_equal. lia. Qed.

Lemma wrap32_sub_l (x y : Z) : wrap32 (wrap32 x - y) = wrap32 (x - y).
Proof. unfold Z.sub. apply wrap32_add_l. Qed.

Lemma quot_range (s d : Z) :
  - 2 ^ 31 <= s < 2 ^ 31 -> 1 <= d -> - 2 ^ 31 <= Z.quot s d < 2 ^ 31.
Proof.
  intros Hs Hd.
  destruct (Z.le_gt_cases 0 s) as [H0|H0].
  - pose proof (Z.quot_pos s d ltac:(lia) ltac:(lia)).
    pose proof (Z.quot_le_upper_bound s d s ltac:(lia) ltac:(nia)). lia.
  - replace s with (- (- s)) by lia. rewrite Z.quot_opp_l by lia.
    pose proof (Z.quot_pos (- s) d ltac:(lia) ltac:(lia)).
    pose proof (Z.quot_le_upper_bound (- s) d (- s) ltac:(lia) ltac:(nia)). lia.
Qed.

Lemma wrap32_quot (z d : Z) : 1 <= d -> wrap32 (Z.quot (wrap32 z) d) = Z.quot (wrap32 z) d.
Proof.
  intros Hd. apply wrap32_id, quot_range; [apply wrap32_range | done].
Qed.

(** The pixel the code's bleed computes is the one the specification
    describes. *)
Lemma bleed_row (im : Image.t) (l p : nat) (row : list Pixel) :
  Image.pixels im !! l = Some row ->
  (p < List.length row)%nat ->
  Image.pixels (bleed l p im) !! l = Some (<[p := bleed_spec p row (row !!! p)]> row).
Proof.
  intros Hrow Hp. unfold bleed, bleed_spec.
  destruct (Nat.eqb_spec p 0) as [->|Hp0].
  - simpl. rewrite Hrow. f_equal. symmetry. apply list_insert_id.
    by apply list_lookup_lookup_total_lt.
  - replace (0 <? p)%nat with true by (symmetry; apply Nat.ltb_lt; lia).
    rewrite bleed_window_min. unfold for_range.
    replace (p - (p - Nat.min 10 p))%nat with (Nat.min 10 p) by lia.
    rewrite (sum_loop im l row) by (done || lia).
    rewrite (set_pixel_row _ _ _ _ _ Hrow). f_equal. f_equal.
    rewrite (get_pixel_row _ _ _ _ Hrow).
    unfold blend, bleed_channel, window, int_add, int_sub, int_div.
    rewrite !Z.add_0_l.
    rewrite !(wrap32_quot _ (Z.of_nat (Nat.min 10 p))) by lia.
    rewrite !(wrap32_quot _ 3) by lia.
    reflexivity.
Qed.

Lemma bleed_other_row (l l' p : nat) (im : Image.t) :
  l <> l' -> Image.pixels (bleed l p im) !! l' = Image.pixels im !! l'.
Proof.
  intros H. unfold bleed. destruct (0 <? p)%nat; [|done].
  destruct (bleed_window p). by apply set_pixel_other_row.
Qed.

(** The guard [if (pixlen > 0)] of the OpenMP variants is always passed. *)
Lemma bleed_guarded_eq (l p : nat) (im : Image.t) : bleed_guarded l p im = bleed l p im.
Proof.
  unfold bleed_guarded, bleed. destruct (Nat.ltb_spec 0 p) as [Hp|Hp]; [|done].
  rewrite bleed_window_min.
  by replace (0 <? Nat.min 10 p)%nat with true by (symmetry; apply Nat.ltb_lt; lia).
Qed.

Lemma transform_guarded_eq (l p : nat) (im : Image.t) :
  transform_guarded l p im = transform l p im.
Proof. unfold transform_guarded, transform. by rewrite bleed_guarded_eq. Qed.

Lemma transform_row_step (im : Image.t) (l p : nat) (row : list Pixel) :
  Image.pixels im !! l = Some row ->
  (p < List.length row)%nat ->
  Image.pixels (transform l p im) !! l = Some (row_step p row).
Proof.
  intros Hrow Hp. unfold transform, row_step.
  pose proof (bleed_row im l p row Hrow Hp) as H1.
  pose proof (set_pixel_row _ l p (Greyscale (get_pixel (bleed l p im) l p)) _ H1) as H2.
  rewrite (set_pixel_row _ _ _ _ _ H2).
  rewrite (get_pixel_row _ _ _ _ H2), (get_pixel_row _ _ _ _ H1).
  rewrite !list_lookup_total_insert_eq by (by rewrite ?length_insert).
  by rewrite !list_insert_insert_eq.
Qed.

Lemma transform_other_row (l l' p : nat) (im : Image.t) :
  l <> l' -> Image.pixels (transform l p im) !! l' = Image.pixels im !! l'.
Proof.
  intros H. unfold transform.
  rewrite !set_pixel_other_row by done. by apply bleed_other_row.
Qed.

(** ** A row transformed from left to right *)

Lemma row_step_length (p : nat) (row : list Pixel) :
  List.length (row_step p row) = List.length row.
Proof. unfold row_step. apply length_insert. Qed.

Lemma row_steps_length (n lo : nat) (row : list Pixel) :
  List.length (for_loop n lo row_step row) = List.length row.
Proof.
  apply (for_loop_inv (fun r => List.length r = List.length row)); [done|].
  intros i r _ H. by rewrite row_step_length.
Qed.

(** The steps for columns [lo .. lo+n-1] leave every other column alone. *)
Lemma row_steps_outside (n lo j : nat) (row : list Pixel) :
  (j < lo \/ lo + n <= j)%nat -> for_loop n lo row_step row !! j = row !! j.
Proof.
  intros Hj.
  apply (for_loop_inv (fun r => r !! j = row !! j)); [done|].
  intros i r Hi H. unfold row_step. rewrite list_lookup_insert_ne by lia. done.
Qed.

Lemma for_loop_split {St : Type} (a b lo : nat) (body : nat -> St -> St) (s : St) :
  for_loop (a + b) lo body s = for_loop b (lo + a) body (for_loop a lo body s).
Proof.
  rewrite !for_loop_foldl, seq_app, foldl_app. done.
Qed.

Lemma window_agree (p : nat) (r1 r2 : list Pixel) :
  (forall j, (j < p)%nat -> r1 !! j = r2 !! j) -> window p r1 = window p r2.
Proof.
  intros H. unfold window. apply list_eq. intros k.
  destruct (decide (k < Nat.min 10 p)%nat) as [Hk|Hk].
  - rewrite !lookup_take_lt, !lookup_drop by done. apply H. lia.
  - rewrite !lookup_take_ge by lia. done.
Qed.

Lemma bleed_spec_agree (p : nat) (r1 r2 : list Pixel) (cur : Pixel) :
  (forall j, (j < p)%nat -> r1 !! j = r2 !! j) ->
  bleed_spec p r1 cur = bleed_spec p r2 cur.
Proof.
  intros H. unfold bleed_spec. by rewrite (window_agree p r1 r2 H).
Qed.

(** Column [p] of the transformed row: the original pixel, bled with the
    transformed pixels to its left, then greyed and xored. *)
Lemma transform_row_lookup (row : list Pixel) (p : nat) :
  (p < List.length row)%nat ->
  transform_row row !! p
  = Some (XOR (Greyscale (bleed_spec p (transform_row row) (row !!! p))) 13).
Proof.
  intros Hp. unfold transform_row at 1.
  replace (List.length row) with (p + (1 + (List.length row - p - 1)))%nat by lia.
  rewrite for_loop_split, for_loop_split.
  set (before := for_loop p 0 row_step row).
  rewrite row_steps_outside by lia.
  simpl. unfold row_step at 1.
  assert (Hlen : List.length before = List.length row) by apply row_steps_length.
  rewrite list_lookup_insert_eq by lia.
  do 3 f_equal.
  assert (Hcur : before !!! p = row !!! p).
  { rewrite !list_lookup_total_alt. unfold before.
    by rewrite row_steps_outside by lia. }
  rewrite Hcur. apply bleed_spec_agree. intros j Hj.
  unfold transform_row.
  replace (List.length row) with (p + (List.length row - p))%nat at 1 by lia.
  rewrite for_loop_split. fold before.
  by rewrite row_steps_outside by lia.
Qed.

(** ** The grid of the sequential reference *)

Lemma pixel_body_img (p : nat) (st : State) :
  img (pixel_body p st) = transform 0 p (img st).
Proof.
  unfold pixel_body.
  destruct (search_loop_frame 0 p (transform_state 0 p (search_loop 0 p st))) as [-> _].
  simpl. by destruct (search_loop_frame 0 p st) as [-> _].
Qed.

Lemma for_loop_project {St V : Type} (pr : St -> V) (f : nat -> St -> St)
    (g : nat -> V -> V) (n lo : nat) (s : St) :
  (forall i s', pr (f i s') = g i (pr s')) ->
  pr (for_loop n lo f s) = for_loop n lo g (pr s).
Proof.
  intros H. revert lo s. induction n as [|n IH]; intros lo s; simpl; [done|].
  by rewrite IH, H.
Qed.

Lemma transform_loop_row (l : nat) (n lo : nat) (im : Image.t) (row : list Pixel) :
  Image.pixels im !! l = Some row ->
  (lo + n <= List.length row)%nat ->
  Image.pixels (for_loop n lo (transform l) im) !! l = Some (for_loop n lo row_step row).
Proof.
  revert lo im row. induction n as [|n IH]; intros lo im row Hrow Hn; simpl; [done|].
  apply IH.
  - apply transform_row_step; [done | lia].
  - rewrite row_step_length. lia.
Qed.

Lemma process_b_row (st : State) (row : list Pixel) :
  Image.pixels (img st) !! 0%nat = Some row ->
  Image.linesize (img st) = List.length row ->
  Image.pixels (img (process_b st)) !! 0%nat = Some (transform_row row).
Proof.
  intros Hrow Hsize. unfold process_b, for_range.
  rewrite (for_loop_project img pixel_body (transform 0)) by apply pixel_body_img.
  rewrite Nat.sub_0_r, Hsize. apply transform_loop_row; [done | lia].
Qed.

Lemma window_length (p : nat) (row : list Pixel) :
  (p <= List.length row)%nat -> List.length (window p row) = Nat.min 10 p.
Proof.
  intros H. unfold window. rewrite length_take, length_drop. lia.
Qed.

Lemma window_lookup (p k : nat) (row : list Pixel) :
  (k < Nat.min 10 p)%nat -> window p row !! k = row !! (p - Nat.min 10 p + k)%nat.
Proof.
  intros H. unfold window. by rewrite lookup_take_lt, lookup_drop.
Qed.

Lemma bleed_first_column (l : nat) (im : Image.t) : bleed l 0 im = im.
Proof. reflexivity. Qed.

(** C2: the bleed of the sequential reference.  At [p = 0] the bleed
    leaves the grid as it is.  In a run of process-b on a grid whose row
    is [row], let [before] be the grid when the loop reaches column [p]:
    its pixel at [p] is still the original one, and the columns to the
    left of [p] are already in their final, transformed state.  The bleed
    at [p > 0] takes [n = min(10, p)] and the [n] pixels at columns
    [p-n .. p-1]; for each of red, green and blue it divides the sum of
    that channel over these pixels by [n], and adds a third of the
    difference between this average and the current value of that
    channel to that same channel of the pixel at [p], both divisions
    truncating toward zero, in [int] arithmetic; no other pixel changes.
    The window has exactly [min(10, p)] pixels, so [p] of them when
    [p < 10].  The final pixel at [p] is the bled pixel, greyed and
    xored. *)
Theorem reference_bleed (st : State) (row : list Pixel) (p : nat) :
  Image.pixels (img st) !! 0%nat = Some row ->
  Image.linesize (img st) = List.length row ->
  (p < List.length row)%nat ->
  let out := Image.pixels (img (process_b st)) !!! 0%nat in
  (forall im, bleed 0 0 im = im) /\
  List.length (window p out) = Nat.min 10 p /\
  (forall k, (k < Nat.min 10 p)%nat ->
             window p out !! k = out !! (p - Nat.min 10 p + k)%nat) /\
  ((p < 10)%nat -> List.length (window p out) = p) /\
  out !! p = Some (XOR (Greyscale (bleed_spec p out (row !!! p))) 13) /\
  let before := img (for_range 0 p pixel_body st) in
  let cur := row !!! p in
  let n := Z.of_nat (Nat.min 10 p) in
  let w := window p out in
  let bled := get_pixel (bleed 0 p before) 0 p in
  get_pixel before 0 p = cur /\
  (forall j, (j < p)%nat -> get_pixel before 0 j = out !!! j) /\
  (p = 0%nat -> bled = cur) /\
  ((0 < p)%nat ->
     red bled
     = wrap32 (red cur
               + Z.quot (wrap32 (Z.quot (wrap32 (channel_sum red w)) n - red cur)) 3) /\
     green bled
     = wrap32 (green cur
               + Z.quot (wrap32 (Z.quot (wrap32 (channel_sum green w)) n - green cur)) 3) /\
     blue bled
     = wrap32 (blue cur
               + Z.quot (wrap32 (Z.quot (wrap32 (channel_sum blue w)) n - blue cur)) 3)) /\
  (forall j, j <> p -> get_pixel (bleed 0 p before) 0 j = get_pixel before 0 j) /\
  out !! p = Some (XOR (Greyscale bled) 13).
Proof.
  intros Hrow Hsize Hp out.
  assert (Hout : out = transform_row row).
  { unfold out. by rewrite (list_lookup_total_correct _ _ _ (process_b_row st row Hrow Hsize)). }
  assert (Hlen : List.length out = List.length row).
  { rewrite Hout. apply row_steps_length. }
  split; [apply (bleed_first_column 0)|].
  split; [apply window_length; lia|].
  split; [intros k Hk; by apply window_lookup|].
  split; [intros H10; rewrite window_length by lia; lia|].
  assert (Hfinal : out !! p = Some (XOR (Greyscale (bleed_spec p out (row !!! p))) 13)).
  { rewrite Hout. by apply transform_row_lookup. }
  split; [exact Hfinal|].
  intros before cur n w bled.
  set (rb := for_loop p 0 row_step row).
  assert (Hrb : Image.pixels before !! 0%nat = Some rb).
  { unfold before, for_range.
    rewrite (for_loop_project img pixel_body (transform 0)) by apply pixel_body_img.
    rewrite Nat.sub_0_r. apply transform_loop_row; [done | lia]. }
  assert (Hrblen : List.length rb = List.length row) by apply row_steps_length.
  assert (Hcur : rb !!! p = cur).
  { unfold rb, cur. rewrite !list_lookup_total_alt.
    by rewrite row_steps_outside by lia. }
  assert (Hleft : forall j, (j < p)%nat -> rb !! j = out !! j).
  { intros j Hj. rewrite Hout. unfold transform_row.
    replace (List.length row) with (p + (List.length row - p))%nat at 1 by lia.
    rewrite for_loop_split. fold rb. by rewrite row_steps_outside by lia. }
  assert (Hbled : Image.pixels (bleed 0 p before) !! 0%nat
                  = Some (<[p := bleed_spec p out cur]> rb)).
  { rewrite (bleed_row before 0 p rb Hrb) by lia.
    by rewrite Hcur, (bleed_spec_agree p rb out cur Hleft). }
  assert (Hb : bled = bleed_spec p out cur).
  { unfold bled. rewrite (get_pixel_row _ _ _ _ Hbled).
    by rewrite list_lookup_total_insert_eq by lia. }
  split; [by rewrite (get_pixel_row _ _ _ _ Hrb)|].
  split.
  { intros j Hj. rewrite (get_pixel_row _ _ _ _ Hrb), !list_lookup_total_alt.
    by rewrite Hleft. }
  split.
  { intros ->. by rewrite Hb. }
  split.
  { intros Hpos. rewrite Hb. unfold bleed_spec.
    replace (p =? 0)%nat with false by (symmetry; apply Nat.eqb_neq; lia).
    done. }
  split.
  { intros j Hj. rewrite (get_pixel_row _ _ _ _ Hbled), (get_pixel_row _ _ _ _ Hrb).
    by rewrite list_lookup_total_insert_ne. }
  by rewrite Hb.
Qed.

Lemma reference_bleed_witness :
  let st := scenario in
  let row := [mkPixel 10 20 30; mkPixel 40 50 60; mkPixel 70 80 90] in
  let p := 1%nat in
  let out := Image.pixels (img (process_b st)) !!! 0%nat in
  (forall im, bleed 0 0 im = im) /\
  List.length (window p out) = Nat.min 10 p /\
  (forall k, (k < Nat.min 10 p)%nat ->
             window p out !! k = out !! (p - Nat.min 10 p + k)%nat) /\
  ((p < 10)%nat -> List.length (window p out) = p) /\
  out !! p = Some (XOR (Greyscale (bleed_spec p out (row !!! p))) 13) /\
  let before := img (for_range 0 p pixel_body st) in
  let cur := row !!! p in
  let n := Z.of_nat (Nat.min 10 p) in
  let w := window p out in
  let bled := get_pixel (bleed 0 p before) 0 p in
  get_pixel before 0 p = cur /\
  (forall j, (j < p)%nat -> get_pixel before 0 j = out !!! j) /\
  (p = 0%nat -> bled = cur) /\
  ((0 < p)%nat ->
     red bled
     = wrap32 (red cur
               + Z.quot (wrap32 (Z.quot (wrap32 (channel_sum red w)) n - red cur)) 3) /\
     green bled
     = wrap32 (green cur
               + Z.quot (wrap32 (Z.quot (wrap32 (channel_sum green w)) n - green cur)) 3) /\
     blue bled
     = wrap32 (blue cur
               + Z.quot (wrap32 (Z.quot (wrap32 (channel_sum blue w)) n - blue cur)) 3)) /\
  (forall j, j <> p -> get_pixel (bleed 0 p before) 0 j = get_pixel before 0 j) /\
  out !! p = Some (XOR (Greyscale bled) 13).
Proof.
  exact (reference_bleed scenario
           [mkPixel 10 20 30; mkPixel 40 50 60; mkPixel 70 80 90] 1
           eq_refl eq_refl ltac:(simpl; lia)).
Defined.

(** Where no intermediate value leaves the range of [int], the bleed is
    the one of the integers. *)
Lemma quot_bound (s d m : Z) : - m <= s <= m -> 1 <= d -> - m <= Z.quot s d <= m.
Proof.
  intros Hs Hd.
  destruct (Z.le_gt_cases 0 s) as [H0|H0].
  - pose proof (Z.quot_pos s d ltac:(lia) ltac:(lia)).
    pose proof (Z.quot_le_upper_bound s d s ltac:(lia) ltac:(nia)). lia.
  - replace s with (- (- s)) by lia. rewrite Z.quot_opp_l by lia.
    pose proof (Z.quot_pos (- s) d ltac:(lia) ltac:(lia)).
    pose proof (Z.quot_le_upper_bound (- s) d (- s) ltac:(lia) ltac:(nia)). lia.
Qed.

Lemma channel_sum_bound (ch : Pixel -> Z) (w : list Pixel) (m : Z) :
  Forall (fun x => - m <= ch x <= m) w ->
  - (Z.of_nat (List.length w) * m) <= channel_sum ch w <= Z.of_nat (List.length w) * m.
Proof.
  induction 1 as [|x w Hx _ IH]; simpl channel_sum; simpl List.length; lia.
Qed.

Lemma bleed_channel_in_range (ch : Pixel -> Z) (n : nat) (w : list Pixel) (cur : Pixel) :
  List.length w = n -> (1 <= n <= 10)%nat ->
  Forall (fun x => - 2 ^ 24 <= ch x <= 2 ^ 24) w ->
  - 2 ^ 24 <= ch cur <= 2 ^ 24 ->
  bleed_channel ch n w cur = bleed_channel_exact ch n w cur.
Proof.
  intros Hlen Hn Hw Hcur. unfold bleed_channel, bleed_channel_exact.
  pose proof (channel_sum_bound ch w (2 ^ 24) Hw) as Hs. rewrite Hlen in Hs.
  assert (- (10 * 2 ^ 24) <= channel_sum ch w <= 10 * 2 ^ 24) as Hs' by lia.
  rewrite (wrap32_id (channel_sum ch w)) by lia.
  pose proof (quot_bound (channel_sum ch w) (Z.of_nat n) (10 * 2 ^ 24) Hs' ltac:(lia)) as Ha.
  rewrite (wrap32_id (_ - ch cur)) by lia.
  pose proof (quot_bound (Z.quot (channel_sum ch w) (Z.of_nat n) - ch cur) 3 (11 * 2 ^ 24)
                ltac:(lia) ltac:(lia)) as Hd.
  apply wrap32_id. lia.
Qed.

(** ** Rows under the row-parallel executors *)

Lemma local_search_loop_shared (t l p : nat) (ts : TeamState) :
  shared (local_search_loop t l p ts) = shared ts.
Proof.
  unfold local_search_loop.
  apply (for_range_inv (fun s => shared s = shared ts)); [done|].
  intros i s' _ H. unfold local_search_body. by destruct (pixel_match _ _).
Qed.

Lemma for_loop_project_inv {St V : Type} (pr : St -> V) (I : St -> Prop)
    (f : nat -> St -> St) (g : nat -> V -> V) (n lo : nat) (s : St) :
  I s ->
  (forall i s', I s' -> I (f i s') /\ pr (f i s') = g i (pr s')) ->
  pr (for_loop n lo f s) = for_loop n lo g (pr s).
Proof.
  intros Hs H. revert lo s Hs. induction n as [|n IH]; intros lo s Hs; simpl; [done|].
  destruct (H lo s Hs) as [HI Hpr]. by rewrite IH, Hpr.
Qed.

Lemma local_search_loop_locals (t l p : nat) (ts : TeamState) :
  locals (local_search_loop t l p ts)
  = local_hits t (get_pixel (img (shared ts)) l p) (search (shared ts)) (locals ts).
Proof.
  unfold local_search_loop, local_hits, for_range.
  apply (for_loop_project_inv locals (fun s => shared s = shared ts)); [done|].
  intros i s' Hs. unfold local_search_body. rewrite Hs.
  by destruct (pixel_match _ _).
Qed.

Lemma tc2_column_shared (t l p : nat) (ts : TeamState) :
  shared (tc2_column t l p ts) = transform_guarded_state l p (shared ts).
Proof.
  unfold tc2_column. rewrite local_search_loop_shared. simpl.
  by rewrite local_search_loop_shared.
Qed.

Lemma tc2_column_locals (t l p : nat) (ts : TeamState) :
  locals (tc2_column t l p ts)
  = local_hits t (get_pixel (transform l p (img (shared ts))) l p) (search (shared ts))
      (local_hits t (get_pixel (img (shared ts)) l p) (search (shared ts)) (locals ts)).
Proof.
  unfold tc2_column. rewrite local_search_loop_locals. simpl.
  rewrite local_search_loop_shared, local_search_loop_locals.
  by rewrite transform_guarded_eq.
Qed.

Lemma row_frame_refl (l : nat) (ts : TeamState) : row_frame l ts ts.
Proof. repeat split. Qed.

Lemma row_frame_trans (l : nat) (a b c : TeamState) :
  row_frame l a b -> row_frame l b c -> row_frame l a c.
Proof.
  intros (S1 & Q1 & C1 & R1) (S2 & Q2 & C2 & R2).
  split; [eapply same_shape_trans; eassumption|].
  split; [congruence|]. split; [congruence|].
  intros l' Hl. rewrite R2, R1; done.
Qed.

Lemma tc2_column_frame (t l p : nat) (ts : TeamState) :
  row_frame l ts (tc2_column t l p ts).
Proof.
  unfold row_frame. rewrite tc2_column_shared.
  unfold transform_guarded_state. cbn [img search counter].
  rewrite transform_guarded_eq.
  split; [apply transform_same_shape|]. do 2 (split; [done|]).
  intros l' Hl. by apply transform_other_row.
Qed.

Lemma tc2_row_body_frame (t l : nat) (ts : TeamState) :
  row_frame l ts (tc2_row_body t l ts).
Proof.
  unfold tc2_row_body. apply for_range_inv; [apply row_frame_refl|].
  intros p s' _ H. eapply row_frame_trans; [exact H | apply tc2_column_frame].
Qed.

(** The columns [lo .. lo+n-1] of row [l], in terms of the row alone. *)
Lemma tc2_columns_pass (t l : nat) (n lo : nat) (ts : TeamState) (row : list Pixel) :
  Image.pixels (img (shared ts)) !! l = Some row ->
  (lo + n <= List.length row)%nat ->
  let ts' := for_loop n lo (tc2_column t l) ts in
  let rp := for_loop n lo (column_pass t (search (shared ts))) (row, locals ts) in
  Image.pixels (img (shared ts')) !! l = Some rp.1 /\ locals ts' = rp.2.
Proof.
  revert lo ts row. induction n as [|n IH]; intros lo ts row Hrow Hn; simpl; [done|].
  assert (Hrow' : Image.pixels (img (shared (tc2_column t l lo ts))) !! l
                  = Some (row_step lo row)).
  { rewrite tc2_column_shared. unfold transform_guarded_state. cbn [img].
    rewrite transform_guarded_eq. apply transform_row_step; [done | lia]. }
  destruct (IH (S lo) (tc2_column t l lo ts) (row_step lo row) Hrow'
              ltac:(rewrite row_step_length; lia)) as [E1 E2].
  destruct (tc2_column_frame t l lo ts) as (_ & Hsearch & _).
  rewrite Hsearch in E1, E2.
  assert (Hstep : column_pass t (search (shared ts)) lo (row, locals ts)
                  = (row_step lo row, locals (tc2_column t l lo ts))).
  { unfold column_pass. simpl. f_equal. rewrite tc2_column_locals.
    rewrite (get_pixel_row _ _ _ _ Hrow).
    erewrite (get_pixel_row (transform l lo _)); [done|].
    apply transform_row_step; [done | lia]. }
  rewrite Hstep. done.
Qed.

Lemma tc2_row_body_pass (t l : nat) (ts : TeamState) (row : list Pixel) :
  Image.pixels (img (shared ts)) !! l = Some row ->
  Image.linesize (img (shared ts)) = List.length row ->
  Image.pixels (img (shared (tc2_row_body t l ts))) !! l
    = Some (row_pass t (search (shared ts)) row (locals ts)).1 /\
  locals (tc2_row_body t l ts) = (row_pass t (search (shared ts)) row (locals ts)).2.
Proof.
  intros Hrow Hsize. unfold tc2_row_body, row_pass, for_range.
  rewrite Hsize, Nat.sub_0_r. apply tc2_columns_pass; [done | lia].
Qed.

Lemma column_pass_row (t : nat) (srch : Image.t) (p : nat) (s : list Pixel * list (list Z)) :
  (column_pass t srch p s).1 = row_step p s.1.
Proof. reflexivity. Qed.

Lemma row_pass_row (t : nat) (srch : Image.t) (row : list Pixel) (ls : list (list Z)) :
  (row_pass t srch row ls).1 = transform_row row.
Proof.
  unfold row_pass, transform_row.
  apply (for_loop_project fst (column_pass t srch) row_step). intros i s. apply column_pass_row.
Qed.

(** The row loop, one row at a time. *)
Lemma tc2_rows_cons (it : nat * nat) (sched : Schedule) (ts : TeamState) :
  tc2_rows (it :: sched) ts = tc2_rows sched (tc2_row_body it.2 it.1 ts).
Proof. reflexivity. Qed.

Lemma tc2_rows_untouched (sched : Schedule) (ts : TeamState) (r : nat) :
  r ∉ sched.*1 ->
  Image.pixels (img (shared (tc2_rows sched ts))) !! r = Image.pixels (img (shared ts)) !! r /\
  Image.linesize (img (shared (tc2_rows sched ts))) = Image.linesize (img (shared ts)) /\
  search (shared (tc2_rows sched ts)) = search (shared ts).
Proof.
  revert ts. induction sched as [|it sched IH]; intros ts Hr; [done|].
  rewrite tc2_rows_cons. rewrite fmap_cons in Hr.
  apply not_elem_of_cons in Hr as [Hne Hr].
  destruct (IH (tc2_row_body it.2 it.1 ts) Hr) as (-> & -> & ->).
  destruct (tc2_row_body_frame it.2 it.1 ts) as ((_ & _ & Hs & _) & Hq & _ & Hrows).
  rewrite Hrows by done. done.
Qed.

Lemma tc2_rows_row (sched : Schedule) (ts : TeamState) (r : nat) (row : list Pixel) :
  NoDup (sched.*1) -> r ∈ sched.*1 ->
  Image.pixels (img (shared ts)) !! r = Some row ->
  Image.linesize (img (shared ts)) = List.length row ->
  Image.pixels (img (shared (tc2_rows sched ts))) !! r = Some (transform_row row).
Proof.
  revert ts. induction sched as [|it sched IH]; intros ts Hnd Hr Hrow Hsize.
  - by apply elem_of_nil in Hr.
  - rewrite tc2_rows_cons. rewrite fmap_cons in Hnd, Hr.
    apply NoDup_cons in Hnd as [Hfresh Hnd].
    destruct (decide (it.1 = r)) as [E|E].
    + rewrite E in *.
      destruct (tc2_rows_untouched sched (tc2_row_body it.2 r ts) r Hfresh) as (-> & _).
      destruct (tc2_row_body_pass it.2 r ts row Hrow Hsize) as [-> _].
      by rewrite row_pass_row.
    + apply elem_of_cons in Hr as [Hr|Hr]; [congruence|].
      destruct (tc2_row_body_frame it.2 it.1 ts) as ((_ & _ & Hs & _) & _ & _ & Hrows).
      apply IH; [done | done | by rewrite Hrows | by rewrite Hs].
Qed.

Lemma before_row_free (r : nat) (sched : Schedule) : r ∉ (before_row r sched).*1.
Proof.
  induction sched as [|it sched IH]; simpl; [apply not_elem_of_nil|].
  destruct (Nat.eqb_spec it.1 r) as [E|E]; [apply not_elem_of_nil|].
  rewrite fmap_cons. apply not_elem_of_cons. split; [congruence | done].
Qed.

(** The counts of a row are a function of the row and the search list. *)
Lemma row_counts_row (srch im : Image.t) (l : nat) (row : list Pixel) :
  Image.pixels im !! l = Some row ->
  Image.linesize im = List.length row ->
  row_counts srch im l
  = (row_pass 0 srch row (calloc_locals 1 (Image.length srch))).2 !!! 0%nat.
Proof.
  intros Hrow Hsize. unfold row_counts.
  by destruct (tc2_row_body_pass 0 l
    (mkTeam (mkState im srch []) (calloc_locals 1 (Image.length srch))) row Hrow Hsize)
    as [_ ->].
Qed.

Lemma row_contribution_row (sched : Schedule) (ts : TeamState) (r : nat) (row : list Pixel) :
  Image.pixels (img (shared ts)) !! r = Some row ->
  Image.linesize (img (shared ts)) = List.length row ->
  row_contribution sched ts r
  = (row_pass 0 (search (shared ts)) row
       (calloc_locals 1 (Image.length (search (shared ts))))).2 !!! 0%nat.
Proof.
  intros Hrow Hsize. unfold row_contribution.
  destruct (tc2_rows_untouched (before_row r sched) ts r (before_row_free r sched))
    as (Hr & Hs & _).
  apply row_counts_row; congruence.
Qed.

Lemma valid_schedule_rows (T n : nat) (sched : Schedule) (r : nat) :
  valid_schedule T n sched -> (r < n)%nat -> NoDup (sched.*1) /\ r ∈ sched.*1.
Proof.
  intros [Hperm _] Hr. split.
  - rewrite Hperm. apply NoDup_seq.
  - rewrite Hperm. apply elem_of_seq. lia.
Qed.

(** The row loop of process-a_tc2 alone.  Take two runs of the loop, on
    grids that both hold [row] at row [r] and have the same row width,
    with the same search list, under any two schedules, initial counters
    and thread-local arrays.  The transformed row [r] is the same in both
    (it is [transform_row row]), and so are the match counts that the
    iteration of row [r] finds.  What becomes of these counts in the
    shared counters is the matter of the merge. *)
Lemma row_loop_independence (srch im1 im2 : Image.t) (c1 c2 : list Z)
    (ls1 ls2 : list (list Z)) (T1 T2 : nat) (sched1 sched2 : Schedule)
    (r : nat) (row : list Pixel) :
  Image.pixels im1 !! r = Some row ->
  Image.pixels im2 !! r = Some row ->
  Image.linesize im1 = List.length row ->
  Image.linesize im2 = List.length row ->
  valid_schedule T1 (Image.lines im1) sched1 ->
  valid_schedule T2 (Image.lines im2) sched2 ->
  (r < Image.lines im1)%nat -> (r < Image.lines im2)%nat ->
  let ts1 := mkTeam (mkState im1 srch c1) ls1 in
  let ts2 := mkTeam (mkState im2 srch c2) ls2 in
  Image.pixels (img (shared (tc2_rows sched1 ts1))) !! r
    = Image.pixels (img (shared (tc2_rows sched2 ts2))) !! r /\
  Image.pixels (img (shared (tc2_rows sched1 ts1))) !! r = Some (transform_row row) /\
  row_contribution sched1 ts1 r = row_contribution sched2 ts2 r.
Proof.
  intros R1 R2 S1 S2 V1 V2 L1 L2 ts1 ts2.
  destruct (valid_schedule_rows _ _ _ r V1 L1) as [N1 M1].
  destruct (valid_schedule_rows _ _ _ r V2 L2) as [N2 M2].
  pose proof (tc2_rows_row sched1 ts1 r row N1 M1 R1 S1) as E1.
  pose proof (tc2_rows_row sched2 ts2 r row N2 M2 R2 S2) as E2.
  split; [congruence|]. split; [done|].
  rewrite (row_contribution_row sched1 ts1 r row R1 S1).
  rewrite (row_contribution_row sched2 ts2 r row R2 S2). done.
Qed.

(** ** The static runtime is a legal runtime *)

Lemma static_schedule_valid (T n : nat) : (0 < T)%nat -> valid_schedule T n (static_schedule T n).
Proof.
  intros HT. unfold valid_schedule, static_schedule. split.
  - rewrite <- list_fmap_compose. simpl.
    replace (fmap (fst ∘ _) (seq 0 n)) with (seq 0 n); [done|].
    symmetry. etransitivity; [|apply list_fmap_id]. by apply list_fmap_ext.
  - apply Forall_fmap, Forall_forall. intros i Hi. simpl.
    apply elem_of_seq in Hi.
    set (q := ((n + T - 1) / T)%nat).
    assert (n <= T * q)%nat as Hq.
    { unfold q. pose proof (Nat.div_mod_eq (n + T - 1) T) as E.
      pose proof (Nat.mod_upper_bound (n + T - 1) T ltac:(lia)). lia. }
    apply Nat.Div0.div_lt_upper_bound. nia.
Qed.

Lemma static_runtime_valid (T : nat) (junk : Pixel) :
  (0 < T)%nat -> valid_runtime (static_runtime T junk).
Proof.
  intros HT. unfold valid_runtime. simpl.
  split; [done|]. split; [intros _; lia|].
  split; [intros _ n; by apply static_schedule_valid | done].
Qed.

(** ** Where the OpenMP variants depart from the reference *)

(** C1 (the code departs from the claim): in process-b_tc2.c the scalars
    [r0, g0, b0] and [r1, g1, b1] are declared inside the parallel region
    and assigned inside [single] regions without [copyprivate], so only
    the thread that executes the [single] holds the pixel; the other
    threads test their own, unassigned copies.  With two threads, a static
    schedule and a search list that holds the grid's pixel twice, the
    second entry is tested by thread 1 and missed: the counters are [1; 0]
    where the reference has [1; 1].  The grid is the reference's. *)
Theorem phased_executor_misses_matches :
  valid_runtime (static_runtime 2 zero_pixel) /\
  counter (process_b twin_search) = [1; 1] /\
  counter (process_b_tc2 (static_runtime 2 zero_pixel) twin_search) = [1; 0] /\
  img (process_b_tc2 (static_runtime 2 zero_pixel) twin_search)
    = img (process_b twin_search).
Proof.
  split; [apply static_runtime_valid; lia|]. vm_compute. repeat split.
Qed.

(** C5 (the code departs from the claim): process-b_tc4.c has the private
    scalars of process-b_tc2.c, so the thread that is given a tile decides
    what the tile is tested against.  With two threads and a static
    schedule, tiles of one index put the second search entry on thread 1,
    which misses the match; one tile of two indices puts both on thread 0.
    The counters depend on the tile size: [1; 0] against [1; 1]. *)
Theorem tile_size_changes_counters :
  valid_runtime (static_runtime 2 zero_pixel) /\
  counter (process_b_tc4 1 (static_runtime 2 zero_pixel) twin_search) = [1; 0] /\
  counter (process_b_tc4 2 (static_runtime 2 zero_pixel) twin_search) = [1; 1] /\
  counter (process_b twin_search) = [1; 1].
Proof.
  split; [apply static_runtime_valid; lia|]. vm_compute. repeat split.
Qed.


(** ** Search loops as functions of the pixel tested *)

Lemma search_loop_counter (l p : nat) (st : State) :
  counter (search_loop l p st) = hits (get_pixel (img st) l p) (search st) (counter st).
Proof.
  unfold search_loop, hits, for_range.
  apply (for_loop_project_inv counter (fun s => img s = img st /\ search s = search st));
    [done|].
  intros i s' [Hi Hs]. unfold search_body. rewrite Hi, Hs.
  by destruct (pixel_match _ _).
Qed.

Lemma bump_local_lookup (t i : nat) (ls : list (list Z)) :
  (t < List.length ls)%nat -> bump_local t i ls !!! t = bump i (ls !!! t).
Proof. intros H. unfold bump_local. by rewrite list_lookup_total_insert_eq. Qed.

Lemma local_hits_hits (t : nat) (v : Pixel) (srch : Image.t) (ls : list (list Z)) :
  local_hits t v srch ls = <[t := hits v srch (ls !!! t)]> ls.
Proof.
  unfold local_hits, hits, for_range.
  set (m := fun i => pixel_match v (get_pixel srch 0 i)).
  change (for_loop (Image.length srch - 0) 0
            (fun i ls => if m i then bump_local t i ls else ls) ls
          = <[t := for_loop (Image.length srch - 0) 0
                     (fun i c => if m i then bump i c else c) (ls !!! t)]> ls).
  generalize (Image.length srch - 0)%nat as n. generalize 0%nat as lo.
  intros lo n. revert lo ls. induction n as [|n IH]; intros lo ls; simpl.
  - symmetry. apply list_insert_id'. intros H. by apply list_lookup_lookup_total_lt.
  - destruct (m lo); [|apply IH].
    rewrite IH. destruct (decide (t < List.length ls)%nat) as [Ht|Ht].
    + rewrite bump_local_lookup by done. unfold bump_local.
      by rewrite list_insert_insert_eq.
    + unfold bump_local. rewrite !(list_insert_ge ls) by lia. done.
Qed.

Lemma hits_none (v : Pixel) (srch : Image.t) (c : list Z) :
  (forall i, (i < Image.length srch)%nat -> pixel_match v (get_pixel srch 0 i) = false) ->
  hits v srch c = c.
Proof.
  intros H. unfold hits. apply (for_range_inv (fun c' => c' = c)); [done|].
  intros i c' Hi ->. by rewrite H by lia.
Qed.

Lemma transformed_pixel_grey (x : Pixel) :
  exists g, XOR (Greyscale x) 13 = mkPixel g g g.
Proof. unfold XOR, Greyscale. simpl. eauto. Qed.

Lemma hits_grey (srch : Image.t) (x : Pixel) (c : list Z) :
  no_grey_entry srch -> hits (XOR (Greyscale x) 13) srch c = c.
Proof.
  intros H. destruct (transformed_pixel_grey x) as [g ->].
  apply hits_none. intros i Hi. by apply H.
Qed.

(** ** Rows under process-a_tc3 *)

Lemma tc3_column_img (l p : nat) (st : State) :
  img (tc3_column l p st) = transform l p (img st) /\
  search (tc3_column l p st) = search st.
Proof.
  unfold tc3_column.
  destruct (search_loop_frame l p (transform_guarded_state l p (search_loop l p st)))
    as [-> ->].
  unfold transform_guarded_state. cbn [img search].
  destruct (search_loop_frame l p st) as [-> ->].
  by rewrite transform_guarded_eq.
Qed.

Lemma tc3_column_counter (l p : nat) (st : State) :
  counter (tc3_column l p st)
  = hits (get_pixel (transform l p (img st)) l p) (search st)
      (hits (get_pixel (img st) l p) (search st) (counter st)).
Proof.
  unfold tc3_column. rewrite search_loop_counter.
  unfold transform_guarded_state. cbn [img search counter].
  destruct (search_loop_frame l p st) as [-> ->].
  by rewrite search_loop_counter, transform_guarded_eq.
Qed.

Lemma state_row_frame_refl (l : nat) (st : State) : state_row_frame l st st.
Proof. repeat split. Qed.

Lemma state_row_frame_trans (l : nat) (a b c : State) :
  state_row_frame l a b -> state_row_frame l b c -> state_row_frame l a c.
Proof.
  intros (S1 & Q1 & R1) (S2 & Q2 & R2).
  split; [eapply same_shape_trans; eassumption|].
  split; [congruence|].
  intros l' Hl. rewrite R2, R1; done.
Qed.

Lemma tc3_column_frame (l p : nat) (st : State) : state_row_frame l st (tc3_column l p st).
Proof.
  unfold state_row_frame. destruct (tc3_column_img l p st) as [-> ->].
  split; [apply transform_same_shape|]. split; [done|].
  intros l' Hl. by apply transform_other_row.
Qed.

Lemma tc3_row_body_frame (l : nat) (st : State) : state_row_frame l st (tc3_row_body l st).
Proof.
  unfold tc3_row_body. apply for_range_inv; [apply state_row_frame_refl|].
  intros p s' _ H. eapply state_row_frame_trans; [exact H | apply tc3_column_frame].
Qed.

Lemma tc3_columns_counts (l n lo : nat) (st : State) (row : list Pixel) :
  Image.pixels (img st) !! l = Some row ->
  (lo + n <= List.length row)%nat ->
  let st' := for_loop n lo (tc3_column l) st in
  let rc := for_loop n lo (column_counts (search st)) (row, counter st) in
  Image.pixels (img st') !! l = Some rc.1 /\ counter st' = rc.2.
Proof.
  revert lo st row. induction n as [|n IH]; intros lo st row Hrow Hn; simpl; [done|].
  destruct (tc3_column_img l lo st) as [Himg Hsearch].
  assert (Hrow' : Image.pixels (img (tc3_column l lo st)) !! l = Some (row_step lo row)).
  { rewrite Himg. apply transform_row_step; [done | lia]. }
  destruct (IH (S lo) (tc3_column l lo st) (row_step lo row) Hrow'
              ltac:(rewrite row_step_length; lia)) as [E1 E2].
  rewrite Hsearch in E1, E2.
  assert (Hstep : column_counts (search st) lo (row, counter st)
                  = (row_step lo row, counter (tc3_column l lo st))).
  { unfold column_counts. simpl. f_equal. rewrite tc3_column_counter.
    rewrite (get_pixel_row _ _ _ _ Hrow).
    erewrite (get_pixel_row (transform l lo _)); [done|].
    apply transform_row_step; [done | lia]. }
  rewrite Hstep. done.
Qed.

Lemma tc3_row_body_counts (l : nat) (st : State) (row : list Pixel) :
  Image.pixels (img st) !! l = Some row ->
  Image.linesize (img st) = List.length row ->
  counter (tc3_row_body l st) = (row_counts_from (search st) row (counter st)).2.
Proof.
  intros Hrow Hsize. unfold tc3_row_body, row_counts_from, for_range.
  rewrite Hsize, Nat.sub_0_r. by apply tc3_columns_counts.
Qed.

(** The thread-local version counts the same, in the array of its thread. *)
Lemma column_pass_counts (t : nat) (srch : Image.t) (n lo : nat) (row : list Pixel)
    (ls : list (list Z)) :
  (t < List.length ls)%nat ->
  for_loop n lo (column_pass t srch) (row, ls)
  = ((for_loop n lo (column_counts srch) (row, ls !!! t)).1,
     <[t := (for_loop n lo (column_counts srch) (row, ls !!! t)).2]> ls).
Proof.
  revert lo row ls. induction n as [|n IH]; intros lo row ls Ht; simpl.
  - f_equal. symmetry. apply list_insert_id. by apply list_lookup_lookup_total_lt.
  - unfold column_pass at 2. cbn [fst snd].
    rewrite !local_hits_hits, list_insert_insert_eq.
    rewrite list_lookup_total_insert_eq by done.
    rewrite IH by (by rewrite length_insert).
    rewrite list_lookup_total_insert_eq by done.
    rewrite list_insert_insert_eq. done.
Qed.

Lemma tc2_row_body_counts (t l : nat) (ts : TeamState) (row : list Pixel) :
  Image.pixels (img (shared ts)) !! l = Some row ->
  Image.linesize (img (shared ts)) = List.length row ->
  (t < List.length (locals ts))%nat ->
  locals (tc2_row_body t l ts)
  = <[t := (row_counts_from (search (shared ts)) row (locals ts !!! t)).2]> (locals ts).
Proof.
  intros Hrow Hsize Ht.
  destruct (tc2_row_body_pass t l ts row Hrow Hsize) as [_ ->].
  unfold row_pass, row_counts_from. by rewrite column_pass_counts.
Qed.

(** A row of equal pixels under a search list without grey entries: only
    the pre-searches count, one round of [hits] for each column. *)
Lemma uniform_columns_counts (srch : Image.t) (v : Pixel) (n lo : nat)
    (row : list Pixel) (c : list Z) :
  no_grey_entry srch ->
  (forall j, (lo <= j < lo + n)%nat -> row !! j = Some v) ->
  (for_loop n lo (column_counts srch) (row, c)).2 = Nat.iter n (hits v srch) c.
Proof.
  intros Hgrey. revert lo row c. induction n as [|n IH]; intros lo row c Hrow; [done|].
  cbn [for_loop]. unfold column_counts at 2. cbn [fst snd].
  assert (Hlo : row !! lo = Some v) by (apply Hrow; lia).
  rewrite (list_lookup_total_correct _ _ _ Hlo).
  unfold row_step at 2. rewrite list_lookup_total_insert_eq by (by eapply lookup_lt_Some).
  rewrite hits_grey by done.
  rewrite IH.
  - by rewrite Nat.iter_succ_r.
  - intros j Hj. unfold row_step. rewrite list_lookup_insert_ne by lia. apply Hrow. lia.
Qed.

Lemma uniform_row_counts (srch : Image.t) (v : Pixel) (w : nat) (c : list Z) :
  no_grey_entry srch ->
  (row_counts_from srch (replicate w v) c).2 = Nat.iter w (hits v srch) c.
Proof.
  intros Hgrey. unfold row_counts_from. rewrite length_replicate.
  apply uniform_columns_counts; [done|].
  intros j Hj. apply lookup_replicate_2. lia.
Qed.

(** ** Two rows of equal pixels under the row-parallel variants *)

Lemma tc3_two_uniform_rows (rt : Runtime) (w : nat) (v : Pixel) (srch : Image.t)
    (c : list Z) (t0 t1 : nat) :
  no_grey_entry srch ->
  for_schedule rt 0 2 = [(0, t0); (1, t1)]%nat ->
  counter (process_a_tc3 rt (mkState (uniform_rows w v) srch c))
  = Nat.iter w (hits v srch) (Nat.iter w (hits v srch) c).
Proof.
  intros Hgrey Hsched. unfold process_a_tc3. cbn [img uniform_rows of_rows Image.lines List.length].
  rewrite Hsched. unfold omp_for. cbn [foldl fst snd].
  set (st := mkState _ srch c).
  destruct (tc3_row_body_frame 0 st) as ((_ & _ & Hsize & _) & Hsearch & Hrows).
  rewrite (tc3_row_body_counts 1 _ (replicate w v)).
  - rewrite Hsearch. cbn [search st].
    rewrite (tc3_row_body_counts 0 st (replicate w v));
      [| done | cbn; by rewrite length_replicate].
    cbn [search counter st]. by rewrite !uniform_row_counts.
  - by rewrite Hrows.
  - rewrite Hsize. cbn. by rewrite length_replicate.
Qed.

Lemma tc2_merge_counter (sched : Schedule) (ts : TeamState) :
  counter (shared (tc2_merge sched ts)) = merged_counter (locals ts) sched (counter (shared ts)).
Proof.
  unfold tc2_merge, omp_for, merged_counter.
  cut (forall ts', locals ts' = locals ts ->
         counter (shared (foldl (fun s it => merge_cell it.2 it.1 s) ts' sched))
         = foldl (fun c it => <[it.1 := ulong_add (c !!! it.1) ((locals ts !!! it.2) !!! it.1)]> c)
             (counter (shared ts')) sched).
  { intros H. by apply H. }
  induction sched as [|it sched IH]; intros ts' Hl; [done|].
  cbn [foldl]. rewrite IH by done. cbn [merge_cell shared counter]. by rewrite Hl.
Qed.

Lemma tc2_two_uniform_rows (rt : Runtime) (w : nat) (v : Pixel) (srch : Image.t) (c : list Z) :
  no_grey_entry srch ->
  nthreads rt = 2%nat ->
  for_schedule rt 0 2 = [(0, 0); (1, 1)]%nat ->
  let zeros := replicate (Image.length srch) 0 in
  let row_total := Nat.iter w (hits v srch) zeros in
  counter (process_a_tc2 rt (mkState (uniform_rows w v) srch c))
  = merged_counter [row_total; row_total] (for_schedule rt 1 (Image.length srch)) c.
Proof.
  intros Hgrey HT Hsched zeros row_total. unfold process_a_tc2.
  cbn [img search uniform_rows of_rows Image.lines List.length].
  rewrite Hsched, HT, tc2_merge_counter.
  unfold tc2_rows, omp_for. cbn [foldl fst snd].
  set (ts := mkTeam _ _).
  destruct (tc2_row_body_frame 0 0 ts) as ((_ & _ & Hsize & _) & Hsearch & Hcounter & Hrows).
  assert (L0 : locals (tc2_row_body 0 0 ts) = [row_total; zeros]).
  { rewrite (tc2_row_body_counts 0 0 ts (replicate w v));
      [| done | cbn; by rewrite length_replicate | cbn; lia].
    cbn [ts shared search locals]. by rewrite uniform_row_counts. }
  assert (L1 : locals (tc2_row_body 1 1 (tc2_row_body 0 0 ts)) = [row_total; row_total]).
  { rewrite (tc2_row_body_counts 1 1 _ (replicate w v)).
    - rewrite L0, Hsearch. cbn [ts shared search]. by rewrite uniform_row_counts.
    - by rewrite Hrows.
    - rewrite Hsize. cbn. by rewrite length_replicate.
    - rewrite L0. simpl. lia. }
  rewrite L1. f_equal.
  destruct (tc2_row_body_frame 1 1 (tc2_row_body 0 0 ts)) as (_ & _ & -> & _).
  by rewrite Hcounter.
Qed.

Lemma no_grey_123 : no_grey_entry (one_line [mkPixel 1 2 3; mkPixel 1 2 3]).
Proof.
  intros i g Hi. cbn in Hi.
  assert (get_pixel (one_line [mkPixel 1 2 3; mkPixel 1 2 3]) 0 i = mkPixel 1 2 3) as ->.
  { destruct i as [|[|i]]; [done | done | lia]. }
  unfold pixel_match. cbn [red green blue].
  destruct (Z.eqb_spec g 1) as [->|]; [|done].
  done.
Qed.

(** C4 (the code departs from the claim): the merge of process-a_tc2.c is
    a worksharing loop, so each counter receives the [local] cell of one
    thread only.  On two rows of 1000 pixels (1,2,3), two threads and
    static schedules, every counter gets the matches of one row:
    [1000; 1000] where the atomic variant process-a_tc3 counts
    [2000; 2000]. *)
Theorem workshared_merge_drops_counts :
  valid_runtime (static_runtime 2 zero_pixel) /\
  counter (process_a_tc3 (static_runtime 2 zero_pixel) two_full_rows) = [2000; 2000] /\
  counter (process_a_tc2 (static_runtime 2 zero_pixel) two_full_rows) = [1000; 1000].
Proof.
  split; [apply static_runtime_valid; lia|]. unfold two_full_rows. split.
  - rewrite (tc3_two_uniform_rows _ _ _ _ _ 0 1 no_grey_123) by reflexivity.
    vm_compute. reflexivity.
  - rewrite (tc2_two_uniform_rows _ _ _ _ _ no_grey_123) by reflexivity.
    vm_compute. reflexivity.
Qed.


(** ** Worksharing loops of commuting iterations *)

Lemma foldl_permutation_comm {A B : Type} (f : A -> B -> A) (l1 l2 : list B) :
  (forall a x y, f (f a x) y = f (f a y) x) ->
  l1 ≡ₚ l2 -> forall a, foldl f a l1 = foldl f a l2.
Proof.
  intros Hcomm Hperm. induction Hperm as [|x l l' _ IH|x y l|l l' l'' _ IH1 _ IH2];
    intros a; simpl.
  - done.
  - apply IH.
  - by rewrite Hcomm.
  - by rewrite IH1, IH2.
Qed.

Lemma bump_comm (i j : nat) (c : list Z) : bump i (bump j c) = bump j (bump i c).
Proof.
  destruct (decide (i = j)) as [->|Hne]; [done|].
  unfold bump. rewrite !list_lookup_total_insert_ne by done.
  by apply list_insert_insert_ne.
Qed.

(** The counters after a search loop that tests [m i] at index [i]. *)
Lemma count_step_comm (m : nat -> bool) (c : list Z) (i j : nat) :
  (fun c i => if m i then bump i c else c) ((fun c i => if m i then bump i c else c) c i) j
  = (fun c i => if m i then bump i c else c) ((fun c i => if m i then bump i c else c) c j) i.
Proof.
  simpl. destruct (m i), (m j); try done. apply bump_comm.
Qed.

Lemma hits_foldl (v : Pixel) (srch : Image.t) (c : list Z) :
  hits v srch c
  = foldl (fun c i => if pixel_match v (get_pixel srch 0 i) then bump i c else c) c
      (seq 0 (Image.length srch)).
Proof. unfold hits, for_range. by rewrite for_loop_foldl, Nat.sub_0_r. Qed.

(** ** process-b_tc2: the team against the reference *)

Lemma search_loop_eq (l p : nat) (st : State) :
  search_loop l p st
  = mkState (img st) (search st) (hits (get_pixel (img st) l p) (search st) (counter st)).
Proof.
  pose proof (search_loop_frame l p st) as [Hi Hs].
  pose proof (search_loop_counter l p st) as Hc.
  destruct (search_loop l p st); simpl in *. congruence.
Qed.

Lemma tc2_search_fold (sched : Schedule) (priv : Private) (st : State) :
  omp_for sched (tc2_search_body priv) st
  = mkState (img st) (search st)
      (foldl (fun c it => if pixel_match (priv it.2) (get_pixel (search st) 0 it.1)
                          then bump it.1 c else c)
             (counter st) sched).
Proof.
  unfold omp_for. revert st. induction sched as [|it sched IH]; intros st.
  - by destruct st.
  - cbn [foldl]. rewrite IH. unfold tc2_search_body.
    by destruct (pixel_match _ _).
Qed.

(** A worksharing search loop in which every executing thread holds [v]
    counts what the sequential loop for [v] counts. *)
Lemma tc2_search_coherent (T : nat) (sched : Schedule) (priv : Private) (v : Pixel)
    (st : State) :
  valid_schedule T (Image.length (search st)) sched ->
  Forall (fun it => priv it.2 = v) sched ->
  omp_for sched (tc2_search_body priv) st
  = mkState (img st) (search st) (hits v (search st) (counter st)).
Proof.
  intros [Hperm _] Hpriv. rewrite tc2_search_fold. f_equal.
  rewrite hits_foldl.
  rewrite <- (foldl_permutation_comm _ _ _ (count_step_comm _) Hperm).
  rewrite foldl_fmap. clear Hperm.
  generalize (counter st) as c. induction Hpriv as [|it sched Hit _ IH]; intros c; [done|].
  cbn [foldl]. rewrite Hit. apply IH.
Qed.

Lemma tc2_pixel_cycle_img (rt : Runtime) (p : nat) (st : State) :
  img (tc2_pixel_cycle rt p st) = transform 0 p (img st) /\
  search (tc2_pixel_cycle rt p st) = search st.
Proof.
  unfold tc2_pixel_cycle. rewrite !tc2_search_fold. cbn [img search].
  by rewrite transform_guarded_eq.
Qed.

(** The grid of process-b_tc2 is the grid of the reference, whatever the
    runtime does. *)
Lemma process_b_tc2_grid (rt : Runtime) (st : State) :
  img (process_b_tc2 rt st) = img (process_b st).
Proof.
  unfold process_b_tc2, process_b, for_range.
  rewrite (for_loop_project img (tc2_pixel_cycle rt) (transform 0))
    by (intros; apply tc2_pixel_cycle_img).
  by rewrite (for_loop_project img pixel_body (transform 0)) by apply pixel_body_img.
Qed.

Lemma one_thread_schedule (rt : Runtime) (k n : nat) :
  valid_runtime rt -> nthreads rt = 1%nat ->
  single_thread rt k = 0%nat /\
  valid_schedule 1 n (for_schedule rt k n) /\
  Forall (fun it => it.2 = 0%nat) (for_schedule rt k n).
Proof.
  intros (_ & Hsingle & Hfor & _) HT. rewrite HT in *.
  split; [specialize (Hsingle k); lia|]. split; [apply Hfor|].
  destruct (Hfor k n) as [_ Hthreads].
  eapply Forall_impl; [exact Hthreads|]. simpl. intros it Hit. lia.
Qed.

Lemma tc2_pixel_cycle_one_thread (rt : Runtime) (p : nat) (st : State) :
  valid_runtime rt -> nthreads rt = 1%nat ->
  tc2_pixel_cycle rt p st = pixel_body p st.
Proof.
  intros Hrt HT. unfold tc2_pixel_cycle, pixel_body.
  destruct (one_thread_schedule rt (3 * p) 0 Hrt HT) as (-> & _).
  destruct (one_thread_schedule rt (3 * p + 2) 0 Hrt HT) as (-> & _).
  destruct (one_thread_schedule rt (2 * p) (Image.length (search st)) Hrt HT)
    as (_ & V0 & F0).
  rewrite (tc2_search_coherent 1 _ _ (get_pixel (img st) 0 p) st V0).
  2:{ eapply Forall_impl; [exact F0|]. intros it ->. reflexivity. }
  cbn [img search counter].
  destruct (one_thread_schedule rt (2 * p + 1) (Image.length (search st)) Hrt HT)
    as (_ & V1 & F1).
  set (st1 := mkState (transform_guarded 0 p (img st)) _ _).
  rewrite (tc2_search_coherent 1 _ _ (get_pixel (img st1) 0 p) st1 V1).
  2:{ eapply Forall_impl; [exact F1|]. intros it ->. reflexivity. }
  rewrite (search_loop_eq 0 p st). unfold transform_state. cbn [img search counter].
  rewrite search_loop_eq. cbn [img search counter].
  unfold st1. cbn [img search counter]. by rewrite transform_guarded_eq.
Qed.


(** ** Tiles cover the search list *)




Lemma foldl_bind {A B C : Type} (f : A -> C -> A) (g : B -> list C) (l : list B) (a : A) :
  foldl f a (l ≫= g) = foldl (fun a x => foldl f a (g x)) a l.
Proof.
  revert a. induction l as [|x l IH]; intros a; [done|].
  rewrite bind_cons, foldl_app. apply IH.
Qed.

(** ** process-b_tc4: one thread against the reference *)

Lemma bump_local_comm (t i j : nat) (ls : list (list Z)) :
  bump_local t i (bump_local t j ls) = bump_local t j (bump_local t i ls).
Proof.
  destruct (decide (t < List.length ls)%nat) as [Ht|Ht].
  - unfold bump_local. rewrite !list_lookup_total_insert_eq by done.
    rewrite !list_insert_insert_eq. by rewrite bump_comm.
  - unfold bump_local. by rewrite !(list_insert_ge ls) by lia.
Qed.

Lemma local_step_comm (t : nat) (m : nat -> bool) (ls : list (list Z)) (i j : nat) :
  (fun ls i => if m i then bump_local t i ls else ls)
    ((fun ls i => if m i then bump_local t i ls else ls) ls i) j
  = (fun ls i => if m i then bump_local t i ls else ls)
      ((fun ls i => if m i then bump_local t i ls else ls) ls j) i.
Proof.
  simpl. destruct (m i), (m j); try done. apply bump_local_comm.
Qed.

Lemma tile_body_fold (TILE_I : nat) (priv : Private) (t tb : nat) (ts : TeamState) :
  tile_body TILE_I priv t tb ts
  = mkTeam (shared ts)
      (foldl (fun ls i => if pixel_match (priv t) (get_pixel (search (shared ts)) 0 i)
                          then bump_local t i ls else ls)
             (locals ts)
             (tile_range TILE_I (Image.length (search (shared ts))) tb)).
Proof.
  unfold tile_body, tile_range, for_range.
  set (n := (_ - _)%nat). generalize n as k. generalize (tb * TILE_I)%nat as lo.
  clear n. intros lo k. rewrite for_loop_foldl.
  generalize (seq lo k) as l. intros l. revert ts.
  induction l as [|i l IH]; intros ts; [by destruct ts|].
  cbn [foldl]. rewrite IH. by destruct (pixel_match _ _).
Qed.



Lemma for_loop_rel {A B : Type} (R : A -> B -> Prop) (f : nat -> A -> A) (g : nat -> B -> B)
    (n lo : nat) (a : A) (b : B) :
  R a b ->
  (forall i a' b', R a' b' -> R (f i a') (g i b')) ->
  R (for_loop n lo f a) (for_loop n lo g b).
Proof.
  intros Hab Hstep. revert lo a b Hab.
  induction n as [|n IH]; intros lo a b Hab; simpl; [done|].
  apply IH. by apply Hstep.
Qed.

Lemma bump_counters_ok (n i : nat) (c : list Z) : counters_ok n c -> counters_ok n (bump i c).
Proof.
  intros [Hlen Hrange]. unfold bump. split; [by rewrite length_insert|].
  apply Forall_insert; [done|]. unfold ulong_incr, wrap64.
  apply Z.mod_pos_bound. lia.
Qed.

Lemma hits_counters_ok (n : nat) (v : Pixel) (srch : Image.t) (c : list Z) :
  counters_ok n c -> counters_ok n (hits v srch c).
Proof.
  intros H. unfold hits. apply for_range_inv; [done|].
  intros i c' _ Hc'. destruct (pixel_match _ _); [by apply bump_counters_ok | done].
Qed.

Lemma zeros_counters_ok (n : nat) : counters_ok n (replicate n 0).
Proof.
  split; [apply length_replicate|]. apply Forall_replicate. lia.
Qed.

Lemma pixel_body_eq (p : nat) (st : State) :
  pixel_body p st
  = mkState (transform 0 p (img st)) (search st)
      (hits (get_pixel (transform 0 p (img st)) 0 p) (search st)
         (hits (get_pixel (img st) 0 p) (search st) (counter st))).
Proof.
  unfold pixel_body. rewrite (search_loop_eq 0 p st).
  unfold transform_state. cbn [img search counter].
  by rewrite search_loop_eq.
Qed.

Lemma pixel_body_counters_ok (n p : nat) (st : State) :
  counters_ok n (counter st) -> counters_ok n (counter (pixel_body p st)).
Proof.
  intros H. rewrite pixel_body_eq. cbn [counter]. by do 2 apply hits_counters_ok.
Qed.



(** The merge loop of one thread, cell by cell. *)
Lemma merge_loop_lookup (l : list Z) (n lo : nat) (c : list Z) (j : nat) :
  for_loop n lo (fun i c => <[i := ulong_add (c !!! i) (l !!! i)]> c) c !! j
  = if decide (lo <= j < lo + n)%nat
    then (fun x => ulong_add x (l !!! j)) <$> c !! j
    else c !! j.
Proof.
  revert lo c. induction n as [|n IH]; intros lo c; simpl.
  - by rewrite decide_False by lia.
  - rewrite IH. destruct (decide (j = lo)) as [->|Hne].
    + rewrite decide_False, decide_True by lia.
      destruct (c !! lo) as [x|] eqn:E.
      * rewrite list_lookup_insert_eq by (by eapply lookup_lt_Some).
        by rewrite (list_lookup_total_correct _ _ _ E).
      * rewrite list_insert_ge by (by apply lookup_ge_None). by rewrite E.
    + rewrite list_lookup_insert_ne by done.
      destruct (decide (S lo <= j < S lo + n)%nat), (decide (lo <= j < lo + S n)%nat);
        try lia; done.
Qed.

Lemma merge_all_eq (t : nat) (ts : TeamState) :
  merge_all t ts
  = mkTeam (mkState (img (shared ts)) (search (shared ts))
              (for_loop (Image.length (search (shared ts))) 0
                 (fun i c => <[i := ulong_add (c !!! i) ((locals ts !!! t) !!! i)]> c)
                 (counter (shared ts))))
           (locals ts).
Proof.
  unfold merge_all, for_range. rewrite Nat.sub_0_r.
  generalize (Image.length (search (shared ts))) as n. generalize 0%nat as lo.
  intros lo n. revert lo ts. induction n as [|n IH]; intros lo ts; simpl.
  - by destruct ts as [[] ?].
  - rewrite IH. reflexivity.
Qed.

Lemma merge_into_zeros (n : nat) (l : list Z) :
  counters_ok n l ->
  for_loop n 0 (fun i c => <[i := ulong_add (c !!! i) (l !!! i)]> c) (replicate n 0) = l.
Proof.
  intros [Hlen Hrange]. apply list_eq. intros j. rewrite merge_loop_lookup.
  destruct (decide (0 <= j < 0 + n)%nat) as [Hj|Hj].
  - rewrite lookup_replicate_2 by lia. simpl.
    destruct (lookup_lt_is_Some_2 l j ltac:(lia)) as [x Hx].
    rewrite (list_lookup_total_correct _ _ _ Hx), Hx. f_equal.
    rewrite Forall_lookup in Hrange. specialize (Hrange j x Hx).
    unfold ulong_add, wrap64. rewrite Z.add_0_l. by apply Z.mod_small.
  - rewrite (proj1 (lookup_replicate_None n 0 j)) by lia.
    symmetry. apply lookup_ge_None. lia.
Qed.


(** ** Merging thread-local counts *)

Lemma wrap64_add_l (a b : Z) : wrap64 (wrap64 a + b) = wrap64 (a + b).
Proof. unfold wrap64. by rewrite Zplus_mod_idemp_l. Qed.

Lemma wrap64_add_r (a b : Z) : wrap64 (a + wrap64 b) = wrap64 (a + b).
Proof. unfold wrap64. by rewrite Zplus_mod_idemp_r. Qed.

Lemma cell_total_insert (ls : list (list Z)) (t j : nat) (l' : list Z) :
  (t < List.length ls)%nat ->
  cell_total (<[t := l']> ls) j = cell_total ls j - (ls !!! t) !!! j + l' !!! j.
Proof.
  revert t. induction ls as [|l ls IH]; intros t Ht; simpl in Ht; [lia|].
  destruct t as [|t]; simpl.
  - change ((l :: ls) !!! 0%nat) with l. lia.
  - change ((l :: ls) !!! S t) with (ls !!! t).
    fold (cell_total (<[t := l']> ls) j). fold (cell_total ls j).
    rewrite IH by lia. lia.
Qed.

Lemma cell_total_zeros (T n j : nat) :
  (j < n)%nat -> cell_total (calloc_locals T n) j = 0.
Proof.
  intros Hj. unfold calloc_locals. induction T as [|T IH]; simpl; [done|].
  fold (cell_total (replicate T (replicate n 0)) j). rewrite IH.
  by rewrite lookup_total_replicate_2.
Qed.

Lemma bump_adds_up (n T : nat) (c0 : list Z) (ts : TeamState) (st : State) (t i : nat) :
  (t < T)%nat ->
  adds_up n T c0 ts st ->
  adds_up n T c0 (mkTeam (shared ts) (bump_local t i (locals ts)))
                 (mkState (img st) (search st) (bump i (counter st))).
Proof.
  intros Ht (Hi & Hs & Hc & HT & Hlens & Hlen & Hn & Hsum).
  unfold adds_up. cbn [shared locals img search counter].
  assert (Hlt : List.length (locals ts !!! t) = n).
  { rewrite Forall_lookup in Hlens. apply (Hlens t).
    apply list_lookup_lookup_total_lt. lia. }
  do 3 (split; [done|]).
  split; [unfold bump_local; by rewrite length_insert|].
  split.
  { unfold bump_local. apply Forall_insert; [done|].
    unfold bump. by rewrite length_insert. }
  split; [unfold bump; by rewrite length_insert|].
  split; [done|].
  intros j Hj. unfold bump_local. rewrite cell_total_insert by lia.
  unfold bump. destruct (decide (j = i)) as [->|Hne].
  - rewrite !list_lookup_total_insert_eq by lia.
    rewrite Hsum by done. unfold ulong_incr.
    rewrite wrap64_add_l, !Z.add_assoc, wrap64_add_r. f_equal. lia.
  - rewrite !list_lookup_total_insert_ne by done.
    rewrite Hsum by done. f_equal. lia.
Qed.

Lemma search_bodies_add_up (n T : nat) (c0 : list Z) (t l p i : nat) (ts : TeamState)
    (st : State) :
  (t < T)%nat -> adds_up n T c0 ts st ->
  adds_up n T c0 (local_search_body t l p i ts) (search_body l p i st).
Proof.
  intros Ht H. pose proof H as (Hi & Hs & _).
  unfold local_search_body, search_body. rewrite Hi, Hs.
  destruct (pixel_match _ _); [|done].
  by apply bump_adds_up.
Qed.

Lemma search_loops_add_up (n T : nat) (c0 : list Z) (t l p : nat) (ts : TeamState)
    (st : State) :
  (t < T)%nat -> adds_up n T c0 ts st ->
  adds_up n T c0 (local_search_loop t l p ts) (search_loop l p st).
Proof.
  intros Ht H. pose proof H as (_ & Hs & _).
  unfold local_search_loop, search_loop, for_range. rewrite Hs.
  apply for_loop_rel; [done|]. intros i a b. by apply search_bodies_add_up.
Qed.

Lemma transforms_add_up (n T : nat) (c0 : list Z) (l p : nat) (ts : TeamState) (st : State) :
  adds_up n T c0 ts st ->
  adds_up n T c0 (transform_guarded_team l p ts) (transform_guarded_state l p st).
Proof.
  intros (Hi & Hs & Hc & HT & Hlens & Hlen & Hn & Hsum).
  unfold adds_up, transform_guarded_team, transform_guarded_state.
  cbn [shared locals img search counter]. by rewrite Hi.
Qed.

Lemma columns_add_up (n T : nat) (c0 : list Z) (t l p : nat) (ts : TeamState) (st : State) :
  (t < T)%nat -> adds_up n T c0 ts st ->
  adds_up n T c0 (tc2_column t l p ts) (tc3_column l p st).
Proof.
  intros Ht H. unfold tc2_column, tc3_column.
  by apply search_loops_add_up, transforms_add_up, search_loops_add_up.
Qed.

Lemma rows_add_up (n T : nat) (c0 : list Z) (t l : nat) (ts : TeamState) (st : State) :
  (t < T)%nat -> adds_up n T c0 ts st ->
  adds_up n T c0 (tc2_row_body t l ts) (tc3_row_body l st).
Proof.
  intros Ht H. pose proof H as (Hi & _).
  unfold tc2_row_body, tc3_row_body, for_range. rewrite Hi.
  apply for_loop_rel; [done|]. intros p a b. by apply columns_add_up.
Qed.

Lemma row_loops_add_up (n T : nat) (c0 : list Z) (sched : Schedule) (ts : TeamState)
    (st : State) :
  Forall (fun it => (it.2 < T)%nat) sched ->
  adds_up n T c0 ts st ->
  adds_up n T c0 (tc2_rows sched ts) (omp_for sched (fun _ l st => tc3_row_body l st) st).
Proof.
  intros Hsched. unfold tc2_rows, omp_for. revert ts st.
  induction Hsched as [|it sched Hit _ IH]; intros ts st H; [done|].
  cbn [foldl]. apply IH. by apply rows_add_up.
Qed.

(** The critical merges, thread after thread. *)
Lemma merge_all_lookup (t : nat) (ts : TeamState) (j : nat) :
  (j < Image.length (search (shared ts)))%nat ->
  counter (shared (merge_all t ts)) !! j
  = (fun x => ulong_add x ((locals ts !!! t) !!! j)) <$> counter (shared ts) !! j.
Proof.
  intros Hj. rewrite merge_all_eq. cbn [shared counter].
  rewrite merge_loop_lookup. by rewrite decide_True by lia.
Qed.

Lemma merge_all_frame (t : nat) (ts : TeamState) :
  img (shared (merge_all t ts)) = img (shared ts) /\
  search (shared (merge_all t ts)) = search (shared ts) /\
  locals (merge_all t ts) = locals ts /\
  List.length (counter (shared (merge_all t ts))) = List.length (counter (shared ts)).
Proof.
  rewrite merge_all_eq. cbn [shared locals img search counter].
  do 3 (split; [done|]).
  apply (for_loop_inv (fun c => List.length c = List.length (counter (shared ts)))); [done|].
  intros i c _ H. by rewrite length_insert.
Qed.

Lemma merges_frame (order : list nat) (ts : TeamState) :
  let ts' := foldl (fun ts t => merge_all t ts) ts order in
  img (shared ts') = img (shared ts) /\
  search (shared ts') = search (shared ts) /\
  List.length (counter (shared ts')) = List.length (counter (shared ts)).
Proof.
  revert ts. induction order as [|t order IH]; intros ts; [done|].
  cbn [foldl]. destruct (IH (merge_all t ts)) as (-> & -> & ->).
  by destruct (merge_all_frame t ts) as (-> & -> & _ & ->).
Qed.

Lemma merges_lookup (order : list nat) (ts : TeamState) (j : nat) (x : Z) :
  (j < Image.length (search (shared ts)))%nat ->
  counter (shared ts) !! j = Some x ->
  counter (shared (foldl (fun ts t => merge_all t ts) ts order)) !! j
  = Some (foldl (fun acc t => ulong_add acc ((locals ts !!! t) !!! j)) x order).
Proof.
  revert ts x. induction order as [|t order IH]; intros ts x Hj Hx; [done|].
  cbn [foldl]. destruct (merge_all_frame t ts) as (_ & Hs & Hl & _).
  rewrite (IH (merge_all t ts) (ulong_add x ((locals ts !!! t) !!! j))).
  - by rewrite Hl.
  - by rewrite Hs.
  - by rewrite merge_all_lookup, Hx.
Qed.

Lemma fold_ulong_add (g : nat -> Z) (order : list nat) (x : Z) :
  0 <= x < 2 ^ 64 ->
  foldl (fun acc t => ulong_add acc (g t)) x order
  = wrap64 (x + foldr (fun t acc => g t + acc) 0 order).
Proof.
  revert x. induction order as [|t order IH]; intros x Hx; simpl.
  - rewrite Z.add_0_r. unfold wrap64. by rewrite Z.mod_small.
  - rewrite IH.
    + unfold ulong_add. rewrite wrap64_add_l. f_equal. lia.
    + unfold ulong_add, wrap64. apply Z.mod_pos_bound. lia.
Qed.

Lemma order_total_perm (ls : list (list Z)) (order order' : list nat) (j : nat) :
  order ≡ₚ order' -> order_total ls order j = order_total ls order' j.
Proof.
  unfold order_total.
  induction 1 as [|t o o' _ IH|t t' o|o o' o'' _ IH1 _ IH2]; simpl; lia.
Qed.

Lemma order_total_seq (pre ls : list (list Z)) (j : nat) :
  order_total (pre ++ ls) (seq (List.length pre) (List.length ls)) j = cell_total ls j.
Proof.
  revert pre. induction ls as [|l ls IH]; intros pre; [done|].
  simpl. rewrite list_lookup_total_middle by done. f_equal.
  specialize (IH (pre ++ [l])). rewrite <- app_assoc, length_app in IH. simpl in IH.
  rewrite Nat.add_1_r in IH. exact IH.
Qed.

Lemma order_total_all (ls : list (list Z)) (order : list nat) (j : nat) :
  order ≡ₚ seq 0 (List.length ls) -> order_total ls order j = cell_total ls j.
Proof.
  intros H. rewrite (order_total_perm _ _ _ _ H). apply (order_total_seq [] ls).
Qed.

(** C4, the part that holds: when every thread adds all of its [local]
    array to the shared counters (the merge of process-b_tc3.c and
    process-a_tc4.c), the thread-local variant ends in the state of the
    atomic variant, for every team and schedule. *)
Lemma process_a_merge_each_eq_tc3 (rt : Runtime) (st : State) :
  valid_runtime rt ->
  counters_ok (Image.length (search st)) (counter st) ->
  process_a_merge_each rt st = process_a_tc3 rt st.
Proof.
  intros (HT & _ & Hfor & Hcrit) [Hlen Hrange].
  unfold process_a_merge_each, process_a_tc3.
  set (n := Image.length (search st)) in *. set (T := nthreads rt) in *.
  set (sched := for_schedule rt 0 (Image.lines (img st))).
  assert (H0 : adds_up n T (counter st) (mkTeam st (calloc_locals T n)) st).
  { unfold adds_up. cbn [shared locals]. do 3 (split; [done|]).
    split; [apply length_replicate|].
    split; [apply Forall_replicate, length_replicate|].
    do 2 (split; [done|]).
    intros j Hj. rewrite cell_total_zeros, Z.add_0_r by done.
    unfold wrap64. symmetry. apply Z.mod_small.
    rewrite Forall_lookup in Hrange. apply (Hrange j).
    apply list_lookup_lookup_total_lt. lia. }
  pose proof (row_loops_add_up n T (counter st) sched _ _ (proj2 (Hfor 0%nat _)) H0)
    as (Hi & Hs & Hc & HlT & Hlens & Hlen' & Hn & Hsum).
  set (ts1 := tc2_rows sched _) in *.
  set (st1 := omp_for sched _ st) in *.
  destruct (merges_frame (critical_order rt) ts1) as (Hmi & Hms & Hml).
  cbn zeta in Hmi, Hms, Hml.
  set (final := shared (foldl _ ts1 (critical_order rt))) in *.
  assert (Hcounter : counter final = counter st1).
  { apply list_eq. intros j. destruct (decide (j < n)%nat) as [Hj|Hj].
    - unfold final.
      rewrite (merges_lookup _ ts1 j (counter st !!! j)).
      + rewrite fold_ulong_add.
        * fold (order_total (locals ts1) (critical_order rt) j).
          rewrite order_total_all by (by rewrite HlT).
          rewrite <- Hsum by done. symmetry.
          apply list_lookup_lookup_total_lt. lia.
        * rewrite Forall_lookup in Hrange. apply (Hrange j).
          apply list_lookup_lookup_total_lt. lia.
      + rewrite Hs, Hn. done.
      + rewrite Hc. apply list_lookup_lookup_total_lt. lia.
    - rewrite !(proj2 (lookup_ge_None _ _)); [done | lia |].
      rewrite Hml, Hc. lia. }
  destruct final, st1. cbn in *. congruence.
Qed.

Lemma merge_cell_comm (t i j : nat) (ts : TeamState) :
  merge_cell t i (merge_cell t j ts) = merge_cell t j (merge_cell t i ts).
Proof.
  destruct (decide (i = j)) as [->|Hne]; [done|].
  unfold merge_cell. cbn [shared locals img search counter]. do 2 f_equal.
  rewrite !list_lookup_total_insert_ne by done.
  by apply list_insert_insert_ne.
Qed.

(** With one thread the worksharing merge is the merge of that thread. *)
Lemma tc2_merge_one_thread (sched : Schedule) (ts : TeamState) :
  valid_schedule 1 (Image.length (search (shared ts))) sched ->
  Forall (fun it => it.2 = 0%nat) sched ->
  tc2_merge sched ts = merge_all 0 ts.
Proof.
  intros [Hperm _] Hzero. unfold tc2_merge, omp_for, merge_all, for_range.
  rewrite Nat.sub_0_r, for_loop_foldl.
  rewrite <- (foldl_permutation_comm (fun s i => merge_cell 0 i s) _ _
                (fun a x y => merge_cell_comm 0 y x a) Hperm).
  rewrite foldl_fmap. clear Hperm. generalize ts as s.
  induction Hzero as [|it sched Hit _ IH]; intros s; [done|].
  cbn [foldl]. rewrite Hit. apply IH.
Qed.

Lemma tc2_rows_search (sched : Schedule) (ts : TeamState) :
  search (shared (tc2_rows sched ts)) = search (shared ts).
Proof.
  unfold tc2_rows, omp_for. revert ts.
  induction sched as [|it sched IH]; intros ts; [done|].
  cbn [foldl]. rewrite IH.
  by destruct (tc2_row_body_frame it.2 it.1 ts) as (_ & -> & _).
Qed.

(** C4, the part that holds: with a team of one thread the two variants
    end in the same state. *)
Lemma process_a_tc2_one_thread (rt : Runtime) (st : State) :
  valid_runtime rt -> nthreads rt = 1%nat ->
  counters_ok (Image.length (search st)) (counter st) ->
  process_a_tc2 rt st = process_a_tc3 rt st.
Proof.
  intros Hrt HT Hok. rewrite <- (process_a_merge_each_eq_tc3 rt st Hrt Hok).
  unfold process_a_tc2, process_a_merge_each.
  assert (Hcrit : critical_order rt = [0%nat]).
  { destruct Hrt as (_ & _ & _ & Hperm). rewrite HT in Hperm.
    by apply Permutation_singleton_r in Hperm. }
  rewrite Hcrit. cbn [foldl]. f_equal.
  destruct (one_thread_schedule rt 1 (Image.length (search st)) Hrt HT) as (_ & V & F).
  apply tc2_merge_one_thread; [|done].
  by rewrite tc2_rows_search.
Qed.

(** ** The counts of a row are what its iteration adds *)

Lemma adds_up_init (T : nat) (st : State) :
  counters_ok (Image.length (search st)) (counter st) ->
  adds_up (Image.length (search st)) T (counter st)
          (mkTeam st (calloc_locals T (Image.length (search st)))) st.
Proof.
  intros [Hlen Hrange]. unfold adds_up. cbn [shared locals]. do 3 (split; [done|]).
  split; [apply length_replicate|].
  split; [apply Forall_replicate, length_replicate|].
  do 2 (split; [done|]).
  intros j Hj. rewrite cell_total_zeros, Z.add_0_r by done.
  unfold wrap64. symmetry. apply Z.mod_small.
  rewrite Forall_lookup in Hrange. apply (Hrange j).
  apply list_lookup_lookup_total_lt. lia.
Qed.

Lemma row_counts_eq (srch im : Image.t) (l : nat) (row : list Pixel) :
  Image.pixels im !! l = Some row ->
  Image.linesize im = List.length row ->
  row_counts srch im l
  = (row_counts_from srch row (replicate (Image.length srch) 0)).2.
Proof.
  intros Hrow Hsize. rewrite (row_counts_row srch im l row Hrow Hsize).
  unfold row_pass, row_counts_from, calloc_locals. simpl replicate.
  rewrite column_pass_counts by (simpl; lia). done.
Qed.

(** The iteration of row [l] on thread [t] adds [row_counts] to the
    [local] array of [t], cell by cell. *)
Lemma row_body_adds_row_counts (t l : nat) (ts : TeamState) (row : list Pixel) (j : nat) :
  let srch := search (shared ts) in
  Image.pixels (img (shared ts)) !! l = Some row ->
  Image.linesize (img (shared ts)) = List.length row ->
  (t < List.length (locals ts))%nat ->
  counters_ok (Image.length srch) (locals ts !!! t) ->
  (j < Image.length srch)%nat ->
  (locals (tc2_row_body t l ts) !!! t) !!! j
  = ulong_add ((locals ts !!! t) !!! j) (row_counts srch (img (shared ts)) l !!! j).
Proof.
  intros srch Hrow Hsize Ht Hok Hj.
  rewrite (tc2_row_body_counts t l ts row Hrow Hsize Ht).
  rewrite list_lookup_total_insert_eq by done. fold srch.
  set (c := locals ts !!! t) in *.
  set (st := mkState (img (shared ts)) srch c).
  pose proof (tc3_row_body_counts l st row Hrow Hsize) as E. cbn [search counter st] in E.
  rewrite <- E.
  pose proof (rows_add_up _ 1 _ 0 l _ _ ltac:(lia) (adds_up_init 1 st Hok))
    as (_ & _ & _ & _ & _ & _ & _ & Hsum).
  cbn [search counter st] in Hsum. rewrite (Hsum j Hj).
  assert (Hl : locals (tc2_row_body 0 l (mkTeam st (calloc_locals 1 (Image.length srch))))
               = [row_counts srch (img (shared ts)) l]).
  { rewrite (tc2_row_body_counts 0 l (mkTeam st (calloc_locals 1 (Image.length srch)))
               row Hrow Hsize) by (simpl; lia).
    cbn [shared search locals st]. unfold calloc_locals. simpl replicate.
    change ([replicate (Image.length srch) 0] !!! 0%nat)
      with (replicate (Image.length srch) 0).
    by rewrite (row_counts_eq srch _ l row Hrow Hsize). }
  rewrite Hl. unfold cell_total, ulong_add. simpl. by rewrite Z.add_0_r.
Qed.

(** ** The unchecked allocation, in general *)

Lemma bind_ok {A B : Type} (tr : list Event) (a : A) (k : A -> Run B) :
  ((tr, Ok a) ≫= k) = (tr ++ (k a).1, (k a).2).
Proof. unfold mbind, Run_bind, bind. by destruct (k a). Qed.

(** Whenever both files load, the search list is not empty and the
    allocation of the counters fails, process-b ends in the store through
    the null pointer, with nothing on stderr. *)
Lemma main_b_null_counter (env : Env) (av : list string) (tr1 tr2 : list Event)
    (im srch : Image.t) :
  (3 <= List.length av)%nat ->
  LoadFile env GridImage (av !! 1%nat) 0 = (tr1, Ok im) ->
  LoadFile env SearchImage (av !! 3%nat) 0 = (tr2, Ok srch) ->
  malloc_null env Counters = true ->
  (0 < Image.length srch)%nat ->
  main_b env av = (tr1 ++ tr2, Undefined "store through a null pointer").
Proof.
  intros Hac H1 H2 Hnull Hlen. unfold main_b.
  replace (List.length av <? 3)%nat with false by (symmetry; apply Nat.ltb_ge; lia).
  rewrite H1, bind_ok, H2, bind_ok.
  rewrite (alloc_counter_unchecked_null env _ Hnull Hlen).
  cbn. by rewrite !app_nil_r.
Qed.

(** ** The read loop of [LoadFile] *)

Lemma fill_nil (lo : nat) (row : list Pixel) : fill [] lo row = row.
Proof.
  unfold fill. apply list_eq. intros p. rewrite list_lookup_imap.
  destruct (row !! p); [|done]. simpl. by destruct (lo <=? p)%nat.
Qed.

Ltac leb_cases :=
  repeat match goal with
         | |- context [(?a <=? ?b)%nat] => destruct (Nat.leb_spec a b); try lia
         end.

Lemma fill_cons (x : Pixel) (s : list Pixel) (lo : nat) (row : list Pixel) :
  (lo < List.length row)%nat ->
  fill s (S lo) (<[lo := x]> row) = fill (x :: s) lo row.
Proof.
  intros Hlo. unfold fill. apply list_eq. intros p. rewrite !list_lookup_imap.
  destruct (lt_eq_lt_dec p lo) as [[Hp| ->]|Hp].
  - rewrite list_lookup_insert_ne by lia. leb_cases. by destruct (row !! p).
  - rewrite list_lookup_insert_eq by done. leb_cases.
    destruct (lookup_lt_is_Some_2 row lo Hlo) as [old ->].
    by rewrite Nat.sub_diag.
  - rewrite list_lookup_insert_ne by lia. leb_cases.
    replace (p - lo)%nat with (S (p - S lo)) by lia. done.
Qed.

Lemma set_pixel_pixels (im : Image.t) (l p : nat) (x : Pixel) (row : list Pixel) :
  Image.pixels im !! l = Some row ->
  Image.pixels (set_pixel im l p x) = <[l := <[p := x]> row]> (Image.pixels im).
Proof. intros H. simpl. by rewrite (list_lookup_total_correct _ _ _ H). Qed.

(** One line of the read loop. *)
Lemma load_line (len l n lo : nat) (im : Image.t) (s : list Pixel) (row : list Pixel) :
  (0 < len)%nat ->
  Image.pixels im !! l = Some row ->
  (lo + n <= List.length row)%nat ->
  exists im',
    for_loop n lo (load_pixel len l) (im, s, 0%nat) = (im', drop n s, 0%nat) /\
    same_shape im' im /\
    Image.pixels im' = <[l := fill (take n s) lo row]> (Image.pixels im).
Proof.
  intros Hlen. revert lo im s row.
  induction n as [|n IH]; intros lo im s row Hrow Hn.
  - exists im. simpl. rewrite take_0, drop_0, fill_nil.
    split; [done|]. split; [apply same_shape_refl|].
    symmetry. by apply list_insert_id.
  - cbn [for_loop]. unfold load_pixel at 2.
    replace (0 <? len)%nat with true by (symmetry; apply Nat.ltb_lt; lia).
    destruct s as [|x rest].
    + destruct (IH (S lo) im [] row Hrow ltac:(lia)) as (im' & E & Hshape & Hpix).
      exists im'. rewrite E. rewrite take_nil, fill_nil in Hpix.
      by rewrite take_nil, fill_nil, !drop_nil.
    + pose proof (set_pixel_row im l lo x row Hrow) as Hrow'.
      destruct (IH (S lo) (set_pixel im l lo x) rest (<[lo := x]> row) Hrow'
                  ltac:(rewrite length_insert; lia)) as (im' & E & Hshape & Hpix).
      exists im'. rewrite E. split; [done|].
      split; [eapply same_shape_trans; [exact Hshape | apply set_pixel_same_shape]|].
      rewrite Hpix, (set_pixel_pixels im l lo x row Hrow), list_insert_insert_eq.
      by rewrite fill_cons by lia.
Qed.

(** The lines [l0 .. l0+m-1] of the read loop. *)
Lemma load_lines (len w m l0 : nat) (im : Image.t) (s : list Pixel) :
  (0 < len)%nat ->
  (forall l, (l0 <= l < l0 + m)%nat ->
     exists row, Image.pixels im !! l = Some row /\ List.length row = w) ->
  exists im',
    for_loop m l0 (fun l => for_range 0 w (load_pixel len l)) (im, s, 0%nat)
      = (im', drop (m * w) s, 0%nat) /\
    same_shape im' im /\
    forall l, Image.pixels im' !! l
              = if decide (l0 <= l < l0 + m)%nat
                then fill (take w (drop ((l - l0) * w) s)) 0 <$> Image.pixels im !! l
                else Image.pixels im !! l.
Proof.
  intros Hlen. revert l0 im s. induction m as [|m IH]; intros l0 im s Hrows.
  - exists im. simpl. split; [done|]. split; [apply same_shape_refl|].
    intros l. by rewrite decide_False by lia.
  - destruct (Hrows l0 ltac:(lia)) as (row0 & Hrow0 & Hw0).
    destruct (load_line len l0 w 0 im s row0 Hlen Hrow0 ltac:(lia))
      as (im1 & E1 & Hshape1 & Hpix1).
    destruct (IH (S l0) im1 (drop w s)) as (im' & E & Hshape & Hpix).
    { intros l Hl. rewrite Hpix1, list_lookup_insert_ne by lia. apply Hrows. lia. }
    exists im'. cbn [for_loop]. unfold for_range at 2. rewrite Nat.sub_0_r, E1, E.
    split; [by rewrite drop_drop|].
    split; [eapply same_shape_trans; eassumption|].
    intros l. rewrite Hpix, Hpix1.
    destruct (decide (l = l0)) as [->|Hne].
    + rewrite decide_False, decide_True by lia.
      rewrite list_lookup_insert_eq by (by eapply lookup_lt_Some).
      by rewrite Hrow0, Nat.sub_diag.
    + rewrite list_lookup_insert_ne by done.
      destruct (decide (S l0 <= l < S l0 + m)%nat), (decide (l0 <= l < l0 + S m)%nat);
        try lia; [|done].
      rewrite drop_drop.
      replace (l - l0)%nat with (S (l - S l0)) by lia. done.
Qed.

Lemma alloc_lines_ok (env : Env) (which : ImageId) (w : nat) (init : InitialisationType)
    (n l0 : nat) :
  (forall l, malloc_null env (Line which l) = false) ->
  alloc_lines env which w init n l0
  = ([], Ok (map (fun l => map (initial_pixel env which w init l) (seq 0 w)) (seq l0 n))).
Proof.
  intros Hok. revert l0. induction n as [|n IH]; intros l0; [done|].
  cbn [alloc_lines]. by rewrite Hok, IH.
Qed.

Lemma fill_lookup_total (s row : list Pixel) (p : nat) :
  (p < List.length row)%nat ->
  fill s 0 row !!! p = default (row !!! p) (s !! p).
Proof.
  intros Hp. rewrite list_lookup_total_alt. unfold fill. rewrite list_lookup_imap.
  destruct (lookup_lt_is_Some_2 row p Hp) as [old Hold].
  rewrite Hold, (list_lookup_total_correct _ _ _ Hold). simpl.
  by rewrite Nat.sub_0_r.
Qed.

(** What [LoadFile] builds from a non-empty stream: the shape of
    [image_shape], the pixels of the stream in row-major order, and in
    the padding the contents of the allocated memory. *)
Lemma LoadFile_pixels (env : Env) (which : ImageId) (name : string) (data : list Pixel)
    (linesize : nat) :
  allocations_succeed env which ->
  file env name = Some data ->
  data <> [] ->
  exists im,
    LoadFile env which (Some name) linesize = ([FopenRead (Some name)], Ok im) /\
    (Image.lines im, Image.length im, Image.linesize im)
      = image_shape (List.length data) linesize /\
    forall l p, (l < Image.lines im)%nat -> (p < Image.linesize im)%nat ->
      get_pixel im l p = loaded_pixel env which data (Image.linesize im) l p.
Proof.
  intros [Hptr Hline] Hfile Hdata.
  unfold LoadFile. rewrite bind_emit. cbn [mbind option_bind]. rewrite Hfile.
  unfold ImageData.
  destruct (image_shape (List.length data) linesize) as [[lines len] w] eqn:Hshape.
  rewrite Hptr, alloc_lines_ok by done. rewrite bind_ok. cbn [fst snd].
  set (rows0 := map _ (seq 0 lines)).
  set (im0 := Image.mk len lines w rows0).
  unfold mret, Run_ret, ret. cbn [fst snd app].
  rewrite bind_ok. cbn [fst snd Image.lines Image.linesize im0].
  assert (Hrows0 : forall l, (l < lines)%nat ->
            Image.pixels im0 !! l
            = Some (map (initial_pixel env which w NONE l) (seq 0 w))).
  { intros l Hl. cbn. unfold rows0. rewrite list_lookup_fmap, lookup_seq_lt by done. done. }
  destruct (load_lines (List.length data) w lines 0 im0 data) as (im' & E & Hsh & Hpix).
  { destruct data; [done | simpl; lia]. }
  { intros l Hl. eexists. split; [apply Hrows0; lia|]. by rewrite length_map, length_seq. }
  assert (E' : for_range 0 lines (fun l => for_range 0 w (load_pixel (List.length data) l))
                 (im0, data, 0%nat) = (im', drop (lines * w) data, 0%nat)).
  { unfold for_range at 1. by rewrite Nat.sub_0_r. }
  rewrite E'. exists im'. cbn [fst snd app].
  destruct Hsh as (Hlen' & Hlines' & Hw' & _). cbn in Hlen', Hlines', Hw'.
  split; [done|]. split; [congruence|].
  intros l p Hl Hp. rewrite Hlines' in Hl. rewrite Hw' in *.
  unfold get_pixel. specialize (Hpix l). rewrite decide_True in Hpix by lia.
  rewrite (Hrows0 l Hl) in Hpix. simpl in Hpix.
  rewrite (list_lookup_total_correct _ _ _ Hpix).
  rewrite fill_lookup_total by (by rewrite length_map, length_seq).
  unfold loaded_pixel. rewrite Nat.sub_0_r, lookup_take_lt, lookup_drop by done.
  destruct (data !! (l * w + p)%nat); [done|]. simpl.
  rewrite list_lookup_total_alt, list_lookup_fmap, lookup_seq_lt by done. done.
Qed.

(** ** process-b_tc1: every team size and schedule *)

Lemma shared_search_fold (sched : Schedule) (l p : nat) (st : State) :
  omp_for sched (fun _ i st => search_body l p i st) st
  = omp_for sched (tc2_search_body (fun _ => get_pixel (img st) l p)) st.
Proof.
  unfold omp_for. set (v := get_pixel (img st) l p).
  assert (H : get_pixel (img st) l p = v) by done. clearbody v. revert st H.
  induction sched as [|it sched IH]; intros st H; [done|].
  cbn [foldl]. unfold search_body at 2, tc2_search_body at 2. rewrite H.
  destruct (pixel_match _ _); by apply IH.
Qed.

Lemma shared_search_loop (T : nat) (sched : Schedule) (l p : nat) (st : State) :
  valid_schedule T (Image.length (search st)) sched ->
  omp_for sched (fun _ i st => search_body l p i st) st = search_loop l p st.
Proof.
  intros V. rewrite shared_search_fold, search_loop_eq.
  apply (tc2_search_coherent T); [done|]. by apply Forall_forall.
Qed.

Lemma tc1_pixel_body_eq (rt : Runtime) (p : nat) (st : State) :
  valid_runtime rt -> tc1_pixel_body rt p st = pixel_body p st.
Proof.
  intros (_ & _ & Hfor & _). unfold tc1_pixel_body, pixel_body.
  rewrite (shared_search_loop (nthreads rt) _ 0 p st) by apply Hfor.
  destruct (search_loop_frame 0 p st) as [_ Hs]. rewrite <- Hs.
  set (st1 := search_loop 0 p st).
  change (Image.length (search st1))
    with (Image.length (search (transform_guarded_state 0 p st1))).
  rewrite (shared_search_loop (nthreads rt) _ 0 p (transform_guarded_state 0 p st1))
    by apply Hfor.
  unfold transform_guarded_state, transform_state. by rewrite transform_guarded_eq.
Qed.

(** X1: process-b_tc1, which reads the shared pixel in its two parallel
    search loops, ends in the state of the sequential reference (grid,
    search list and counters) for every team size and every schedule. *)
Theorem process_b_tc1_is_reference (rt : Runtime) (st : State) :
  valid_runtime rt -> process_b_tc1 rt st = process_b st.
Proof.
  intros Hrt. unfold process_b_tc1, process_b, for_range.
  apply for_loop_ext. intros p s' _. by apply tc1_pixel_body_eq.
Qed.

Lemma process_b_tc1_is_reference_witness :
  process_b_tc1 (static_runtime 2 zero_pixel) twin_search = process_b twin_search.
Proof.
  apply process_b_tc1_is_reference. apply static_runtime_valid. lia.
Defined.

(** ** The increments of a run *)

Lemma bump_all_app (c : list Z) (l1 l2 : list nat) :
  bump_all c (l1 ++ l2) = bump_all (bump_all c l1) l2.
Proof. apply foldl_app. Qed.

Lemma foldl_if_filter (m : nat -> bool) (l : list nat) (c : list Z) :
  foldl (fun c i => if m i then bump i c else c) c l = bump_all c (List.filter m l).
Proof.
  revert c. induction l as [|i l IH]; intros c; [done|].
  cbn [foldl List.filter]. destruct (m i); apply IH.
Qed.

Lemma hits_trace (v : Pixel) (srch : Image.t) (c : list Z) :
  hits v srch c = bump_all c (hit_indices v srch).
Proof. rewrite hits_foldl. apply foldl_if_filter. Qed.

Lemma bump_lookup (j i : nat) (c : list Z) :
  bump j c !! i = if decide (i = j) then ulong_incr <$> c !! i else c !! i.
Proof.
  unfold bump. destruct (decide (i = j)) as [->|Hne].
  - destruct (c !! j) as [x|] eqn:E.
    + rewrite list_lookup_insert_eq by (by eapply lookup_lt_Some).
      by rewrite (list_lookup_total_correct _ _ _ E).
    + rewrite list_insert_ge by (by apply lookup_ge_None). by rewrite E.
  - by rewrite list_lookup_insert_ne.
Qed.

Lemma bump_all_lookup (l : list nat) (c : list Z) (i : nat) :
  bump_all c l !! i = Nat.iter (count_occ Nat.eq_dec l i) ulong_incr <$> c !! i.
Proof.
  revert c. induction l as [|j l IH]; intros c.
  - simpl. by destruct (c !! i).
  - unfold bump_all. cbn [foldl]. fold (bump_all (bump j c) l).
    rewrite IH, bump_lookup. cbn [count_occ].
    destruct (Nat.eq_dec j i) as [->|Hne].
    + rewrite decide_True by done. destruct (c !! i); [|done].
      cbn [fmap option_fmap option_map]. by rewrite Nat.iter_succ_r.
    + by rewrite decide_False by done.
Qed.

Lemma iter_incr_zero (k : nat) : Nat.iter k ulong_incr 0 = wrap64 (Z.of_nat k).
Proof.
  induction k as [|k IH]; [done|].
  rewrite Nat.iter_succ, IH. unfold ulong_incr. rewrite wrap64_add_l. f_equal. lia.
Qed.

Lemma count_occ_bind {A : Type} (f : A -> list nat) (l : list A) (i : nat) :
  count_occ Nat.eq_dec (l ≫= f) i
  = foldr (fun x acc => (count_occ Nat.eq_dec (f x) i + acc)%nat) 0%nat l.
Proof.
  induction l as [|x l IH]; [done|].
  rewrite bind_cons, count_occ_app, IH. done.
Qed.

Lemma count_occ_filter_seq (m : nat -> bool) (lo n i : nat) :
  count_occ Nat.eq_dec (List.filter m (seq lo n)) i
  = if decide (lo <= i < lo + n)%nat then (if m i then 1 else 0)%nat else 0%nat.
Proof.
  revert lo. induction n as [|n IH]; intros lo.
  - simpl. by rewrite decide_False by lia.
  - cbn [seq List.filter]. destruct (m lo) eqn:E.
    + cbn [count_occ]. rewrite IH. destruct (Nat.eq_dec lo i) as [->|Hne].
      * rewrite decide_False, decide_True by lia. by rewrite E.
      * destruct (decide (S lo <= i < S lo + n)%nat),
          (decide (lo <= i < lo + S n)%nat); try lia; done.
    + rewrite IH. destruct (decide (i = lo)) as [->|Hne].
      * rewrite decide_False, decide_True by lia. by rewrite E.
      * destruct (decide (S lo <= i < S lo + n)%nat),
          (decide (lo <= i < lo + S n)%nat); try lia; done.
Qed.

Lemma count_occ_hit_indices (v : Pixel) (srch : Image.t) (i : nat) :
  (i < Image.length srch)%nat ->
  count_occ Nat.eq_dec (hit_indices v srch) i
  = if pixel_match v (get_pixel srch 0 i) then 1%nat else 0%nat.
Proof.
  intros Hi. unfold hit_indices. rewrite count_occ_filter_seq.
  by rewrite decide_True by lia.
Qed.

Lemma matches_snoc (s x : Pixel) (l : list Pixel) :
  matches s (l ++ [x]) = (matches s l + if pixel_match x s then 1 else 0)%nat.
Proof.
  unfold matches. rewrite List.filter_app, length_app. simpl.
  by destruct (pixel_match x s).
Qed.

(** The increments of the first [n] columns of a row, counted. *)
Lemma count_occ_columns (srch : Image.t) (row out : list Pixel) (n i : nat) :
  (i < Image.length srch)%nat ->
  (n <= List.length row)%nat -> (n <= List.length out)%nat ->
  count_occ Nat.eq_dec
    (seq 0 n ≫= (fun p => hit_indices (row !!! p) srch ++ hit_indices (out !!! p) srch)) i
  = (matches (get_pixel srch 0 i) (take n row) + matches (get_pixel srch 0 i) (take n out))%nat.
Proof.
  intros Hi. induction n as [|n IH]; intros Hrow Hout; [done|].
  rewrite seq_S, bind_app, count_occ_app, IH by lia. simpl.
  rewrite app_nil_r, count_occ_app, !count_occ_hit_indices by done.
  destruct (lookup_lt_is_Some_2 row n ltac:(lia)) as [x Hx].
  destruct (lookup_lt_is_Some_2 out n ltac:(lia)) as [y Hy].
  rewrite (take_S_r _ _ _ Hx), (take_S_r _ _ _ Hy), !matches_snoc.
  rewrite (list_lookup_total_correct _ _ _ Hx), (list_lookup_total_correct _ _ _ Hy).
  lia.
Qed.

Lemma transform_row_length (row : list Pixel) :
  List.length (transform_row row) = List.length row.
Proof. apply row_steps_length. Qed.

Lemma count_occ_row_trace (srch : Image.t) (row : list Pixel) (i : nat) :
  (i < Image.length srch)%nat ->
  count_occ Nat.eq_dec (row_trace srch row) i
  = (matches (get_pixel srch 0 i) row
     + matches (get_pixel srch 0 i) (transform_row row))%nat.
Proof.
  intros Hi. unfold row_trace.
  rewrite (count_occ_columns srch row (transform_row row)) by (rewrite ?transform_row_length; lia).
  by rewrite !take_ge by (rewrite ?transform_row_length; lia).
Qed.

(** The columns [lo .. lo+n-1] of a row as a list of increments. *)
Lemma columns_trace (srch : Image.t) (n lo : nat) (r : list Pixel) (c : list Z) :
  (lo + n <= List.length r)%nat ->
  (for_loop n lo (column_counts srch) (r, c)).2
  = bump_all c (seq lo n ≫= (fun p => hit_indices (r !!! p) srch
                                       ++ hit_indices (for_loop n lo row_step r !!! p) srch)).
Proof.
  revert lo r c. induction n as [|n IH]; intros lo r c Hn; [done|].
  cbn [for_loop seq]. rewrite bind_cons, !bump_all_app.
  unfold column_counts at 2. cbn [fst snd].
  rewrite IH by (rewrite row_step_length; lia).
  rewrite <- !hits_trace.
  assert (Hlo : for_loop n (S lo) row_step (row_step lo r) !!! lo = row_step lo r !!! lo).
  { rewrite !list_lookup_total_alt. by rewrite row_steps_outside by lia. }
  rewrite Hlo. f_equal.
  apply Forall_bind_ext, Forall_forall. intros p Hp. apply elem_of_seq in Hp.
  do 2 f_equal. unfold row_step.
  by rewrite list_lookup_total_insert_ne by lia.
Qed.

Lemma row_counts_trace (srch : Image.t) (row : list Pixel) (c : list Z) :
  (row_counts_from srch row c).2 = bump_all c (row_trace srch row).
Proof.
  unfold row_counts_from. rewrite columns_trace by lia. done.
Qed.

Lemma row_counts_row_part (srch : Image.t) (row : list Pixel) (c : list Z) :
  (row_counts_from srch row c).1 = transform_row row.
Proof.
  unfold row_counts_from, transform_row.
  by apply (for_loop_project fst (column_counts srch) row_step).
Qed.

(** ** The reference as one row, and its counters *)

Lemma pixel_body_is_column (p : nat) (st : State) : pixel_body p st = tc3_column 0 p st.
Proof.
  unfold pixel_body, tc3_column, transform_state, transform_guarded_state.
  by rewrite transform_guarded_eq.
Qed.

Lemma process_b_is_row_body (st : State) : process_b st = tc3_row_body 0 st.
Proof.
  unfold process_b, tc3_row_body, for_range. apply for_loop_ext.
  intros p s' _. apply pixel_body_is_column.
Qed.

Lemma tc3_row_body_state (l : nat) (st : State) (row : list Pixel) :
  Image.pixels (img st) !! l = Some row ->
  Image.linesize (img st) = List.length row ->
  tc3_row_body l st
  = mkState (Image.mk (Image.length (img st)) (Image.lines (img st))
               (Image.linesize (img st))
               (<[l := transform_row row]> (Image.pixels (img st))))
            (search st)
            (bump_all (counter st) (row_trace (search st) row)).
Proof.
  intros Hrow Hsize.
  pose proof (tc3_row_body_frame l st) as ((Hlen & Hlines & Hw & _) & Hsearch & Hrows).
  pose proof (tc3_row_body_counts l st row Hrow Hsize) as Hc.
  rewrite row_counts_trace in Hc.
  assert (Hpix : Image.pixels (img (tc3_row_body l st))
                 = <[l := transform_row row]> (Image.pixels (img st))).
  { apply list_eq. intros l'. destruct (decide (l' = l)) as [->|Hne].
    - rewrite list_lookup_insert_eq by (by eapply lookup_lt_Some).
      unfold tc3_row_body, for_range. rewrite Nat.sub_0_r, Hsize.
      destruct (tc3_columns_counts l (List.length row) 0 st row Hrow ltac:(lia)) as [-> _].
      f_equal. apply row_counts_row_part.
    - rewrite list_lookup_insert_ne by done. by apply Hrows. }
  destruct (tc3_row_body l st) as [[a b c d] e f]. cbn in *. by subst.
Qed.

(** X2: the counters of the sequential reference.  On a grid whose row is
    [row], with the counters zeroed, the count that process-b ends with for
    search index [i] is the number of pixels of the row that equal search
    pixel [i] before the transform plus the number that equal it after the
    transform, modulo 2^64. *)
Theorem reference_counts (st : State) (row : list Pixel) (i : nat) :
  Image.pixels (img st) !! 0%nat = Some row ->
  Image.linesize (img st) = List.length row ->
  counter st = replicate (Image.length (search st)) 0 ->
  (i < Image.length (search st))%nat ->
  counter (process_b st) !! i = Some (expected_count (get_pixel (search st) 0 i) row).
Proof.
  intros Hrow Hsize Hzero Hi.
  rewrite process_b_is_row_body, (tc3_row_body_state 0 st row Hrow Hsize).
  cbn [counter]. rewrite bump_all_lookup, Hzero, lookup_replicate_2 by done.
  cbn [fmap option_fmap option_map].
  by rewrite iter_incr_zero, count_occ_row_trace.
Qed.

Lemma reference_counts_witness :
  counter (process_b scenario) !! 0%nat
  = Some (expected_count (mkPixel 10 20 30)
            [mkPixel 10 20 30; mkPixel 40 50 60; mkPixel 70 80 90]).
Proof.
  exact (reference_counts scenario [mkPixel 10 20 30; mkPixel 40 50 60; mkPixel 70 80 90] 0
           eq_refl eq_refl eq_refl ltac:(cbv; lia)).
Defined.

(** ** Merging thread-local counts that add up *)

Lemma merges_of_adds_up (n T : nat) (c0 : list Z) (order : list nat) (ts : TeamState)
    (st : State) :
  adds_up n T c0 ts st -> counters_ok n c0 -> order ≡ₚ seq 0 T ->
  shared (foldl (fun ts t => merge_all t ts) ts order) = st.
Proof.
  intros (Hi & Hs & Hc & HlT & Hlens & Hlen' & Hn & Hsum) [Hlen Hrange] Hperm.
  destruct (merges_frame order ts) as (Hmi & Hms & Hml).
  cbn zeta in Hmi, Hms, Hml.
  set (final := shared (foldl _ ts order)) in *.
  assert (Hcounter : counter final = counter st).
  { apply list_eq. intros j. destruct (decide (j < n)%nat) as [Hj|Hj].
    - unfold final.
      rewrite (merges_lookup _ ts j (c0 !!! j)).
      + rewrite fold_ulong_add.
        * fold (order_total (locals ts) order j).
          rewrite order_total_all by (by rewrite HlT).
          rewrite <- Hsum by done. symmetry.
          apply list_lookup_lookup_total_lt. lia.
        * rewrite Forall_lookup in Hrange. apply (Hrange j).
          apply list_lookup_lookup_total_lt. lia.
      + rewrite Hs, Hn. done.
      + rewrite Hc. apply list_lookup_lookup_total_lt. lia.
    - rewrite !(proj2 (lookup_ge_None _ _)); [done | lia |].
      rewrite Hml, Hc. lia. }
  destruct final, st. cbn in *. congruence.
Qed.

Lemma tc3_column_counters_ok (n l p : nat) (st : State) :
  counters_ok n (counter st) -> counters_ok n (counter (tc3_column l p st)).
Proof.
  intros H. rewrite tc3_column_counter. by do 2 apply hits_counters_ok.
Qed.

Lemma tc3_row_body_counters_ok (n l : nat) (st : State) :
  counters_ok n (counter st) -> counters_ok n (counter (tc3_row_body l st)).
Proof.
  intros H. unfold tc3_row_body. apply (for_range_inv (fun s => counters_ok n (counter s))).
  - done.
  - intros p s _ Hs. by apply tc3_column_counters_ok.
Qed.

Lemma tc3_row_body_search (l : nat) (st : State) : search (tc3_row_body l st) = search st.
Proof. by destruct (tc3_row_body_frame l st) as (_ & -> & _). Qed.

(** The task of process-a_tc4.c, [calloc] to merge, is the row body of
    the atomic variant. *)
Lemma tc4_task_is_row_body (l : nat) (st : State) :
  counters_ok (Image.length (search st)) (counter st) ->
  tc4_task l st = tc3_row_body l st.
Proof.
  intros Hok. unfold tc4_task.
  set (ts := tc2_row_body 0 l _).
  change (shared (merge_all 0 ts)) with (shared (foldl (fun a t => merge_all t a) ts [0%nat])).
  eapply (merges_of_adds_up _ 1); [|exact Hok|done]. unfold ts.
  apply rows_add_up; [lia|]. by apply adds_up_init.
Qed.

Lemma tc4_tasks_are_row_bodies (sched : Schedule) (st : State) :
  counters_ok (Image.length (search st)) (counter st) ->
  omp_for sched (fun _ l st => tc4_task l st) st
  = omp_for sched (fun _ l st => tc3_row_body l st) st.
Proof.
  unfold omp_for. revert st. induction sched as [|it sched IH]; intros st Hok; [done|].
  cbn [foldl]. rewrite tc4_task_is_row_body by done. apply IH.
  rewrite tc3_row_body_search. by apply tc3_row_body_counters_ok.
Qed.

(** ** The state after the row loop, for every schedule *)

Lemma omp_for_rows {St : Type} (sched : Schedule) (f : nat -> St -> St) (s : St) :
  omp_for sched (fun _ l s => f l s) s = foldl (fun s l => f l s) s (sched.*1).
Proof. unfold omp_for. by rewrite foldl_fmap. Qed.

Lemma tc3_rows_state (P : list (list Pixel)) (rows : list nat) (st : State) :
  NoDup rows ->
  (forall l, l ∈ rows ->
     exists row, P !! l = Some row /\ List.length row = Image.linesize (img st) /\
                 Image.pixels (img st) !! l = Some row) ->
  foldl (fun s l => tc3_row_body l s) st rows
  = mkState (Image.mk (Image.length (img st)) (Image.lines (img st))
               (Image.linesize (img st))
               (foldl (fun px l => <[l := transform_row (P !!! l)]> px)
                  (Image.pixels (img st)) rows))
            (search st)
            (bump_all (counter st) (rows ≫= (fun l => row_trace (search st) (P !!! l)))).
Proof.
  revert st. induction rows as [|l rows IH]; intros st Hnd Hrows.
  - simpl. by destruct st as [[] ? ?].
  - apply NoDup_cons in Hnd as [Hl Hnd].
    destruct (Hrows l ltac:(left)) as (row & HP & Hlen & Hrow).
    cbn [foldl]. rewrite bind_cons, bump_all_app.
    rewrite (list_lookup_total_correct _ _ _ HP).
    rewrite IH; [|done|].
    + by rewrite (tc3_row_body_state l st row Hrow (eq_sym Hlen)).
    + intros l' Hl'. destruct (Hrows l' ltac:(by right)) as (row' & HP' & Hlen' & Hrow').
      exists row'. rewrite (tc3_row_body_state l st row Hrow (eq_sym Hlen)).
      cbn [img Image.linesize Image.pixels]. split_and!; [done..|].
      rewrite list_lookup_insert_ne; [done|]. intros ->. done.
Qed.

Lemma insert_rows_lookup (f : nat -> list Pixel) (rows : list nat) (px : list (list Pixel))
    (j : nat) :
  foldl (fun px l => <[l := f l]> px) px rows !! j
  = if decide (j ∈ rows) then (fun _ => f j) <$> px !! j else px !! j.
Proof.
  revert px. induction rows as [|l rows IH]; intros px; [done|].
  cbn [foldl]. rewrite IH. destruct (decide (j = l)) as [->|Hne].
  - rewrite (decide_True (P := l ∈ l :: rows)) by left.
    destruct (decide (l < List.length px)%nat) as [Hlt|Hge].
    + rewrite list_lookup_insert_eq by done.
      destruct (lookup_lt_is_Some_2 px l Hlt) as [x ->]. by destruct (decide _).
    + rewrite list_insert_ge by lia.
      rewrite (proj2 (lookup_ge_None px l)) by lia. by destruct (decide _).
  - rewrite list_lookup_insert_ne by done.
    destruct (decide (j ∈ rows)) as [Hin|Hnin].
    + by rewrite decide_True by (by right).
    + rewrite decide_False; [done|]. intros [?|?]%elem_of_cons; done.
Qed.

Lemma bind_indices {A B : Type} `{Inhabited A} (f : A -> list B) (pre l : list A) :
  seq (List.length pre) (List.length l) ≫= (fun k => f ((pre ++ l) !!! k)) = l ≫= f.
Proof.
  revert pre. induction l as [|x l IH]; intros pre; [done|].
  cbn [List.length seq]. rewrite !bind_cons.
  rewrite (list_lookup_total_middle pre l x) by done.
  f_equal. specialize (IH (pre ++ [x])). rewrite length_app in IH. simpl in IH.
  rewrite Nat.add_1_r in IH. rewrite <- IH.
  apply Forall_bind_ext, Forall_forall. intros k _. by rewrite <- app_assoc.
Qed.

Lemma bump_all_perm (c : list Z) (l1 l2 : list nat) :
  l1 ≡ₚ l2 -> bump_all c l1 = bump_all c l2.
Proof.
  intros H. unfold bump_all. apply foldl_permutation_comm; [|done].
  intros a x y. apply bump_comm.
Qed.

(** The state that the row loop of the atomic variant leaves: every row
    transformed, every increment made. *)
Lemma process_a_tc3_rows (rt : Runtime) (st : State) :
  wf_image (img st) -> valid_runtime rt -> process_a_tc3 rt st = rows_result st.
Proof.
  intros [Hlines Hrows] (_ & _ & Hfor & _).
  unfold process_a_tc3, rows_result. rewrite omp_for_rows.
  destruct (Hfor 0%nat (Image.lines (img st))) as [Hperm _].
  set (rows := (for_schedule rt 0 (Image.lines (img st))).*1) in *.
  set (P := Image.pixels (img st)) in *.
  rewrite (tc3_rows_state P rows st).
  - f_equal; [f_equal|].
    + fold P. apply list_eq. intros j. rewrite insert_rows_lookup, list_lookup_fmap.
      destruct (decide (j ∈ rows)) as [Hin|Hnin].
      * destruct (P !! j) as [row|] eqn:E; [|done]. cbn.
        by rewrite (list_lookup_total_correct _ _ _ E).
      * rewrite (proj2 (lookup_ge_None P j)); [done|].
        rewrite Hlines. destruct (decide (j < Image.lines (img st))%nat); [|lia].
        exfalso. apply Hnin. rewrite Hperm. apply elem_of_seq. lia.
    + rewrite (bump_all_perm _ _ (seq 0 (List.length P) ≫=
                 (fun l => row_trace (search st) (P !!! l)))).
      * f_equal. apply (bind_indices (row_trace (search st)) [] P).
      * rewrite Hlines. by apply bind_Permutation.
  - rewrite Hperm. apply NoDup_seq.
  - intros l Hl. rewrite Hperm in Hl. apply elem_of_seq in Hl.
    destruct (lookup_lt_is_Some_2 P l ltac:(lia)) as [row Hrow].
    exists row. split_and!; [done| |done].
    rewrite Forall_lookup in Hrows. by apply (Hrows l).
Qed.

Lemma matches_app (s : Pixel) (l1 l2 : list Pixel) :
  matches s (l1 ++ l2) = (matches s l1 + matches s l2)%nat.
Proof. unfold matches. by rewrite List.filter_app, length_app. Qed.

Lemma count_occ_grid_trace (srch : Image.t) (rows : list (list Pixel)) (i : nat) :
  (i < Image.length srch)%nat ->
  count_occ Nat.eq_dec (rows ≫= row_trace srch) i
  = (matches (get_pixel srch 0 i) (concat rows)
     + matches (get_pixel srch 0 i) (concat (map transform_row rows)))%nat.
Proof.
  intros Hi. induction rows as [|row rows IH]; [done|].
  rewrite bind_cons, count_occ_app, IH, count_occ_row_trace by done.
  cbn [concat map]. rewrite !matches_app. lia.
Qed.

Lemma wf_two_rows_state : wf_image (img two_rows_state).
Proof. split; [done|]. by repeat constructor. Qed.

Lemma counters_ok_two_rows_state :
  counters_ok (Image.length (search two_rows_state)) (counter two_rows_state).
Proof. split; [done|]. repeat constructor; cbv; congruence. Qed.

(** X3: what the row-parallel atomic variant (process-a_tc3) computes, for
    every team and schedule.  On a well-formed grid with zeroed counters,
    every row of the result is the left-to-right transform of the row it
    started as, and the count of search index [i] is the number of pixels
    of the whole grid equal to search pixel [i] before the transform plus
    the number equal to it after, modulo 2^64. *)
Theorem row_parallel_result (rt : Runtime) (st : State) :
  wf_image (img st) -> valid_runtime rt ->
  counter st = replicate (Image.length (search st)) 0 ->
  Image.pixels (img (process_a_tc3 rt st)) = map transform_row (Image.pixels (img st)) /\
  forall i, (i < Image.length (search st))%nat ->
    counter (process_a_tc3 rt st) !! i
    = Some (grid_count (get_pixel (search st) 0 i) (Image.pixels (img st))).
Proof.
  intros Hwf Hrt Hzero. rewrite (process_a_tc3_rows rt st Hwf Hrt).
  unfold rows_result. cbn [img counter Image.pixels]. split; [done|].
  intros i Hi. rewrite bump_all_lookup, Hzero, lookup_replicate_2 by done.
  cbn [fmap option_fmap option_map].
  by rewrite iter_incr_zero, count_occ_grid_trace.
Qed.

Lemma row_parallel_result_witness :
  Image.pixels (img (process_a_tc3 (static_runtime 2 zero_pixel) two_rows_state))
  = map transform_row (Image.pixels (img two_rows_state)) /\
  forall i, (i < Image.length (search two_rows_state))%nat ->
    counter (process_a_tc3 (static_runtime 2 zero_pixel) two_rows_state) !! i
    = Some (grid_count (get_pixel (search two_rows_state) 0 i)
              (Image.pixels (img two_rows_state))).
Proof.
  apply row_parallel_result.
  - exact wf_two_rows_state.
  - apply static_runtime_valid. lia.
  - reflexivity.
Defined.

(** X4: the result of process-a_tc3 does not depend on the runtime.  On a
    well-formed grid any two teams, of any sizes and under any schedules
    of the row loop, end in the same grid, search list and counters,
    whatever the counters held at the start. *)
Theorem process_a_tc3_schedule_independent (rt1 rt2 : Runtime) (st : State) :
  wf_image (img st) -> valid_runtime rt1 -> valid_runtime rt2 ->
  process_a_tc3 rt1 st = process_a_tc3 rt2 st.
Proof.
  intros Hwf H1 H2. by rewrite !process_a_tc3_rows.
Qed.

Lemma process_a_tc3_schedule_independent_witness :
  process_a_tc3 (static_runtime 1 zero_pixel) two_rows_state
  = process_a_tc3 (static_runtime 2 zero_pixel) two_rows_state.
Proof.
  apply process_a_tc3_schedule_independent.
  - exact wf_two_rows_state.
  - apply static_runtime_valid. lia.
  - apply static_runtime_valid. lia.
Defined.

(** ** The parallel regions with their allocations *)

Lemma filter_none {A : Type} (f : A -> bool) (l : list A) :
  (forall x, In x l -> f x = false) -> List.filter f l = [].
Proof.
  induction l as [|x l IH]; intros H; [done|].
  cbn [List.filter]. rewrite (H x) by (by left). apply IH.
  intros y Hy. apply H. by right.
Qed.

Lemma failing_threads_nil (env : Env) (T : nat) :
  (forall t, (t < T)%nat -> malloc_null env (LocalCounters t) = false) ->
  failing_threads env T = [].
Proof.
  intros H. apply filter_none. intros t Ht. apply H. apply in_seq in Ht. lia.
Qed.

Lemma failing_tasks_nil (env : Env) (lines : nat) :
  (forall l, (l < lines)%nat -> malloc_null env (TaskCounters l) = false) ->
  failing_tasks env lines = [].
Proof.
  intros H. apply filter_none. intros l Hl. apply H. apply in_seq in Hl. lia.
Qed.

Lemma failing_threads_cons (env : Env) (T t : nat) :
  (t < T)%nat -> malloc_null env (LocalCounters t) = true ->
  exists t' rest, failing_threads env T = t' :: rest.
Proof.
  intros Ht Hnull.
  assert (Hin : In t (failing_threads env T)).
  { apply filter_In. split; [apply in_seq; lia | done]. }
  destruct (failing_threads env T) as [|t' rest]; [done|]. eauto.
Qed.

(** The tasks of process-a_tc4 that received their [local], against the
    atomic variant. *)
Lemma process_a_tc4_tasks (rt1 rt2 : Runtime) (st : State) :
  wf_image (img st) -> valid_runtime rt1 -> valid_runtime rt2 ->
  counters_ok (Image.length (search st)) (counter st) ->
  process_a_tc4 rt1 st = process_a_tc3 rt2 st.
Proof.
  intros Hwf H1 H2 Hok. unfold process_a_tc4.
  rewrite tc4_tasks_are_row_bodies by done.
  fold (process_a_tc3 rt1 st). by rewrite !process_a_tc3_rows.
Qed.

(** X5: the task-per-row variant (process-a_tc4), when [calloc] gives
    every task its [local], returns the state of the atomic variant
    (process-a_tc3) and prints nothing on stderr: same grid, same search
    list, same counters, in whatever order the tasks are carried out and
    whatever the schedule of the atomic variant, on a well-formed grid
    whose counters are values of [unsigned long]. *)
Theorem process_a_tc4_is_tc3 (env : Env) (rt1 rt2 : Runtime) (st : State) :
  wf_image (img st) -> valid_runtime rt1 -> valid_runtime rt2 ->
  counters_ok (Image.length (search st)) (counter st) ->
  (forall l, (l < Image.lines (img st))%nat -> malloc_null env (TaskCounters l) = false) ->
  region_a_tc4 env rt1 st = ([], Ok (process_a_tc3 rt2 st)).
Proof.
  intros Hwf H1 H2 Hok Halloc. unfold region_a_tc4.
  rewrite (failing_tasks_nil env _ Halloc).
  by rewrite (process_a_tc4_tasks rt1 rt2 st).
Qed.

Lemma process_a_tc4_is_tc3_witness :
  region_a_tc4 (simple_env [] [] false zero_pixel) (static_runtime 2 zero_pixel)
    two_rows_state
  = ([], Ok (process_a_tc3 (static_runtime 1 zero_pixel) two_rows_state)).
Proof.
  apply process_a_tc4_is_tc3.
  - exact wf_two_rows_state.
  - apply static_runtime_valid. lia.
  - apply static_runtime_valid. lia.
  - exact counters_ok_two_rows_state.
  - intros l _. reflexivity.
Defined.

Lemma tc2_merge_frame (sched : Schedule) (ts : TeamState) :
  img (shared (tc2_merge sched ts)) = img (shared ts) /\
  search (shared (tc2_merge sched ts)) = search (shared ts).
Proof.
  unfold tc2_merge, omp_for. revert ts.
  induction sched as [|it sched IH]; intros ts; [done|].
  cbn [foldl]. destruct (IH (merge_cell it.2 it.1 ts)) as [-> ->]. done.
Qed.

(** X6: with a team of one thread whose [calloc] of [local] succeeds,
    the thread-local variant process-a_tc2 returns the state that the
    atomic variant process-a_tc3 reaches under any runtime, and prints
    nothing on stderr: the worksharing merge loses no count when one
    thread carries out all of it. *)
Theorem process_a_tc2_single_thread (env : Env) (rt rt' : Runtime) (st : State) :
  wf_image (img st) -> valid_runtime rt -> nthreads rt = 1%nat -> valid_runtime rt' ->
  counters_ok (Image.length (search st)) (counter st) ->
  malloc_null env (LocalCounters 0) = false ->
  region_a_tc2 env rt st = ([], Ok (process_a_tc3 rt' st)).
Proof.
  intros Hwf Hrt HT Hrt' Hok Halloc. unfold region_a_tc2.
  rewrite failing_threads_nil.
  2:{ intros t Ht. replace t with 0%nat by lia. done. }
  rewrite (process_a_tc2_one_thread rt st Hrt HT Hok).
  by rewrite (process_a_tc3_rows rt), (process_a_tc3_rows rt').
Qed.

Lemma process_a_tc2_single_thread_witness :
  region_a_tc2 (simple_env [] [] false zero_pixel) (static_runtime 1 zero_pixel)
    two_rows_state
  = ([], Ok (process_a_tc3 (static_runtime 2 zero_pixel) two_rows_state)).
Proof.
  apply process_a_tc2_single_thread.
  - exact wf_two_rows_state.
  - apply static_runtime_valid. lia.
  - reflexivity.
  - apply static_runtime_valid. lia.
  - exact counters_ok_two_rows_state.
  - reflexivity.
Defined.

(** The grid of a team of process-a_tc2 whose threads hold their
    [local]. *)
Lemma process_a_tc2_team_grid (rt rt' : Runtime) (st : State) :
  wf_image (img st) -> valid_runtime rt -> valid_runtime rt' ->
  counters_ok (Image.length (search st)) (counter st) ->
  img (process_a_tc2 rt st) = img (process_a_tc3 rt' st) /\
  search (process_a_tc2 rt st) = search st.
Proof.
  intros Hwf Hrt Hrt' Hok. unfold process_a_tc2.
  set (ts1 := tc2_rows _ _).
  destruct (tc2_merge_frame (for_schedule rt 1 (Image.length (search st))) ts1) as [-> ->].
  destruct Hrt as (HT & Hs & Hfor & Hc).
  pose proof (row_loops_add_up _ (nthreads rt) (counter st)
                (for_schedule rt 0 (Image.lines (img st))) _ _
                (proj2 (Hfor 0%nat _)) (adds_up_init (nthreads rt) st Hok))
    as (Hi & Hsearch & _).
  fold ts1 in Hi, Hsearch. rewrite Hi, Hsearch.
  fold (process_a_tc3 rt st).
  rewrite (process_a_tc3_rows rt st), (process_a_tc3_rows rt' st); done.
Qed.

(** X7: when [calloc] gives every thread its [local], process-a_tc2
    returns, and the grid it returns (and then writes out) is the grid of
    process-a_tc3 for every team size and schedule, also when its merge
    loses counts; its search list is untouched.  The defect of the merge
    shows in the counters only. *)
Theorem process_a_tc2_grid (env : Env) (rt rt' : Runtime) (st : State) :
  wf_image (img st) -> valid_runtime rt -> valid_runtime rt' ->
  counters_ok (Image.length (search st)) (counter st) ->
  (forall t, (t < nthreads rt)%nat -> malloc_null env (LocalCounters t) = false) ->
  exists st',
    region_a_tc2 env rt st = ([], Ok st') /\
    img st' = img (process_a_tc3 rt' st) /\
    search st' = search st.
Proof.
  intros Hwf Hrt Hrt' Hok Halloc. exists (process_a_tc2 rt st). split.
  - unfold region_a_tc2. by rewrite (failing_threads_nil env _ Halloc).
  - by apply process_a_tc2_team_grid.
Qed.

Lemma process_a_tc2_grid_witness :
  exists st',
    region_a_tc2 (simple_env [] [] false zero_pixel) (static_runtime 2 zero_pixel)
      two_rows_state = ([], Ok st') /\
    img st' = img (process_a_tc3 (static_runtime 1 zero_pixel) two_rows_state) /\
    search st' = search two_rows_state.
Proof.
  apply process_a_tc2_grid.
  - exact wf_two_rows_state.
  - apply static_runtime_valid. lia.
  - apply static_runtime_valid. lia.
  - exact counters_ok_two_rows_state.
  - intros t _. reflexivity.
Defined.

(** ** process-b_tc3: the phased cycle with thread-local counters *)

Lemma tc3_search_fold (sched : Schedule) (priv : Private) (ts : TeamState) :
  omp_for sched (tc3_search_body priv) ts
  = mkTeam (shared ts)
      (foldl (fun ls it => if pixel_match (priv it.2) (get_pixel (search (shared ts)) 0 it.1)
                           then bump_local it.2 it.1 ls else ls)
             (locals ts) sched).
Proof.
  unfold omp_for. revert ts. induction sched as [|it sched IH]; intros ts.
  - by destruct ts.
  - cbn [foldl]. rewrite IH. unfold tc3_search_body.
    by destruct (pixel_match _ _).
Qed.

Lemma tc3_search_one_thread (sched : Schedule) (priv : Private) (v : Pixel)
    (ts : TeamState) :
  valid_schedule 1 (Image.length (search (shared ts))) sched ->
  Forall (fun it => it.2 = 0%nat) sched ->
  priv 0%nat = v ->
  omp_for sched (tc3_search_body priv) ts
  = mkTeam (shared ts) (local_hits 0 v (search (shared ts)) (locals ts)).
Proof.
  intros [Hperm _] Hzero Hv. rewrite tc3_search_fold. f_equal.
  unfold local_hits, for_range. rewrite for_loop_foldl, Nat.sub_0_r.
  rewrite <- (foldl_permutation_comm _ _ _ (local_step_comm 0 _) Hperm).
  rewrite foldl_fmap. clear Hperm.
  generalize (locals ts) as ls. induction Hzero as [|it sched Hit _ IH]; intros ls; [done|].
  cbn [foldl]. rewrite Hit, Hv. apply IH.
Qed.

Lemma tc3_pixel_cycle_one_thread (rt : Runtime) (p : nat) (ts : TeamState) :
  valid_runtime rt -> nthreads rt = 1%nat ->
  let st := shared ts in
  tc3_pixel_cycle rt p ts
  = mkTeam (mkState (transform 0 p (img st)) (search st) (counter st))
      (local_hits 0 (get_pixel (transform 0 p (img st)) 0 p) (search st)
         (local_hits 0 (get_pixel (img st) 0 p) (search st) (locals ts))).
Proof.
  intros Hrt HT st. unfold tc3_pixel_cycle. fold st.
  destruct (one_thread_schedule rt (3 * p) 0 Hrt HT) as (-> & _).
  destruct (one_thread_schedule rt (3 * p + 2) 0 Hrt HT) as (-> & _).
  destruct (one_thread_schedule rt (2 * p) (Image.length (search st)) Hrt HT)
    as (_ & V0 & F0).
  rewrite (tc3_search_one_thread _ _ (get_pixel (img st) 0 p) ts V0 F0) by done.
  cbn [shared locals img search counter]. fold st.
  destruct (one_thread_schedule rt (2 * p + 1) (Image.length (search st)) Hrt HT)
    as (_ & V1 & F1).
  rewrite transform_guarded_eq.
  set (ts1 := mkTeam _ _).
  rewrite (tc3_search_one_thread _ _ (get_pixel (transform 0 p (img st)) 0 p) ts1 V1 F1)
    by done.
  reflexivity.
Qed.

(** The merge of a one-thread team that mirrors a state of the reference
    gives that state. *)
Lemma mirrored_merge (n : nat) (ts : TeamState) (st : State) :
  mirrors n ts st -> counters_ok n (counter st) -> Image.length (search st) = n ->
  shared (merge_all 0 ts) = st.
Proof.
  intros (Hi & Hs & Hc & Hl) Hok Hn.
  rewrite merge_all_eq. cbn [shared]. rewrite Hi, Hs, Hc, Hl, Hn.
  change ([counter st] !!! 0%nat) with (counter st).
  rewrite merge_into_zeros by done. by destruct st.
Qed.

(** A team of one thread of process-b_tc3 against the reference. *)
Lemma process_b_tc3_team_of_one (rt : Runtime) (st : State) :
  valid_runtime rt -> nthreads rt = 1%nat ->
  counter st = replicate (Image.length (search st)) 0 ->
  process_b_tc3 rt st = process_b st.
Proof.
  intros Hrt HT Hzero. unfold process_b_tc3.
  set (n := Image.length (search st)) in *.
  assert (Hcrit : critical_order rt = [0%nat]).
  { destruct Hrt as (_ & _ & _ & Hperm). rewrite HT in Hperm.
    by apply Permutation_singleton_r in Hperm. }
  rewrite Hcrit, HT. cbn [foldl].
  destruct (process_b_frame st) as [_ Hsearch].
  apply (mirrored_merge n); [| |by rewrite Hsearch].
  - unfold process_b, for_range. apply (for_loop_rel (mirrors n)).
    + unfold mirrors. cbn [shared locals]. by rewrite Hzero.
    + intros p a b (Hi & Hs & Hc & Hl).
      rewrite tc3_pixel_cycle_one_thread by done. rewrite pixel_body_eq.
      unfold mirrors. cbn [shared locals img search counter].
      rewrite Hi, Hs, Hl, !local_hits_hits. done.
  - unfold process_b. apply (for_range_inv (fun s => counters_ok n (counter s))).
    + rewrite Hzero. apply zeros_counters_ok.
    + intros p s _ Hs. by apply pixel_body_counters_ok.
Qed.

(** X8: with a team of one thread whose [calloc] of [local] succeeds,
    process-b_tc3 (phased cycle, thread-local counters, critical merge)
    returns the state of the sequential reference and prints nothing on
    stderr, when the counters start at zero as [main] leaves them. *)
Theorem process_b_tc3_one_thread (env : Env) (rt : Runtime) (st : State) :
  valid_runtime rt -> nthreads rt = 1%nat ->
  counter st = replicate (Image.length (search st)) 0 ->
  malloc_null env (LocalCounters 0) = false ->
  region_b_tc3 env rt st = ([], Ok (process_b st)).
Proof.
  intros Hrt HT Hzero Halloc. unfold region_b_tc3.
  rewrite failing_threads_nil.
  2:{ intros t Ht. replace t with 0%nat by lia. done. }
  by rewrite process_b_tc3_team_of_one.
Qed.

Lemma process_b_tc3_one_thread_witness :
  region_b_tc3 (simple_env [] [] false zero_pixel) (static_runtime 1 zero_pixel) twin_search
  = ([], Ok (process_b twin_search)).
Proof.
  apply process_b_tc3_one_thread.
  - apply static_runtime_valid. lia.
  - reflexivity.
  - reflexivity.
  - reflexivity.
Defined.

Lemma tile_loop_shared (TILE_I : nat) (sched : Schedule) (priv : Private) (ts : TeamState) :
  shared (omp_for sched (tile_body TILE_I priv) ts) = shared ts.
Proof.
  unfold omp_for. revert ts. induction sched as [|it sched IH]; intros ts; [done|].
  cbn [foldl]. rewrite IH. by rewrite tile_body_fold.
Qed.

Lemma tc3_pixel_cycle_shared (rt : Runtime) (p : nat) (ts : TeamState) :
  img (shared (tc3_pixel_cycle rt p ts)) = transform 0 p (img (shared ts)).
Proof.
  unfold tc3_pixel_cycle. rewrite !tc3_search_fold. cbn [shared img].
  by rewrite transform_guarded_eq.
Qed.

Lemma tc4_pixel_cycle_shared (TILE_I : nat) (rt : Runtime) (p : nat) (ts : TeamState) :
  img (shared (tc4_pixel_cycle TILE_I rt p ts)) = transform 0 p (img (shared ts)).
Proof.
  unfold tc4_pixel_cycle. rewrite !tile_loop_shared. cbn [shared img].
  by rewrite transform_guarded_eq.
Qed.

Lemma process_b_img (st : State) :
  img (process_b st) = for_loop (Image.linesize (img st) - 0) 0 (transform 0) (img st).
Proof.
  unfold process_b, for_range.
  by rewrite (for_loop_project img pixel_body (transform 0)) by apply pixel_body_img.
Qed.

(** X9: the grid of process-b_tc2 is the grid of the sequential reference
    whatever the runtime does: for every team size, every choice of the
    thread that executes a [single] region, every schedule and every
    content of the unassigned private scalars.  Its search list is
    untouched. *)
Theorem process_b_tc2_output_grid (rt : Runtime) (st : State) :
  img (process_b_tc2 rt st) = img (process_b st) /\
  search (process_b_tc2 rt st) = search st.
Proof.
  split.
  - rewrite process_b_img. unfold process_b_tc2, for_range.
    by rewrite (for_loop_project img (tc2_pixel_cycle rt) (transform 0))
      by (intros; apply tc2_pixel_cycle_img).
  - unfold process_b_tc2.
    apply (for_range_inv (fun s => search s = search st)); [done|].
    intros p s _ <-. apply tc2_pixel_cycle_img.
Qed.

Lemma process_b_tc3_team_grid (rt : Runtime) (st : State) :
  img (process_b_tc3 rt st) = img (process_b st).
Proof.
  rewrite process_b_img. unfold process_b_tc3.
  destruct (merges_frame (critical_order rt)
              (for_range 0 (Image.linesize (img st)) (tc3_pixel_cycle rt)
                 (mkTeam st (calloc_locals (nthreads rt) (Image.length (search st))))))
    as (-> & _).
  unfold for_range.
  by rewrite (for_loop_project (fun ts => img (shared ts)) (tc3_pixel_cycle rt) (transform 0))
    by (intros; apply tc3_pixel_cycle_shared).
Qed.

Lemma process_b_tc4_team_grid (TILE_I : nat) (rt : Runtime) (st : State) :
  img (process_b_tc4 TILE_I rt st) = img (process_b st).
Proof.
  rewrite process_b_img. unfold process_b_tc4.
  destruct (merges_frame (critical_order rt)
              (for_range 0 (Image.linesize (img st)) (tc4_pixel_cycle TILE_I rt)
                 (mkTeam st (calloc_locals (nthreads rt) (Image.length (search st))))))
    as (-> & _).
  unfold for_range.
  by rewrite (for_loop_project (fun ts => img (shared ts)) (tc4_pixel_cycle TILE_I rt)
                (transform 0))
    by (intros; apply tc4_pixel_cycle_shared).
Qed.

(** X10: when [calloc] gives every thread its [local], process-b_tc3
    returns, and the grid it returns is the grid of the sequential
    reference whatever else the runtime does (team size, [single]
    threads, schedules, order of the critical merges, unassigned private
    scalars). *)
Theorem process_b_tc3_output_grid (env : Env) (rt : Runtime) (st : State) :
  (forall t, (t < nthreads rt)%nat -> malloc_null env (LocalCounters t) = false) ->
  exists st',
    region_b_tc3 env rt st = ([], Ok st') /\ img st' = img (process_b st).
Proof.
  intros Halloc. exists (process_b_tc3 rt st). split.
  - unfold region_b_tc3. by rewrite (failing_threads_nil env _ Halloc).
  - apply process_b_tc3_team_grid.
Qed.

Lemma process_b_tc3_output_grid_witness :
  exists st',
    region_b_tc3 (simple_env [] [] false zero_pixel) (static_runtime 2 zero_pixel)
      twin_search = ([], Ok st') /\
    img st' = img (process_b twin_search).
Proof.
  apply process_b_tc3_output_grid. intros t _. reflexivity.
Defined.

(** X11: when [calloc] gives every thread its [local], process-b_tc4
    returns, and the grid it returns is the grid of the sequential
    reference for every tile size of at least 1 and whatever else the
    runtime does. *)
Theorem process_b_tc4_output_grid (TILE_I : nat) (env : Env) (rt : Runtime) (st : State) :
  (1 <= TILE_I)%nat ->
  (forall t, (t < nthreads rt)%nat -> malloc_null env (LocalCounters t) = false) ->
  exists st',
    region_b_tc4 TILE_I env rt st = ([], Ok st') /\ img st' = img (process_b st).
Proof.
  intros _ Halloc. exists (process_b_tc4 TILE_I rt st). split.
  - unfold region_b_tc4. by rewrite (failing_threads_nil env _ Halloc).
  - apply process_b_tc4_team_grid.
Qed.

Lemma process_b_tc4_output_grid_witness :
  exists st',
    region_b_tc4 1024 (simple_env [] [] false zero_pixel) (static_runtime 2 zero_pixel)
      twin_search = ([], Ok st') /\
    img st' = img (process_b twin_search).
Proof.
  apply process_b_tc4_output_grid; [lia|]. intros t _. reflexivity.
Defined.

(** X12: with a team of one thread process-b_tc2 ends in the state of the
    sequential reference: grid, search list and counters. *)
Theorem process_b_tc2_single_thread (rt : Runtime) (st : State) :
  valid_runtime rt -> nthreads rt = 1%nat ->
  process_b_tc2 rt st = process_b st.
Proof.
  intros Hrt HT. unfold process_b_tc2, process_b, for_range.
  apply for_loop_ext. intros p s' _. by apply tc2_pixel_cycle_one_thread.
Qed.

Lemma process_b_tc2_single_thread_witness :
  process_b_tc2 (static_runtime 1 zero_pixel) twin_search = process_b twin_search.
Proof.
  apply process_b_tc2_single_thread.
  - apply static_runtime_valid. lia.
  - reflexivity.
Defined.






(** ** [LoadFile] and [WriteFile], in general *)

Lemma fill_all (s row : list Pixel) :
  List.length s = List.length row -> fill s 0 row = s.
Proof.
  intros Hlen. unfold fill. apply list_eq. intros p. rewrite list_lookup_imap.
  destruct (decide (p < List.length row)%nat) as [Hp|Hp].
  - destruct (lookup_lt_is_Some_2 row p Hp) as [old ->].
    destruct (lookup_lt_is_Some_2 s p ltac:(lia)) as [x Hx]. simpl.
    by rewrite Nat.sub_0_r, Hx.
  - rewrite (proj2 (lookup_ge_None row p)) by lia.
    by rewrite (proj2 (lookup_ge_None s p)) by lia.
Qed.

Lemma load_loop_empty (w lines : nat) (im : Image.t) :
  (w = 0 \/ lines = 0)%nat ->
  for_range 0 lines (fun l => for_range 0 w (load_pixel 0 l)) (im, [], 0%nat)
  = (im, [], 0%nat).
Proof.
  intros [-> | ->]; [|done].
  apply (for_range_inv (fun s => s = (im, [], 0%nat))); [done|].
  by intros l s _ ->.
Qed.

(** What [LoadFile] returns when every allocation succeeds: the shape of
    [image_shape], and line by line the allocated memory overwritten by
    the stream as far as the stream goes. *)
Lemma LoadFile_rows (env : Env) (which : ImageId) (name : string) (data : list Pixel)
    (linesize : nat) :
  allocations_succeed env which ->
  file env name = Some data ->
  exists rows,
    LoadFile env which (Some name) linesize
    = ([FopenRead (Some name)],
       Ok (Image.mk (image_shape (List.length data) linesize).1.2
                    (image_shape (List.length data) linesize).1.1
                    (image_shape (List.length data) linesize).2 rows)) /\
    List.length rows = (image_shape (List.length data) linesize).1.1 /\
    forall l, (l < (image_shape (List.length data) linesize).1.1)%nat ->
      rows !! l
      = Some (fill (take (image_shape (List.length data) linesize).2
                      (drop (l * (image_shape (List.length data) linesize).2) data)) 0
                (map (initial_pixel env which (image_shape (List.length data) linesize).2
                        NONE l)
                     (seq 0 (image_shape (List.length data) linesize).2))).
Proof.
  intros [Hptr Hline] Hfile.
  unfold LoadFile. rewrite bind_emit. cbn [mbind option_bind]. rewrite Hfile.
  unfold ImageData.
  destruct (image_shape (List.length data) linesize) as [[lines len] w] eqn:Hshape.
  cbn [fst snd].
  rewrite Hptr, alloc_lines_ok by done. rewrite bind_ok. cbn [fst snd].
  set (rows0 := map _ (seq 0 lines)).
  set (im0 := Image.mk len lines w rows0).
  unfold mret, Run_ret, ret. cbn [fst snd app].
  rewrite bind_ok. cbn [fst snd Image.lines Image.linesize im0].
  assert (Hrows0 : forall l, (l < lines)%nat ->
            rows0 !! l = Some (map (initial_pixel env which w NONE l) (seq 0 w))).
  { intros l Hl. unfold rows0. rewrite list_lookup_fmap, lookup_seq_lt by done. done. }
  assert (Hlen0 : List.length rows0 = lines).
  { unfold rows0. by rewrite length_map, length_seq. }
  destruct data as [|x data].
  - assert (Hw : (w = 0 \/ lines = 0)%nat).
    { unfold image_shape in Hshape. cbn [List.length] in Hshape.
      destruct (linesize =? 0)%nat; [left; congruence|right].
      rewrite Nat.Div0.div_0_l in Hshape. cbn in Hshape. congruence. }
    change (List.length (@nil Pixel)) with 0%nat.
    rewrite (load_loop_empty w lines im0 Hw). exists rows0.
    split; [done|]. split; [done|]. intros l Hl.
    rewrite drop_nil, take_nil, fill_nil. by apply Hrows0.
  - set (d := x :: data) in *.
    destruct (load_lines (List.length d) w lines 0 im0 d) as (im' & E & Hsh & Hpix).
    { simpl. lia. }
    { intros l Hl. eexists. split; [apply Hrows0; lia|]. by rewrite length_map, length_seq. }
    assert (E' : for_range 0 lines (fun l => for_range 0 w (load_pixel (List.length d) l))
                   (im0, d, 0%nat) = (im', drop (lines * w) d, 0%nat)).
    { unfold for_range at 1. by rewrite Nat.sub_0_r. }
    rewrite E'. exists (Image.pixels im'). cbn [fst snd app].
    destruct Hsh as (Hlen' & Hlines' & Hw' & Hmap). cbn in Hlen', Hlines', Hw', Hmap.
    split; [|split].
    + destruct im' as [a b c e]. cbn in Hlen', Hlines', Hw' |- *.
      by rewrite Hlen', Hlines', Hw'.
    + apply (f_equal List.length) in Hmap. rewrite !length_map in Hmap. congruence.
    + intros l Hl. rewrite Hpix, decide_True by lia. cbn [Image.pixels im0].
      rewrite (Hrows0 l Hl). cbn. by rewrite Nat.sub_0_r.
Qed.

(** [LoadFile] with line size 0 loads the stream as one line. *)
Lemma LoadFile_one_line (env : Env) (which : ImageId) (name : string)
    (data : list Pixel) :
  allocations_succeed env which ->
  file env name = Some data ->
  LoadFile env which (Some name) 0 = ([FopenRead (Some name)], Ok (one_line data)).
Proof.
  intros Halloc Hfile.
  destruct (LoadFile_rows env which name data 0 Halloc Hfile) as (rows & -> & Hlen & Hrows).
  cbn [image_shape Nat.eqb fst snd] in *.
  do 2 f_equal. unfold one_line. f_equal.
  destruct rows as [|row [|? ?]]; try done.
  specialize (Hrows 0%nat ltac:(lia)). cbn [lookup list_lookup] in Hrows.
  injection Hrows as ->. rewrite drop_0, firstn_all. f_equal.
  apply fill_all. by rewrite length_map, length_seq.
Qed.

Lemma write_line (im : Image.t) (l n lo : nat) (row out : list Pixel) :
  Image.pixels im !! l = Some row ->
  (lo + n <= List.length row)%nat ->
  for_loop n lo (fun p out => out ++ [get_pixel im l p]) out = out ++ take n (drop lo row).
Proof.
  intros Hrow. revert lo out. induction n as [|n IH]; intros lo out Hn.
  - simpl. by rewrite app_nil_r.
  - cbn [for_loop]. rewrite IH by lia.
    destruct (lookup_lt_is_Some_2 row lo ltac:(lia)) as [x Hx].
    rewrite (drop_S _ _ _ Hx). cbn [take]. rewrite <- app_assoc. cbn [app].
    unfold get_pixel. rewrite (list_lookup_total_correct _ _ _ Hrow).
    by rewrite (list_lookup_total_correct _ _ _ Hx).
Qed.

Lemma write_lines (im : Image.t) (m l0 : nat) (out : list Pixel) :
  Forall (fun row => List.length row = Image.linesize im) (Image.pixels im) ->
  (l0 + m <= List.length (Image.pixels im))%nat ->
  for_loop m l0
    (fun l => for_range 0 (Image.linesize im) (fun p out => out ++ [get_pixel im l p])) out
  = out ++ concat (take m (drop l0 (Image.pixels im))).
Proof.
  intros Hrows. revert l0 out. induction m as [|m IH]; intros l0 out Hm.
  - simpl. by rewrite app_nil_r.
  - cbn [for_loop]. rewrite IH by lia.
    destruct (lookup_lt_is_Some_2 (Image.pixels im) l0 ltac:(lia)) as [row Hrow].
    rewrite (drop_S _ _ _ Hrow). cbn [take concat].
    assert (Hlen : List.length row = Image.linesize im).
    { rewrite Forall_lookup in Hrows. by apply (Hrows l0). }
    unfold for_range. rewrite Nat.sub_0_r.
    rewrite (write_line im l0 _ 0 row out Hrow) by lia.
    rewrite drop_0, <- Hlen, firstn_all. by rewrite <- app_assoc.
Qed.

(** [WriteFile] emits the rows of a well-formed image one after the
    other. *)
Lemma file_contents_concat (im : Image.t) :
  wf_image im -> file_contents im = concat (Image.pixels im).
Proof.
  intros [Hlines Hrows]. unfold file_contents, for_range at 1.
  rewrite Nat.sub_0_r, write_lines by (done || lia).
  by rewrite drop_0, <- Hlines, firstn_all.
Qed.

(** X15: [LoadFile] with line size 0 (the way process-b loads its input
    and every program its search list) followed by [WriteFile].  When the
    file can be read and the allocations succeed, the run opens the file
    and returns an image of one line that holds the pixels of the stream
    in order, with [length] and [linesize] equal to their number; writing
    that image stores the stream again, also when the stream is empty. *)
Theorem load_then_write (env : Env) (which : ImageId) (name out : string)
    (data : list Pixel) :
  allocations_succeed env which ->
  file env name = Some data ->
  writable env out = true ->
  LoadFile env which (Some name) 0 = ([FopenRead (Some name)], Ok (one_line data)) /\
  WriteFile env (Some out) (one_line data) = ([FopenWrite (Some out)], Ok data).
Proof.
  intros Halloc Hfile Hw. split; [by apply LoadFile_one_line|].
  unfold WriteFile. rewrite bind_emit, Hw.
  rewrite file_contents_concat by (split; [done | by repeat constructor]).
  cbn. by rewrite app_nil_r.
Qed.

Lemma load_then_write_witness :
  let env := simple_env [mkPixel 1 2 3; mkPixel 4 5 6] [mkPixel 1 2 3] false zero_pixel in
  LoadFile env GridImage (Some "in"%string) 0
  = ([FopenRead (Some "in"%string)], Ok (one_line [mkPixel 1 2 3; mkPixel 4 5 6])) /\
  WriteFile env (Some "out"%string) (one_line [mkPixel 1 2 3; mkPixel 4 5 6])
  = ([FopenWrite (Some "out"%string)], Ok [mkPixel 1 2 3; mkPixel 4 5 6]).
Proof.
  apply load_then_write.
  - split; [reflexivity|]. intros l. reflexivity.
  - reflexivity.
  - reflexivity.
Defined.

Lemma concat_row (w l : nat) (rows : list (list Pixel)) (row : list Pixel) :
  Forall (fun row => List.length row = w) rows ->
  rows !! l = Some row ->
  take w (drop (l * w) (concat rows)) = row.
Proof.
  intros Hrows. revert l. induction Hrows as [|r rows Hr _ IH]; intros l Hl; [done|].
  destruct l as [|l]; cbn [concat].
  - injection Hl as ->. rewrite drop_0, <- Hr. apply take_app_length.
  - cbn [lookup list_lookup] in Hl. cbn [Nat.mul].
    rewrite drop_app_add' by done. by apply IH.
Qed.

Lemma image_shape_exact (lines w : nat) :
  (0 < w)%nat -> image_shape (lines * w) w = (lines, (lines * w)%nat, w).
Proof.
  intros Hw. unfold image_shape.
  destruct (Nat.eqb_spec w 0) as [->|_]; [lia|].
  rewrite Nat.div_mul by lia. rewrite Nat.sub_diag. done.
Qed.

(** X16: round trip through a file.  What [WriteFile] stores for a
    well-formed image of full lines (line size at least 1, [length] equal
    to [lines * linesize]) is loaded back by [LoadFile], called with the
    same line size, as the same image. *)
Theorem write_then_load (env env' : Env) (which : ImageId) (out name : string)
    (im : Image.t) (tr : list Event) (data : list Pixel) :
  wf_image im -> (0 < Image.linesize im)%nat ->
  Image.length im = (Image.lines im * Image.linesize im)%nat ->
  WriteFile env (Some out) im = (tr, Ok data) ->
  allocations_succeed env' which ->
  file env' name = Some data ->
  LoadFile env' which (Some name) (Image.linesize im) = ([FopenRead (Some name)], Ok im).
Proof.
  intros Hwf Hw Hlen Hwrite Halloc Hfile.
  assert (Hdata : data = concat (Image.pixels im)).
  { unfold WriteFile in Hwrite. rewrite bind_emit in Hwrite.
    destruct (writable env out); [|done].
    injection Hwrite as _ <-. by apply file_contents_concat. }
  destruct Hwf as [Hlines Hrows].
  assert (Hsize : List.length data = (Image.lines im * Image.linesize im)%nat).
  { rewrite Hdata, <- Hlines. clear -Hrows.
    induction Hrows as [|r rows Hr _ IH]; [done|].
    cbn [concat List.length]. rewrite length_app, IH, Hr. lia. }
  destruct (LoadFile_rows env' which name data (Image.linesize im) Halloc Hfile)
    as (rows & -> & Hn & Hload).
  rewrite Hsize, image_shape_exact in * by done. cbn [fst snd] in *.
  do 2 f_equal. destruct im as [len lines w pixels]. cbn in *. subst len.
  f_equal. apply list_eq. intros l.
  destruct (decide (l < lines)%nat) as [Hl|Hl].
  - rewrite (Hload l Hl).
    destruct (lookup_lt_is_Some_2 pixels l ltac:(lia)) as [row Hrow].
    rewrite Hrow. f_equal. rewrite Hdata, (concat_row w l pixels row Hrows Hrow).
    apply fill_all. rewrite length_map, length_seq.
    rewrite Forall_lookup in Hrows. by apply (Hrows l).
  - rewrite !(proj2 (lookup_ge_None _ _)); [done|lia|lia].
Qed.

Lemma write_then_load_witness :
  LoadFile (simple_env [mkPixel 1 1 1; mkPixel 2 2 2; mkPixel 10 20 30; mkPixel 40 50 60]
              [] false zero_pixel)
    GridImage (Some "in"%string) (Image.linesize two_rows_a)
  = ([FopenRead (Some "in"%string)], Ok two_rows_a).
Proof.
  apply (write_then_load (simple_env [] [] false zero_pixel) _ GridImage "out" "in"
           two_rows_a [FopenWrite (Some "out"%string)]
           [mkPixel 1 1 1; mkPixel 2 2 2; mkPixel 10 20 30; mkPixel 40 50 60]).
  - split; [reflexivity|]. by repeat constructor.
  - cbv. lia.
  - reflexivity.
  - reflexivity.
  - split; [reflexivity|]. intros l. reflexivity.
  - reflexivity.
Defined.

(** ** process-b from the command line to the report *)

Lemma process_b_one_line (grid : list Pixel) (srch : Image.t) (c : list Z) :
  process_b (mkState (one_line grid) srch c)
  = mkState (one_line (transform_row grid)) srch (bump_all c (row_trace srch grid)).
Proof.
  rewrite process_b_is_row_body.
  rewrite (tc3_row_body_state 0 (mkState (one_line grid) srch c) grid eq_refl eq_refl).
  unfold one_line. cbn [img search counter Image.length Image.lines Image.linesize
                        Image.pixels].
  by rewrite transform_row_length.
Qed.

Lemma report_one_line (grid srch : list Pixel) :
  search_report (mkState (one_line (transform_row grid)) (one_line srch)
                   (bump_all (replicate (List.length srch) 0)
                      (row_trace (one_line srch) grid)))
  = map (fun s => (s, expected_count s grid)) srch.
Proof.
  unfold search_report. cbn [search counter one_line Image.length].
  apply list_eq. intros i. rewrite !list_lookup_fmap.
  destruct (decide (i < List.length srch)%nat) as [Hi|Hi].
  - rewrite lookup_seq_lt by done.
    destruct (lookup_lt_is_Some_2 srch i Hi) as [s Hs]. rewrite Hs.
    cbn [fmap option_fmap option_map Nat.add].
    assert (Hget : get_pixel (one_line srch) 0 i = s).
    { unfold get_pixel. cbn. by apply list_lookup_total_correct. }
    rewrite Hget. do 2 f_equal.
    apply list_lookup_total_correct.
    rewrite bump_all_lookup, lookup_replicate_2 by done.
    cbn [fmap option_fmap option_map].
    rewrite iter_incr_zero, count_occ_row_trace by done.
    unfold expected_count. by rewrite Hget.
  - rewrite lookup_seq_ge by lia.
    by rewrite (proj2 (lookup_ge_None srch i)) by lia.
Qed.

(** X17: process-b from the command line to the report.  Called with an
    input, an output and a search file name, with both files readable,
    the output writable and no allocation failing, it opens the input,
    then the search file, then the output; it stores the left-to-right
    transform of the input pixels; and it reports for every search pixel,
    in the order of the search file, the number of input pixels that
    equal it before the transform plus the number that equal it after. *)
Theorem main_b_end_to_end (env : Env) (av : list string) (inname outname sname : string)
    (grid srch : list Pixel) :
  av !! 1%nat = Some inname -> av !! 2%nat = Some outname -> av !! 3%nat = Some sname ->
  file env inname = Some grid -> file env sname = Some srch ->
  allocations_succeed env GridImage -> allocations_succeed env SearchImage ->
  malloc_null env Counters = false ->
  writable env outname = true ->
  main_b env av
  = ([FopenRead (Some inname); FopenRead (Some sname); FopenWrite (Some outname)],
     Ok (mkOutput (transform_row grid) (map (fun s => (s, expected_count s grid)) srch))).
Proof.
  intros H1 H2 H3 Hgrid Hsrch Ha1 Ha2 Hcnt Hw. unfold main_b.
  pose proof (lookup_lt_Some _ _ _ H3) as Hac.
  replace (List.length av <? 3)%nat with false by (symmetry; apply Nat.ltb_ge; lia).
  rewrite H1, H2, H3.
  rewrite (LoadFile_one_line env GridImage inname grid Ha1 Hgrid), bind_ok.
  rewrite (LoadFile_one_line env SearchImage sname srch Ha2 Hsrch), bind_ok.
  unfold alloc_counter_unchecked. rewrite Hcnt.
  unfold mret, Run_ret, ret. rewrite bind_ok.
  rewrite process_b_one_line. cbn [img].
  unfold WriteFile. rewrite bind_emit, Hw.
  rewrite file_contents_concat.
  2:{ split; [done|]. by repeat constructor. }
  unfold mret, Run_ret, ret. cbn [one_line Image.pixels concat fst snd].
  rewrite app_nil_r, bind_ok. cbn [fst snd app one_line Image.length].
  by rewrite report_one_line.
Qed.

Lemma main_b_end_to_end_witness :
  main_b (simple_env [mkPixel 10 20 30; mkPixel 40 50 60] [mkPixel 10 20 30] false zero_pixel)
    ["process-b"; "in"; "out"; "search"]%string
  = ([FopenRead (Some "in"%string); FopenRead (Some "search"%string);
      FopenWrite (Some "out"%string)],
     Ok (mkOutput (transform_row [mkPixel 10 20 30; mkPixel 40 50 60])
           (map (fun s => (s, expected_count s [mkPixel 10 20 30; mkPixel 40 50 60]))
              [mkPixel 10 20 30]))).
Proof.
  apply main_b_end_to_end.
  - reflexivity.
  - reflexivity.
  - reflexivity.
  - reflexivity.
  - reflexivity.
  - split; [reflexivity|]. intros l. reflexivity.
  - split; [reflexivity|]. intros l. reflexivity.
  - reflexivity.
  - reflexivity.
Defined.

(** ** What [LoadFile] returns, whenever it returns *)

Lemma alloc_lines_inv (env : Env) (which : ImageId) (w : nat) (init : InitialisationType)
    (n l0 : nat) (tr : list Event) (rows : list (list Pixel)) :
  alloc_lines env which w init n l0 = (tr, Ok rows) ->
  tr = [] /\
  rows = map (fun l => map (initial_pixel env which w init l) (seq 0 w)) (seq l0 n).
Proof.
  revert l0 tr rows. induction n as [|n IH]; intros l0 tr rows H.
  - cbn in H. by injection H as <- <-.
  - cbn [alloc_lines] in H. destruct (malloc_null env (Line which l0)); [done|].
    destruct (alloc_lines env which w init n (S l0)) as [tr' [rows'| |]] eqn:E;
      cbn in H; try done.
    destruct (IH _ _ _ E) as [-> ->]. by injection H as <- <-.
Qed.

Lemma wf_same_shape (a b : Image.t) : same_shape a b -> wf_image b -> wf_image a.
Proof.
  intros (_ & Hlines & Hw & Hmap) [Hn Hrows]. split.
  - apply (f_equal List.length) in Hmap. rewrite !length_map in Hmap. congruence.
  - rewrite Forall_lookup in Hrows. apply Forall_lookup. intros l r Hr.
    assert (H : map List.length (Image.pixels b) !! l = Some (List.length r)).
    { by rewrite <- Hmap, list_lookup_fmap, Hr. }
    rewrite list_lookup_fmap in H.
    destruct (Image.pixels b !! l) as [r'|] eqn:E; [|done].
    injection H as <-. rewrite Hw. by apply (Hrows l).
Qed.

Lemma load_pixel_shape (len l p : nat) (s : Loading) (im0 : Image.t) :
  same_shape s.1.1 im0 -> same_shape (load_pixel len l p s).1.1 im0.
Proof.
  destruct s as [[im stream] c]. cbn [fst]. intros H. unfold load_pixel.
  destruct (c <? len)%nat; [destruct stream|]; cbn [fst]; try done;
    (eapply same_shape_trans; [apply set_pixel_same_shape | exact H]).
Qed.

Lemma load_loop_shape (len lines w : nat) (s : Loading) :
  same_shape
    (for_range 0 lines (fun l => for_range 0 w (load_pixel len l)) s).1.1 s.1.1.
Proof.
  apply (for_range_inv (fun s' => same_shape s'.1.1 s.1.1)); [apply same_shape_refl|].
  intros l s' _ Hs'.
  apply (for_range_inv (fun s'' => same_shape s''.1.1 s.1.1)); [done|].
  intros p s'' _ Hs''. by apply load_pixel_shape.
Qed.

(** Whenever [LoadFile] returns, it has opened the file and nothing else,
    and the image is well formed, with the shape of [image_shape]. *)
Lemma LoadFile_inv (env : Env) (which : ImageId) (name : option string) (linesize : nat)
    (tr : list Event) (im : Image.t) :
  LoadFile env which name linesize = (tr, Ok im) ->
  tr = [FopenRead name] /\ wf_image im /\
  exists data, name ≫= file env = Some data /\
    (Image.lines im, Image.length im, Image.linesize im)
    = image_shape (List.length data) linesize.
Proof.
  unfold LoadFile. rewrite bind_emit. intros H.
  destruct (name ≫= file env) as [data|] eqn:Hfile; [|done].
  unfold ImageData in H.
  destruct (image_shape (List.length data) linesize) as [[lines len] w] eqn:Hshape.
  destruct (malloc_null env (LinePointers which)); [done|].
  destruct (alloc_lines env which w NONE lines 0) as [tr' [rows| |]] eqn:E;
    cbn -[for_range] in H; try done.
  destruct (alloc_lines_inv _ _ _ _ _ _ _ _ E) as [-> ->].
  set (im0 := Image.mk len lines w _) in H.
  pose proof (load_loop_shape (List.length data) lines w (im0, data, 0%nat)) as Hsh.
  destruct (for_range 0 lines _ _) as [[im' rest] c]. cbn [fst] in Hsh.
  cbn in H. injection H as <- <-.
  split; [done|]. split.
  - apply (wf_same_shape _ _ Hsh). split.
    + cbn. by rewrite length_map, length_seq.
    + cbn. apply Forall_fmap, Forall_forall. intros l _. cbn.
      by rewrite length_map, length_seq.
  - exists data. split; [done|]. destruct Hsh as (-> & -> & -> & _). done.
Qed.

(** X18: whenever [LoadFile] returns, the only thing it did to the
    environment is to open the file for reading, and the image is well
    formed: [lines] rows of [linesize] pixels each.  With a line size of
    0 it is one line as long as the stream; with a line size of at least
    1 the lines have that size, [length] is [lines * linesize], and
    [length] exceeds the number of pixels of the stream by less than one
    line. *)
Theorem LoadFile_returns_well_formed (env : Env) (which : ImageId) (name : option string)
    (linesize : nat) (tr : list Event) (im : Image.t) :
  LoadFile env which name linesize = (tr, Ok im) ->
  tr = [FopenRead name] /\ wf_image im /\
  exists data, name ≫= file env = Some data /\
    if (linesize =? 0)%nat
    then Image.lines im = 1%nat /\ Image.length im = List.length data /\
         Image.linesize im = List.length data
    else Image.linesize im = linesize /\
         Image.length im = (Image.lines im * linesize)%nat /\
         (List.length data <= Image.length im < List.length data + linesize)%nat.
Proof.
  intros H. destruct (LoadFile_inv _ _ _ _ _ _ H) as (-> & Hwf & data & Hfile & Hshape).
  split; [done|]. split; [done|]. exists data. split; [done|].
  destruct (Nat.eqb_spec linesize 0) as [->|Hne].
  - cbn in Hshape. by injection Hshape as -> -> ->.
  - pose proof (image_shape_padded (List.length data) linesize ltac:(lia)) as Hpad.
    rewrite <- Hshape in Hpad. done.
Qed.

Lemma LoadFile_returns_well_formed_witness :
  let env := simple_env [mkPixel 1 2 3; mkPixel 4 5 6; mkPixel 7 8 9] [] false zero_pixel in
  let im := of_rows 2 [[mkPixel 1 2 3; mkPixel 4 5 6]; [mkPixel 7 8 9; zero_pixel]] in
  [FopenRead (Some "in"%string)] = [FopenRead (Some "in"%string)] /\ wf_image im /\
  exists data, Some "in"%string ≫= file env = Some data /\
    if (2 =? 0)%nat
    then Image.lines im = 1%nat /\ Image.length im = List.length data /\
         Image.linesize im = List.length data
    else Image.linesize im = 2%nat /\
         Image.length im = (Image.lines im * 2)%nat /\
         (List.length data <= Image.length im < List.length data + 2)%nat.
Proof.
  exact (LoadFile_returns_well_formed
           (simple_env [mkPixel 1 2 3; mkPixel 4 5 6; mkPixel 7 8 9] [] false zero_pixel)
           GridImage (Some "in"%string) 2 _ _ eq_refl).
Defined.

(** ** The row-parallel programs from the command line to the report *)

Lemma bind_ext_ok {A B : Type} (m : Run A) (k1 k2 : A -> Run B) :
  (forall tr a, m = (tr, Ok a) -> k1 a = k2 a) -> (m ≫= k1) = (m ≫= k2).
Proof.
  intros H. destruct m as [tr [a| |]]; [|done..].
  unfold mbind, Run_bind, bind. by rewrite (H tr a eq_refl).
Qed.

Lemma bind_assoc {A B C : Type} (m : Run A) (f : A -> Run B) (g : B -> Run C) :
  ((m ≫= f) ≫= g) = (m ≫= (fun a => f a ≫= g)).
Proof.
  destruct m as [tr [a| |]]; [|done..].
  unfold mbind, Run_bind, bind. destruct (f a) as [tr1 [b| |]]; [|done..].
  destruct (g b) as [tr2 r]. by rewrite app_assoc.
Qed.

Lemma bind_ret_l {A B : Type} (a : A) (k : A -> Run B) : (mret a ≫= k) = k a.
Proof. unfold mret, Run_ret, ret, mbind, Run_bind, bind. by destruct (k a). Qed.

Lemma bind_ok_nil {A B : Type} (a : A) (k : A -> Run B) : (([], Ok a) ≫= k) = k a.
Proof. apply bind_ret_l. Qed.

Lemma alloc_counter_checked_inv (env : Env) (n : nat) (tr : list Event) (c : list Z) :
  alloc_counter_checked env n = (tr, Ok c) -> c = replicate n 0.
Proof.
  unfold alloc_counter_checked. destruct (malloc_null env Counters); [done|].
  by intros [= _ <-].
Qed.

Lemma main_a_ext (p1 p2 : State -> State) (env : Env) (av : list string) :
  (forall im srch, wf_image im ->
     p1 (mkState im srch (replicate (Image.length srch) 0))
     = p2 (mkState im srch (replicate (Image.length srch) 0))) ->
  main_a p1 env av = main_a p2 env av.
Proof.
  intros H. unfold main_a. destruct (_ <? 4)%nat; [done|].
  apply bind_ext_ok. intros tr1 im Him.
  apply bind_ext_ok. intros tr2 srch _.
  apply bind_ext_ok. intros tr3 c Hc.
  apply alloc_counter_checked_inv in Hc as ->.
  destruct (LoadFile_inv _ _ _ _ _ _ Him) as (_ & Hwf & _).
  by rewrite H.
Qed.

(** X19: the program process-a_tc3 does not depend on the runtime.  For
    every environment and command line, two runs under any two teams and
    schedules do the same to the environment and end the same way: with
    the same error, or with the same output file and the same search
    report. *)
Theorem main_a_tc3_runtime_independent (rt1 rt2 : Runtime) (env : Env) (av : list string) :
  valid_runtime rt1 -> valid_runtime rt2 ->
  main_a_tc3 rt1 env av = main_a_tc3 rt2 env av.
Proof.
  intros H1 H2. apply main_a_ext. intros im srch Hwf.
  by rewrite (process_a_tc3_rows rt1), (process_a_tc3_rows rt2).
Qed.

Lemma main_a_tc3_runtime_independent_witness :
  main_a_tc3 (static_runtime 1 zero_pixel)
    (simple_env [mkPixel 1 2 3] [mkPixel 1 2 3] false zero_pixel)
    ["a"; "in"; "out"; "search"]%string
  = main_a_tc3 (static_runtime 2 zero_pixel)
      (simple_env [mkPixel 1 2 3] [mkPixel 1 2 3] false zero_pixel)
      ["a"; "in"; "out"; "search"]%string.
Proof.
  apply main_a_tc3_runtime_independent; apply static_runtime_valid; lia.
Defined.

Lemma main_a_region_ext (region : State -> Run State) (process : State -> State)
    (env : Env) (av : list string) :
  (forall im srch, wf_image im ->
     region (mkState im srch (replicate (Image.length srch) 0))
     = ([], Ok (process (mkState im srch (replicate (Image.length srch) 0))))) ->
  main_a_region region env av = main_a process env av.
Proof.
  intros H. unfold main_a_region, main_a. destruct (_ <? 4)%nat; [done|].
  apply bind_ext_ok. intros tr1 im Him.
  apply bind_ext_ok. intros tr2 srch _.
  apply bind_ext_ok. intros tr3 c Hc.
  apply alloc_counter_checked_inv in Hc as ->.
  destruct (LoadFile_inv _ _ _ _ _ _ Him) as (_ & Hwf & _).
  by rewrite (H im srch Hwf), bind_ok_nil.
Qed.

(** X20: the program process-a_tc4 (one task for each row, per-task
    counters merged with atomic additions) against the program
    process-a_tc3.  For every environment in which [calloc] gives every
    task its [local] and every command line, in whatever order the tasks
    are carried out, process-a_tc4 opens the same files in the same
    order, writes the same on stderr and ends the same way as
    process-a_tc3: the same error, or the same output file and the same
    search report.  (Standard output other than the report is not part
    of the model.) *)
Theorem main_a_tc4_is_tc3 (rt1 rt2 : Runtime) (env : Env) (av : list string) :
  valid_runtime rt1 -> valid_runtime rt2 ->
  (forall l, malloc_null env (TaskCounters l) = false) ->
  main_a_tc4 rt1 env av = main_a_tc3 rt2 env av.
Proof.
  intros H1 H2 Halloc. apply main_a_region_ext. intros im srch Hwf.
  unfold region_a_tc4. rewrite failing_tasks_nil by (intros; apply Halloc).
  rewrite (process_a_tc4_tasks rt1 rt2); [done..|]. apply zeros_counters_ok.
Qed.

Lemma main_a_tc4_is_tc3_witness :
  main_a_tc4 (static_runtime 2 zero_pixel)
    (simple_env [mkPixel 1 2 3] [mkPixel 1 2 3] false zero_pixel)
    ["a"; "in"; "out"; "search"]%string
  = main_a_tc3 (static_runtime 1 zero_pixel)
      (simple_env [mkPixel 1 2 3] [mkPixel 1 2 3] false zero_pixel)
      ["a"; "in"; "out"; "search"]%string.
Proof.
  apply main_a_tc4_is_tc3.
  - apply static_runtime_valid. lia.
  - apply static_runtime_valid. lia.
  - intros l. reflexivity.
Defined.



(** ** Channels stay bytes *)

Lemma quot_byte (s d : Z) : 0 <= s <= 255 * d -> 1 <= d -> 0 <= Z.quot s d <= 255.
Proof.
  intros Hs Hd. split.
  - apply Z.quot_pos; lia.
  - apply Z.quot_le_upper_bound; lia.
Qed.

Lemma quot3_between (d : Z) : (0 <= d -> 0 <= Z.quot d 3 <= d) /\ (d <= 0 -> d <= Z.quot d 3 <= 0).
Proof.
  split; intros H.
  - split; [apply Z.quot_pos; lia | apply Z.quot_le_upper_bound; lia].
  - replace d with (- (- d)) by lia. rewrite Z.quot_opp_l by lia.
    pose proof (Z.quot_pos (- d) 3 ltac:(lia) ltac:(lia)).
    pose proof (Z.quot_le_upper_bound (- d) 3 (- d) ltac:(lia) ltac:(lia)). lia.
Qed.

Lemma channel_sum_byte (ch : Pixel -> Z) (w : list Pixel) :
  Forall (fun x => 0 <= ch x <= 255) w ->
  0 <= channel_sum ch w <= 255 * Z.of_nat (List.length w).
Proof.
  induction 1 as [|x w Hx _ IH]; simpl channel_sum; simpl List.length; lia.
Qed.

Lemma bleed_channel_byte (ch : Pixel -> Z) (n : nat) (w : list Pixel) (cur : Pixel) :
  List.length w = n -> (1 <= n <= 10)%nat ->
  Forall (fun x => 0 <= ch x <= 255) w ->
  0 <= ch cur <= 255 ->
  0 <= bleed_channel ch n w cur <= 255.
Proof.
  intros Hlen Hn Hw Hcur.
  rewrite bleed_channel_in_range; [|done|done| |lia].
  2:{ eapply Forall_impl; [exact Hw|]. simpl. intros x Hx. lia. }
  unfold bleed_channel_exact.
  pose proof (channel_sum_byte ch w Hw) as Hs. rewrite Hlen in Hs.
  pose proof (quot_byte (channel_sum ch w) (Z.of_nat n) ltac:(lia) ltac:(lia)) as Ha.
  destruct (quot3_between (Z.quot (channel_sum ch w) (Z.of_nat n) - ch cur)) as [Hp Hm].
  destruct (Z.le_gt_cases 0 (Z.quot (channel_sum ch w) (Z.of_nat n) - ch cur)) as [H|H].
  - specialize (Hp H). lia.
  - specialize (Hm ltac:(lia)). lia.
Qed.

Lemma lxor_byte (v : Z) : 0 <= v <= 255 -> 0 <= Z.lxor v 13 <= 255.
Proof.
  intros Hv.
  assert (H0 : 0 <= Z.lxor v 13) by (apply Z.lxor_nonneg; lia).
  split; [done|].
  destruct (Z.eq_dec (Z.lxor v 13) 0) as [->|Hne]; [lia|].
  cut (Z.lxor v 13 < 2 ^ 8); [lia|].
  apply Z.log2_lt_pow2; [lia|].
  pose proof (Z.log2_lxor v 13 ltac:(lia) ltac:(lia)) as Hl.
  pose proof (Z.log2_le_mono v 255 ltac:(lia)) as Hv'.
  change (Z.log2 255) with 7 in Hv'. change (Z.log2 13) with 3 in Hl. lia.
Qed.

Lemma Greyscale_byte (x : Pixel) : byte_pixel x -> byte_pixel (Greyscale x).
Proof.
  intros (Hr & Hg & Hb). unfold Greyscale, int_div, int_add.
  rewrite (wrap32_id (red x + green x)) by lia.
  rewrite (wrap32_id (red x + green x + blue x)) by lia.
  pose proof (quot_byte (red x + green x + blue x) 3 ltac:(lia) ltac:(lia)) as H.
  rewrite wrap32_id by lia. done.
Qed.

Lemma XOR_byte (x : Pixel) : byte_pixel x -> byte_pixel (XOR x 13).
Proof.
  intros (Hr & Hg & Hb). unfold XOR, int_xor.
  pose proof (lxor_byte (red x) Hr). pose proof (lxor_byte (green x) Hg).
  pose proof (lxor_byte (blue x) Hb).
  rewrite !wrap32_id by lia. done.
Qed.

Lemma bleed_spec_byte (p : nat) (row : list Pixel) (cur : Pixel) :
  (p <= List.length row)%nat -> Forall byte_pixel row -> byte_pixel cur ->
  byte_pixel (bleed_spec p row cur).
Proof.
  intros Hp Hrow Hcur. unfold bleed_spec.
  destruct (Nat.eqb_spec p 0) as [->|Hne]; [done|].
  assert (Hw : Forall byte_pixel (window p row)).
  { unfold window. by apply Forall_take, Forall_drop. }
  pose proof (window_length p row Hp) as Hlen.
  destruct Hcur as (Hr & Hg & Hb).
  split_and!; cbn [red green blue];
    (apply bleed_channel_byte; [done | lia | | done]);
    (eapply Forall_impl; [exact Hw|]); intros x (? & ? & ?); done.
Qed.

Lemma row_step_byte (p : nat) (row : list Pixel) :
  (p < List.length row)%nat -> Forall byte_pixel row -> Forall byte_pixel (row_step p row).
Proof.
  intros Hp Hrow. unfold row_step. apply Forall_insert; [done|].
  apply XOR_byte, Greyscale_byte, bleed_spec_byte; [lia | done |].
  rewrite Forall_lookup in Hrow. apply (Hrow p).
  apply list_lookup_lookup_total_lt. lia.
Qed.

Lemma transform_row_byte (row : list Pixel) :
  Forall byte_pixel row ->
  Forall (fun x => byte_pixel x /\ grey_pixel x) (transform_row row).
Proof.
  intros Hrow.
  assert (Hb : Forall byte_pixel (transform_row row)).
  { unfold transform_row.
    apply (for_loop_inv (fun r => List.length r = List.length row /\ Forall byte_pixel r)).
    - done.
    - intros i r Hi [Hlen Hr]. split; [by rewrite row_step_length|].
      apply row_step_byte; [lia | done]. }
  apply Forall_lookup. intros p x Hx. split.
  - rewrite Forall_lookup in Hb. by apply (Hb p).
  - pose proof (lookup_lt_Some _ _ _ Hx) as Hp. rewrite transform_row_length in Hp.
    rewrite (transform_row_lookup row p Hp) in Hx. injection Hx as <-.
    destruct (transformed_pixel_grey (bleed_spec p (transform_row row) (row !!! p)))
      as [g ->]. done.
Qed.

(** X22: the output of the reference is an 8-bit greyscale image.  When
    every channel of every pixel of the input row is between 0 and 255,
    every pixel that process-b leaves in the row has three equal channels
    between 0 and 255: no step of the bleed, of [Greyscale] or of [XOR]
    with 13 leaves the range of a byte, let alone that of [int]. *)
Theorem process_b_output_is_grey_bytes (st : State) (row : list Pixel) :
  Image.pixels (img st) !! 0%nat = Some row ->
  Image.linesize (img st) = List.length row ->
  Forall byte_pixel row ->
  exists out,
    Image.pixels (img (process_b st)) !! 0%nat = Some out /\
    List.length out = List.length row /\
    Forall (fun x => byte_pixel x /\ grey_pixel x) out.
Proof.
  intros Hrow Hsize Hbytes. exists (transform_row row).
  split; [by apply process_b_row|].
  split; [apply transform_row_length|]. by apply transform_row_byte.
Qed.

Lemma process_b_output_is_grey_bytes_witness :
  exists out,
    Image.pixels (img (process_b scenario)) !! 0%nat = Some out /\
    List.length out = 3%nat /\
    Forall (fun x => byte_pixel x /\ grey_pixel x) out.
Proof.
  apply (process_b_output_is_grey_bytes scenario
           [mkPixel 10 20 30; mkPixel 40 50 60; mkPixel 70 80 90]).
  - reflexivity.
  - reflexivity.
  - repeat constructor; cbn; lia.
Defined.

(** ** The printed form of a pixel *)

Lemma PrintRGBValue_width (v : Z) :
  0 <= v <= 999 -> String.length (PrintRGBValue v) = 3%nat.
Proof.
  intros Hv.
  assert (H : forallb (fun n => Nat.eqb (String.length (PrintRGBValue (Z.of_nat n))) 3)
                (seq 0 1000) = true) by (vm_compute; reflexivity).
  rewrite forallb_forall in H.
  specialize (H (Z.to_nat v)). rewrite Z2Nat.id in H by lia.
  apply Nat.eqb_eq, H, in_seq. lia.
Qed.

Lemma length_append (a b : string) :
  String.length (String.append a b) = (String.length a + String.length b)%nat.
Proof. induction a as [|c a IH]; [done|]. simpl. by rewrite IH. Qed.

(** X23: the printed form of a pixel has a fixed width.  For a pixel whose
    channels are between 0 and 255 (more generally between 0 and 999)
    [PrintRGBValue] pads every channel to exactly three characters, so
    the text between the parentheses of a report line or of [PrintImage]
    is always 13 characters long. *)
Theorem print_pixel_width (x : Pixel) :
  byte_pixel x ->
  String.length (PrintRGBValue (red x)) = 3%nat /\
  String.length (PrintRGBValue (green x)) = 3%nat /\
  String.length (PrintRGBValue (blue x)) = 3%nat /\
  String.length (print_pixel x) = 13%nat.
Proof.
  intros (Hr & Hg & Hb).
  pose proof (PrintRGBValue_width (red x) ltac:(lia)) as H1.
  pose proof (PrintRGBValue_width (green x) ltac:(lia)) as H2.
  pose proof (PrintRGBValue_width (blue x) ltac:(lia)) as H3.
  split_and!; try done.
  unfold print_pixel. rewrite !length_append, H1, H2, H3. done.
Qed.

Lemma print_pixel_width_witness :
  String.length (PrintRGBValue (red (mkPixel 7 42 255))) = 3%nat /\
  String.length (PrintRGBValue (green (mkPixel 7 42 255))) = 3%nat /\
  String.length (PrintRGBValue (blue (mkPixel 7 42 255))) = 3%nat /\
  String.length (print_pixel (mkPixel 7 42 255)) = 13%nat.
Proof. apply print_pixel_width. repeat split; cbn; lia. Defined.

(** ** [ImageData] with an initialisation *)

Lemma ImageData_inv (env : Env) (which : ImageId) (len w : nat) (init : InitialisationType)
    (tr : list Event) (im : Image.t) :
  ImageData env which len w init = (tr, Ok im) ->
  tr = [] /\
  (Image.lines im, Image.length im, Image.linesize im) = image_shape len w /\
  Image.pixels im
  = map (fun l => map (initial_pixel env which (Image.linesize im) init l)
                      (seq 0 (Image.linesize im)))
        (seq 0 (Image.lines im)).
Proof.
  unfold ImageData. destruct (image_shape len w) as [[lines len'] w'].
  destruct (malloc_null env (LinePointers which)); [done|].
  destruct (alloc_lines env which w' init lines 0) as [tr' [rows| |]] eqn:E; try done.
  destruct (alloc_lines_inv _ _ _ _ _ _ _ _ E) as [-> ->].
  cbn. by intros [= <- <-].
Qed.

(** X24: [ImageData] with [RANDOM] initialisation.  Whenever it returns,
    it has touched no file, the image is well formed, and, [rand()] being
    non-negative, every channel of every pixel is between 0 and 254: the
    reduction [% 255] never yields 255. *)
Theorem ImageData_random_range (env : Env) (which : ImageId) (len w : nat)
    (tr : list Event) (im : Image.t) :
  (forall k, 0 <= rand env k) ->
  ImageData env which len w RANDOM = (tr, Ok im) ->
  tr = [] /\ wf_image im /\
  forall l p, (l < Image.lines im)%nat -> (p < Image.linesize im)%nat ->
    0 <= red (get_pixel im l p) <= 254 /\
    0 <= green (get_pixel im l p) <= 254 /\
    0 <= blue (get_pixel im l p) <= 254.
Proof.
  intros Hrand H. destruct (ImageData_inv _ _ _ _ _ _ _ H) as (-> & _ & Hpix).
  split; [done|]. split.
  - split.
    + by rewrite Hpix, length_map, length_seq.
    + rewrite Hpix. apply Forall_fmap, Forall_forall. intros l _. cbn.
      by rewrite length_map, length_seq.
  - intros l p Hl Hp. unfold get_pixel. rewrite Hpix.
    rewrite (list_lookup_total_correct _ l
               (map (initial_pixel env which (Image.linesize im) RANDOM l)
                    (seq 0 (Image.linesize im)))).
    2:{ by rewrite list_lookup_fmap, lookup_seq_lt. }
    rewrite (list_lookup_total_correct _ p
               (initial_pixel env which (Image.linesize im) RANDOM l p)).
    2:{ by rewrite list_lookup_fmap, lookup_seq_lt. }
    cbn [initial_pixel red green blue].
    split_and!;
      match goal with
      | |- 0 <= Z.rem ?a 255 => apply Z.rem_nonneg; [lia | apply Hrand]
      | |- Z.rem ?a 255 <= 254 =>
          pose proof (Z.rem_bound_pos a 255 (Hrand _) ltac:(lia)); lia
      end.
Qed.

Lemma ImageData_random_range_witness :
  let env := simple_env [] [] false zero_pixel in
  let im := of_rows 2 [[zero_pixel; zero_pixel]; [zero_pixel; zero_pixel]] in
  @nil Event = [] /\ wf_image im /\
  forall l p, (l < Image.lines im)%nat -> (p < Image.linesize im)%nat ->
    0 <= red (get_pixel im l p) <= 254 /\
    0 <= green (get_pixel im l p) <= 254 /\
    0 <= blue (get_pixel im l p) <= 254.
Proof.
  exact (ImageData_random_range (simple_env [] [] false zero_pixel) GridImage 3 2 [] _
           ltac:(intros k; cbn; lia) eq_refl).
Defined.

(** ** The variants of process-b from the command line to the report *)

(** A variant whose processing agrees with the reference on the states
    [main] builds is the reference program, except on a command line of
    exactly two arguments and when the allocation of the counters fails. *)
Lemma main_b_variant_ext (process : State -> State) (env : Env) (av : list string) :
  (forall im srch,
     process (mkState im srch (replicate (Image.length srch) 0))
     = process_b (mkState im srch (replicate (Image.length srch) 0))) ->
  List.length av <> 3%nat ->
  malloc_null env Counters = false ->
  main_b_variant process env av = main_b env av.
Proof.
  intros Hproc Hac Hcnt. unfold main_b_variant, setup_b_tc3, main_b.
  destruct (Nat.ltb_spec (List.length av) 3) as [H3|H3].
  - replace (List.length av <? 4)%nat with true by (symmetry; apply Nat.ltb_lt; lia).
    done.
  - replace (List.length av <? 4)%nat with false by (symmetry; apply Nat.ltb_ge; lia).
    rewrite bind_assoc. apply bind_ext_ok. intros tr1 im _.
    rewrite bind_assoc. apply bind_ext_ok. intros tr2 srch _.
    unfold alloc_counter_checked, alloc_counter_unchecked. rewrite Hcnt.
    rewrite bind_assoc, !bind_ret_l. cbn zeta. by rewrite Hproc.
Qed.

(** X25: the program process-b_tc1 against the reference program.  For
    every team size and schedule, every environment in which the
    allocation of the counters succeeds and every command line that does
    not consist of exactly two arguments, process-b_tc1 does to the
    environment what process-b does and ends the same way: the same
    error, or the same output file and the same search report. *)
Theorem main_b_tc1_is_reference (rt : Runtime) (env : Env) (av : list string) :
  valid_runtime rt ->
  List.length av <> 3%nat ->
  malloc_null env Counters = false ->
  main_b_tc1 rt env av = main_b env av.
Proof.
  intros Hrt Hac Hcnt. apply main_b_variant_ext; [|done..].
  intros im srch. unfold process_b_tc1, process_b, for_range.
  apply for_loop_ext. intros p s' _. by apply tc1_pixel_body_eq.
Qed.

Lemma main_b_tc1_is_reference_witness :
  main_b_tc1 (static_runtime 2 zero_pixel)
    (simple_env [mkPixel 10 20 30] [mkPixel 10 20 30] false zero_pixel)
    ["b"; "in"; "out"; "search"]%string
  = main_b (simple_env [mkPixel 10 20 30] [mkPixel 10 20 30] false zero_pixel)
      ["b"; "in"; "out"; "search"]%string.
Proof.
  apply main_b_tc1_is_reference.
  - apply static_runtime_valid. lia.
  - cbn. lia.
  - reflexivity.
Defined.




(** ** A failed allocation of the thread-local counters *)

Lemma failing_tasks_cons (env : Env) (lines l : nat) :
  (l < lines)%nat -> malloc_null env (TaskCounters l) = true ->
  exists l' rest, failing_tasks env lines = l' :: rest.
Proof.
  intros Hl Hnull.
  assert (Hin : In l (failing_tasks env lines)).
  { apply filter_In. split; [apply in_seq; lia | done]. }
  destruct (failing_tasks env lines) as [|l' rest]; [done|]. eauto.
Qed.

Lemma main_b_region_fatal (region : State -> Run State) (env : Env) (av : list string)
    (tr1 tr2 : list Event) (im srch : Image.t) (msg : string) :
  (4 <= List.length av)%nat ->
  LoadFile env GridImage (av !! 1%nat) 0 = (tr1, Ok im) ->
  LoadFile env SearchImage (av !! 3%nat) 0 = (tr2, Ok srch) ->
  malloc_null env Counters = false ->
  region (mkState im srch (replicate (Image.length srch) 0)) = FatalError msg ->
  main_b_region region env av
  = ([FopenRead (av !! 1%nat); FopenRead (av !! 3%nat); Stderr msg], Fatal msg).
Proof.
  intros Hac H1 H2 Hcnt Hregion. unfold main_b_region, setup_b_tc3.
  replace (List.length av <? 4)%nat with false by (symmetry; apply Nat.ltb_ge; lia).
  destruct (LoadFile_inv _ _ _ _ _ _ H1) as (-> & _).
  destruct (LoadFile_inv _ _ _ _ _ _ H2) as (-> & _).
  rewrite !bind_assoc, H1, bind_ok. cbn [fst snd].
  rewrite bind_assoc, H2, bind_ok. cbn [fst snd].
  unfold alloc_counter_checked. rewrite Hcnt.
  rewrite bind_assoc, !bind_ret_l, Hregion. done.
Qed.

(** X27: a failed allocation of a thread's [local] in process-b_tc3 and
    process-b_tc4.  When both files have been loaded, the counters have
    been allocated and [calloc] returns [NULL] to at least one thread of
    the team, each of the two programs prints [calloc failed for local
    counters] on stderr once and exits with status 1; the output file is
    never opened and nothing is reported. *)
Theorem phased_local_calloc_failure (TILE_I : nat) (rt : Runtime) (env : Env)
    (av : list string) (tr1 tr2 : list Event) (im srch : Image.t) (t : nat) :
  (4 <= List.length av)%nat ->
  LoadFile env GridImage (av !! 1%nat) 0 = (tr1, Ok im) ->
  LoadFile env SearchImage (av !! 3%nat) 0 = (tr2, Ok srch) ->
  malloc_null env Counters = false ->
  (t < nthreads rt)%nat -> malloc_null env (LocalCounters t) = true ->
  main_b_tc3 rt env av
  = ([FopenRead (av !! 1%nat); FopenRead (av !! 3%nat);
      Stderr "calloc failed for local counters"],
     Fatal "calloc failed for local counters") /\
  main_b_tc4 TILE_I rt env av
  = ([FopenRead (av !! 1%nat); FopenRead (av !! 3%nat);
      Stderr "calloc failed for local counters"],
     Fatal "calloc failed for local counters") /\
  exit_status (main_b_tc3 rt env av).2 = Some 1 /\
  exit_status (main_b_tc4 TILE_I rt env av).2 = Some 1.
Proof.
  intros Hac H1 H2 Hcnt Ht Hnull.
  destruct (failing_threads_cons env (nthreads rt) t Ht Hnull) as (t' & rest & Hfail).
  assert (E3 : main_b_tc3 rt env av
               = ([FopenRead (av !! 1%nat); FopenRead (av !! 3%nat);
                   Stderr "calloc failed for local counters"],
                  Fatal "calloc failed for local counters")).
  { apply (main_b_region_fatal _ env av tr1 tr2 im srch); try done.
    unfold region_b_tc3. by rewrite Hfail. }
  assert (E4 : main_b_tc4 TILE_I rt env av
               = ([FopenRead (av !! 1%nat); FopenRead (av !! 3%nat);
                   Stderr "calloc failed for local counters"],
                  Fatal "calloc failed for local counters")).
  { apply (main_b_region_fatal _ env av tr1 tr2 im srch); try done.
    unfold region_b_tc4. by rewrite Hfail. }
  by rewrite E3, E4.
Qed.

Lemma phased_local_calloc_failure_witness :
  let env := failing_env [mkPixel 10 20 30] [mkPixel 10 20 30] one_local_null in
  let av := ["b"; "in"; "out"; "search"]%string in
  let rt := static_runtime 2 zero_pixel in
  main_b_tc3 rt env av
  = ([FopenRead (av !! 1%nat); FopenRead (av !! 3%nat);
      Stderr "calloc failed for local counters"],
     Fatal "calloc failed for local counters") /\
  main_b_tc4 1024 rt env av
  = ([FopenRead (av !! 1%nat); FopenRead (av !! 3%nat);
      Stderr "calloc failed for local counters"],
     Fatal "calloc failed for local counters") /\
  exit_status (main_b_tc3 rt env av).2 = Some 1 /\
  exit_status (main_b_tc4 1024 rt env av).2 = Some 1.
Proof.
  intros env av rt.
  destruct (LoadFile_rows env GridImage "in" [mkPixel 10 20 30] 0) as (rows1 & E1 & _);
    [split; [reflexivity | intros l; reflexivity] | reflexivity |].
  destruct (LoadFile_rows env SearchImage "search" [mkPixel 10 20 30] 0) as (rows2 & E2 & _);
    [split; [reflexivity | intros l; reflexivity] | reflexivity |].
  exact (phased_local_calloc_failure 1024 rt env av _ _ _ _ 1
           ltac:(cbn; lia) E1 E2 eq_refl ltac:(cbn; lia) eq_refl).
Defined.


(** A failed allocation of the counters precedes the region: [main]
    around a region that can end the run fails as [main_a] does. *)
Lemma main_a_region_null_counter (region : State -> Run State) (env : Env)
    (av : list string) (tr1 tr2 : list Event) (im srch : Image.t) :
  (4 <= List.length av)%nat ->
  LoadFile env GridImage (av !! 1%nat) 1000 = (tr1, Ok im) ->
  LoadFile env SearchImage (av !! 3%nat) 0 = (tr2, Ok srch) ->
  malloc_null env Counters = true ->
  main_a_region region env av
  = ([FopenRead (av !! 1%nat); FopenRead (av !! 3%nat); Stderr "malloc failed for counter"],
     Fatal "malloc failed for counter").
Proof.
  intros Hac H1 H2 Hnull. unfold main_a_region.
  replace (List.length av <? 4)%nat with false by (symmetry; apply Nat.ltb_ge; lia).
  destruct (LoadFile_inv _ _ _ _ _ _ H1) as (-> & _).
  destruct (LoadFile_inv _ _ _ _ _ _ H2) as (-> & _).
  rewrite H1, bind_ok, H2, bind_ok.
  by rewrite (alloc_counter_checked_null env _ Hnull).
Qed.


